(** * AutoTS: holdout scoring, model selection and forecast-range dispatch

    A shallow embedding of [AutoTS.py], [error_metrics.py] and
    [AutoTS/utils/validation.py].

    Conventions of the embedding.
    - A Python [float] is NaN, an infinity or an exact rational ([Qc]):
      rounding and overflow are not represented, and a zero has no sign.
    - A raised exception is the [Raise] outcome of the [result] monad.
    - The forecasting libraries (pmdarima, statsmodels, tbats) and the
      pandas index helpers [get_loc] and [date_range] are collaborators:
      they enter as the fields of a record of operations ([Forecasters]),
      and every theorem about [fit] and [predict] holds for all of them. *)

From Stdlib Require Import String Ascii.
From Stdlib Require Import List ZArith QArith Qcanon Qcabs Bool Lia.
From Stdlib Require Import Sorting.Sorted Permutation.
Import ListNotations.

Local Open Scope string_scope.
Local Open Scope list_scope.
Local Open Scope Z_scope.

Set Implicit Arguments.

(* ================================================================== *)
(** ** Exceptions and the error monad *)

Inductive exn : Type :=
| TypeError
| ValueError
| AttributeError
| KeyError
| IndexError
| LibraryError.   (* any failure inside a forecasting library *)

Inductive result (A : Type) : Type :=
| Return (a : A)
| Raise (e : exn).

Arguments Return {A} a.
Arguments Raise {A} e.

Definition bind {A B} (c : result A) (k : A -> result B) : result B :=
  match c with
  | Return a => k a
  | Raise e => Raise e
  end.

Notation "x <- c ;; k" := (bind c (fun x => k))
  (at level 61, c at next level, right associativity).
Notation "c ;;; k" := (bind c (fun _ => k))
  (at level 61, right associativity).

Definition raises {A} (c : result A) : Prop :=
  exists e, c = Raise e.

Definition succeeds {A} (c : result A) : Prop :=
  exists a, c = Return a.

(* ================================================================== *)
(** ** Floating-point values: rationals, the two infinities and NaN *)

Module Float.

Inductive fval : Type :=
| NaN
| NegInf
| PosInf
| Fin (q : Qc).

Definition isna (x : fval) : bool :=
match x with NaN => true | _ => false end.

Definition Qc_eqb (a b : Qc) : bool :=
if Qc_eq_dec a b then true else false.

Definition Qc_ltb (a b : Qc) : bool :=
match (a ?= b)%Qc with Lt => true | _ => false end.

Definition fadd (x y : fval) : fval :=
match x, y with
| NaN, _ | _, NaN => NaN
| PosInf, NegInf | NegInf, PosInf => NaN
| PosInf, _ | _, PosInf => PosInf
| NegInf, _ | _, NegInf => NegInf
| Fin a, Fin b => Fin (a + b)%Qc
end.

Definition fsub (x y : fval) : fval :=
match x, y with
| NaN, _ | _, NaN => NaN
| PosInf, PosInf | NegInf, NegInf => NaN
| PosInf, _ => PosInf
| NegInf, _ => NegInf
| Fin _, PosInf => NegInf
| Fin _, NegInf => PosInf
| Fin a, Fin b => Fin (a - b)%Qc
end.

Definition fabs (x : fval) : fval :=
match x with
| NaN => NaN
| NegInf | PosInf => PosInf
| Fin a => Fin (Qcabs a)
end.

(** Division as numpy and pandas do it: nothing is raised.  A non-zero
  number over zero is an infinity of the sign of the number, zero over
  zero is NaN, a number over an infinity is zero.  (A zero has no sign
  here: it divides as [+0.0].) *)
Definition fdiv (x y : fval) : fval :=
match x, y with
| NaN, _ | _, NaN => NaN
| PosInf, PosInf | PosInf, NegInf | NegInf, PosInf | NegInf, NegInf => NaN
| PosInf, Fin b => if Qc_ltb b 0%Qc then NegInf else PosInf
| NegInf, Fin b => if Qc_ltb b 0%Qc then PosInf else NegInf
| Fin _, PosInf | Fin _, NegInf => Fin 0%Qc
| Fin a, Fin b =>
    if Qc_eqb b 0%Qc then
      if Qc_eqb a 0%Qc then NaN
      else if Qc_ltb a 0%Qc then NegInf else PosInf
    else Fin (a / b)%Qc
end.

(** [x < y] on floats: false as soon as one side is NaN. *)
Definition flt (x y : fval) : bool :=
match x, y with
| NaN, _ | _, NaN => false
| _, NegInf => false
| NegInf, _ => true
| PosInf, _ => false
| Fin _, PosInf => true
| Fin a, Fin b => Qc_ltb a b
end.

Definition of_Z (z : Z) : Qc := Q2Qc (inject_Z z).

(** [Series.dropna()] on the values. *)
Definition dropna (l : list fval) : list fval :=
filter (fun x => negb (isna x)) l.

Definition Qcsum (l : list Qc) : Qc := fold_right Qcplus 0%Qc l.

Definition total (l : list fval) : fval := fold_right fadd (Fin 0%Qc) l.

(** [Series.sum()]: missing values are skipped, the empty sum is 0. *)
Definition sum (l : list fval) : fval := total (dropna l).

(** [Series.mean()]: missing values are skipped; NaN when none is left. *)
Definition mean (l : list fval) : fval :=
match dropna l with
| [] => NaN
| v => fdiv (total v) (Fin (of_Z (Z.of_nat (length v))))
end.

End Float.
Import Float.

(* ================================================================== *)
(** ** Dates: [datetime.datetime] / [pandas.Timestamp] *)

Module Datetime.

(** [tod] is the time of day (hour, minute, second, microsecond) as one
  number of microseconds. *)
Record datetime := mkdt { year : Z; month : Z; day : Z; tod : Z }.

Definition dt_compare (a b : datetime) : comparison :=
match year a ?= year b with
| Eq => match month a ?= month b with
        | Eq => match day a ?= day b with
                | Eq => tod a ?= tod b
                | c => c
                end
        | c => c
        end
| c => c
end.

Definition dt_ltb (a b : datetime) : bool :=
match dt_compare a b with Lt => true | _ => false end.
Definition dt_leb (a b : datetime) : bool :=
match dt_compare a b with Gt => false | _ => true end.
Definition dt_gtb (a b : datetime) : bool := dt_ltb b a.
Definition dt_eqb (a b : datetime) : bool :=
match dt_compare a b with Eq => true | _ => false end.

Definition is_leap (y : Z) : bool :=
(y mod 4 =? 0) && (negb (y mod 100 =? 0) || (y mod 400 =? 0)).

(** [calendar.monthrange(y, m)[1]] *)
Definition days_in_month (y m : Z) : Z :=
if m =? 2 then (if is_leap y then 29 else 28)
else if (m =? 4) || (m =? 6) || (m =? 9) || (m =? 11) then 30
else 31.

(** [d + relativedelta(months=+1)]: the month advances, the year rolls
  over after December, the day is clipped to the length of the month. *)
Definition add_one_month (d : datetime) : datetime :=
let m := month d + 1 in
let '(y, m) := if m >? 12 then (year d + 1, m - 12) else (year d, m) in
mkdt y m (Z.min (days_in_month y m) (day d)) (tod d).

(** [(a.year - b.year) * 12 + (a.month - b.month)] *)
Definition months_between (a b : datetime) : Z :=
(year a - year b) * 12 + (month a - month b).

(** A month start at midnight, the labels of a frequency-['MS'] index. *)
Definition month_start (y m : Z) : datetime := mkdt y m 1 0.

End Datetime.
Import Datetime.

(* ================================================================== *)
(** ** Strings *)

Module Str.

Definition lower_ascii (c : ascii) : ascii :=
let n := nat_of_ascii c in
if (65 <=? n)%nat && (n <=? 90)%nat then ascii_of_nat (n + 32) else c.

(** [str.lower()] on ASCII text. *)
Fixpoint lower (s : string) : string :=
match s with
| EmptyString => EmptyString
| String c r => String (lower_ascii c) (lower r)
end.

Fixpoint rev_string (s : string) : string :=
match s with
| EmptyString => EmptyString
| String c r => (rev_string r ++ String c EmptyString)%string
end.

(** [s.endswith(suffix)] *)
Definition endswith (s suffix : string) : bool :=
String.prefix (rev_string suffix) (rev_string s).

(** [x in l] for a list of strings. *)
Definition str_in (x : string) (l : list string) : bool :=
existsb (String.eqb x) l.

End Str.
Import Str.

(* ================================================================== *)
(** ** The pandas objects the program builds *)

Module Pandas.

(** A [Series] with a datetime index: labelled values, in row order. *)
Definition Series : Type := list (datetime * fval).

(** A [DataFrame], row by row: the column names, and per row its index
  label and one value per column.  [is_datetime_index] tells whether
  [df.index] is a [pd.DatetimeIndex]. *)
Record DataFrame := mkdf {
is_datetime_index : bool;
columns : list string;
rows : list (datetime * list fval)
}.

Definition index (df : DataFrame) : list datetime := map fst (rows df).
Definition s_index (s : Series) : list datetime := map fst s.
Definition s_values (s : Series) : list fval := map snd s.

(** [len(df)] *)
Definition len (df : DataFrame) : Z := Z.of_nat (length (rows df)).

Fixpoint find_col (name : string) (cols : list string) : option nat :=
match cols with
| [] => None
| c :: r => if String.eqb name c then Some O
            else option_map S (find_col name r)
end.

Definition cell (i : nat) (r : list fval) : fval := nth i r NaN.

(** [df[name]]: one column as a Series; [KeyError] when absent. *)
Definition getitem (df : DataFrame) (name : string) : result Series :=
match find_col name (columns df) with
| None => Raise KeyError
| Some i => Return (map (fun r => (fst r, cell i (snd r))) (rows df))
end.

Fixpoint find_cols (names cols : list string) : option (list nat) :=
match names with
| [] => Some []
| n :: r =>
    match find_col n cols, find_cols r cols with
    | Some i, Some l => Some (i :: l)
    | _, _ => None
    end
end.

(** [df[[n1, ..., nk]]]: the listed columns, in the listed order. *)
Definition getitem_list (df : DataFrame) (names : list string)
: result DataFrame :=
match find_cols names (columns df) with
| None => Raise KeyError
| Some ps =>
    Return (mkdf (is_datetime_index df) names
              (map (fun r => (fst r, map (fun i => cell i (snd r)) ps))
                   (rows df)))
end.

Fixpoint remove_nth {A} (i : nat) (l : list A) : list A :=
match i, l with
| _, [] => []
| O, _ :: r => r
| S j, x :: r => x :: remove_nth j r
end.

(** [df.drop(name, axis='columns')] *)
Definition drop_column (df : DataFrame) (name : string) : result DataFrame :=
match find_col name (columns df) with
| None => Raise KeyError
| Some i =>
    Return (mkdf (is_datetime_index df) (remove_nth i (columns df))
              (map (fun r => (fst r, remove_nth i (snd r))) (rows df)))
end.

(** A slice bound [i] on a sequence of length [n], as Python resolves it. *)
Definition slice_bound (n i : Z) : nat :=
Z.to_nat (if i <? 0 then Z.max (n + i) 0 else Z.min i n).

(** [df.iloc[:stop, :]] and [df.iloc[start:, :]] *)
Definition iloc_to (df : DataFrame) (stop : Z) : DataFrame :=
mkdf (is_datetime_index df) (columns df)
     (firstn (slice_bound (len df) stop) (rows df)).
Definition iloc_from (df : DataFrame) (start : Z) : DataFrame :=
mkdf (is_datetime_index df) (columns df)
     (skipn (slice_bound (len df) start) (rows df)).

(** [self.data.index[-1]] and [self.data.index[0]] *)
Definition index_last (df : DataFrame) : result datetime :=
match rev (index df) with
| [] => Raise IndexError
| d :: _ => Return d
end.
Definition index_first (df : DataFrame) : result datetime :=
match index df with
| [] => Raise IndexError
| d :: _ => Return d
end.

(** [pd.DataFrame({n1: series, n2: array})]: the series gives the index,
  the array must have its length. *)
Definition frame_of_series_array (n1 : string) (s : Series)
         (n2 : string) (a : list fval) : result DataFrame :=
if Nat.eqb (length a) (length s) then
  Return (mkdf true [n1; n2]
            (map (fun p => (fst (fst p), [snd (fst p); snd p]))
                 (combine s a)))
else Raise ValueError.

Fixpoint insert_dt (d : datetime) (l : list datetime) : list datetime :=
match l with
| [] => [d]
| x :: r => if dt_ltb x d then x :: insert_dt d r
            else if dt_eqb x d then x :: r
            else d :: x :: r
end.

(** The sorted union of two label lists, each label once. *)
Definition sorted_union (a b : list datetime) : list datetime :=
fold_right insert_dt [] (a ++ b).

Definition dt_list_eqb (a b : list datetime) : bool :=
Nat.eqb (length a) (length b) &&
forallb (fun p => dt_eqb (fst p) (snd p)) (combine a b).

Fixpoint has_duplicates (l : list datetime) : bool :=
match l with
| [] => false
| x :: r => existsb (dt_eqb x) r || has_duplicates r
end.

(** [Index.union]: the result is sorted unless both sides are equal or
  one of them is empty. *)
Definition index_union (a b : list datetime) : list datetime :=
if dt_list_eqb a b then a
else match a, b with
     | [], _ => b
     | _, [] => a
     | _, _ => sorted_union a b
     end.

Fixpoint lookup (d : datetime) (s : Series) : fval :=
match s with
| [] => NaN
| (k, v) :: r => if dt_eqb k d then v else lookup d r
end.

(** [s.reindex(idx)]: nothing to do on the series' own index; otherwise
  the labels of the series must be distinct, absent labels give NaN. *)
Definition reindex (s : Series) (idx : list datetime) : result (list fval) :=
if dt_list_eqb (s_index s) idx then Return (s_values s)
else if has_duplicates (s_index s) then Raise ValueError
else Return (map (fun d => lookup d s) idx).

(** [pd.DataFrame({n1: s1, n2: s2})]: both series are aligned on the
  union of their indexes. *)
Definition frame_of_two_series (n1 : string) (s1 : Series)
         (n2 : string) (s2 : Series) : result DataFrame :=
let idx := index_union (s_index s1) (s_index s2) in
v1 <- reindex s1 idx ;;
v2 <- reindex s2 idx ;;
Return (mkdf true [n1; n2]
          (map (fun p => (fst p, [fst (snd p); snd (snd p)]))
               (combine idx (combine v1 v2)))).

(** [pd.Series(values, index=idx)]: the lengths must agree. *)
Definition series_of (values : list fval) (idx : list datetime)
: result Series :=
if Nat.eqb (length values) (length idx) then Return (combine idx values)
else Raise ValueError.

(** [s.loc[a:b]] and [s.loc[a:]] on a sorted index: the labels within the
  bounds, both ends included. *)
Definition loc_between (s : Series) (a b : datetime) : Series :=
filter (fun r => dt_leb a (fst r) && dt_leb (fst r) b) s.
Definition loc_from (s : Series) (a : datetime) : Series :=
filter (fun r => dt_leb a (fst r)) s.

(** The suffixes [pd.merge] appends to column names present on both
  sides. *)
Definition suffix_overlap (sfx : string) (other cols : list string)
: list string :=
map (fun c => if str_in c other then (c ++ sfx)%string else c) cols.

(** [pd.merge(left, right, left_index=True, right_index=True)]: inner
  join on the index, in the order of the left rows. *)
Definition merge (left right : DataFrame) : DataFrame :=
mkdf (is_datetime_index left)
     (suffix_overlap "_x" (columns right) (columns left)
      ++ suffix_overlap "_y" (columns left) (columns right))
     (flat_map
        (fun l =>
           map (fun r => (fst l, snd l ++ snd r))
               (filter (fun r => dt_eqb (fst l) (fst r)) (rows right)))
        (rows left)).

(** [functools.reduce(f, l)] without an initial value. *)
Definition reduce {A} (f : A -> A -> result A) (l : list A) : result A :=
match l with
| [] => Raise TypeError
| x :: r => fold_left (fun acc y => a <- acc ;; f a y) r (Return x)
end.

(** [df[cols].mean(axis='columns')] for the columns selected by [keep]. *)
Definition row_mean (keep : list bool) (r : list fval) : fval :=
mean (map snd (filter fst (combine keep r))).

(** [df[name] = values], for a new column name. *)
Definition add_column (df : DataFrame) (name : string)
         (f : list fval -> fval) : DataFrame :=
mkdf (is_datetime_index df) (columns df ++ [name])
     (map (fun r => (fst r, snd r ++ [f (snd r)])) (rows df)).

Fixpoint replace_nth {A} (i : nat) (v : A) (l : list A) : list A :=
match i, l with
| _, [] => []
| O, _ :: r => v :: r
| S j, x :: r => x :: replace_nth j v r
end.

(** [df[name] = values] (values in row order): an existing column is
  overwritten, a new one is appended. *)
Definition set_column (df : DataFrame) (name : string) (vals : list fval)
: DataFrame :=
match find_col name (columns df) with
| Some i =>
    mkdf (is_datetime_index df) (columns df)
         (map (fun p => (fst (fst p), replace_nth i (snd p) (snd (fst p))))
              (combine (rows df) vals))
| None =>
    mkdf (is_datetime_index df) (columns df ++ [name])
         (map (fun p => (fst (fst p), snd (fst p) ++ [snd p]))
              (combine (rows df) vals))
end.

(** Rows of [n] cells each. *)
Definition rows_of_width (n : nat) (rs : list (datetime * list fval)) : Prop :=
Forall (fun r => length (snd r) = n) rs.

(** Every row has one cell per column. *)
Definition well_formed (df : DataFrame) : Prop :=
rows_of_width (length (columns df)) (rows df).

End Pandas.
Import Pandas.

(* ================================================================== *)
(** ** error_metrics.py *)

Module ErrorMetrics.

(** [Series.shift(periods)]: values move down by [periods] rows (up when
  negative), the vacated rows are NaN, the length is kept. *)
Definition shift (periods : Z) (l : list fval) : list fval :=
let n := length l in
if 0 <=? periods then
  let k := Nat.min (Z.to_nat periods) n in
  repeat NaN k ++ firstn (n - k) l
else
  let k := Nat.min (Z.to_nat (- periods)) n in
  skipn k l ++ repeat NaN k.

(** [abs(a - b)], value by value. *)
Definition abs_diff (a b : list fval) : list fval :=
map (fun p => fabs (fsub (fst p) (snd p))) (combine a b).

Definition mase (data : DataFrame) (prediction actuals : string)
         (step_size : Z) : result fval :=
data <- getitem_list data [prediction; actuals] ;;
a <- getitem data actuals ;;
let data := set_column data "shifted_actuals" (shift step_size (s_values a)) in
a <- getitem data actuals ;;
sa <- getitem data "shifted_actuals" ;;
let data := set_column data "abs_shifted_error"
              (abs_diff (s_values a) (s_values sa)) in
a <- getitem data actuals ;;
p <- getitem data prediction ;;
let data := set_column data "abs_prediction_error"
              (abs_diff (s_values a) (s_values p)) in
ase <- getitem data "abs_shifted_error" ;;
let avg_shifted_error :=
  fdiv (sum (s_values ase)) (Fin (of_Z (len data - step_size))) in
ape <- getitem data "abs_prediction_error" ;;
let data := set_column data "abs_scaled_error"
              (map (fun e => fdiv e avg_shifted_error) (s_values ape)) in
r <- getitem data "abs_scaled_error" ;;
Return (mean (s_values r)).

(** What [mase] computes from the values of the two columns, when their
  names differ from each other and from the working columns. *)
Definition mase_columns (acts preds : list fval) (step_size : Z) : fval :=
let abs_shifted_error := abs_diff acts (shift step_size acts) in
let abs_prediction_error := abs_diff acts preds in
let avg_shifted_error :=
fdiv (sum abs_shifted_error)
     (Fin (of_Z (Z.of_nat (length acts) - step_size))) in
mean (map (fun e => fdiv e avg_shifted_error) abs_prediction_error).

Definition working_columns : list string :=
["shifted_actuals"; "abs_shifted_error"; "abs_prediction_error";
"abs_scaled_error"].

(** *** The contract of section 4.1, written from its four steps *)

Definition nthq (l : list Qc) (i : nat) : Qc := nth i l 0%Qc.

Definition shiftedError (actual : list Qc) (step i : nat) : Qc :=
Qcabs (nthq actual i - nthq actual (i - step)).

Definition scaleFactor (actual : list Qc) (step : nat) : Qc :=
(Qcsum (map (shiftedError actual step)
            (seq step (length actual - step)))
 / of_Z (Z.of_nat (length actual) - Z.of_nat step))%Qc.

Definition scaledError (actual predicted : list Qc) (step i : nat) : Qc :=
(Qcabs (nthq actual i - nthq predicted i) / scaleFactor actual step)%Qc.

Definition mase_spec (actual predicted : list Qc) (step : nat) : Qc :=
(Qcsum (map (scaledError actual predicted step) (seq 0 (length actual)))
 / of_Z (Z.of_nat (length actual)))%Qc.

End ErrorMetrics.

(* ================================================================== *)
(** ** AutoTS/utils/validation.py *)

Module Validation.

(** The [models] argument: a tuple, a list, or a value of another type. *)
Inductive models_arg : Type :=
| ModelsTuple (l : list string)
| ModelsList (l : list string)
| ModelsOther.

Definition valid_models : list string :=
["auto_arima"; "exponential_smoothing"; "tbats"; "ensemble"].

Definition check_models (models : models_arg) : result (list string) :=
match models with
| ModelsOther => Raise TypeError
| ModelsTuple l | ModelsList l =>
    if Nat.eqb (length l) 0 then Raise ValueError
    else
      let invalid_models :=
        filter (fun model => negb (str_in model valid_models)) l in
      if Nat.ltb 0 (length invalid_models) then Raise ValueError
      else if Nat.leb (length l) 2 && str_in "ensemble" l
           then Raise ValueError
           else Return l
end.

Definition check_datetime_index (series_df : DataFrame) : result unit :=
if negb (is_datetime_index series_df) then Raise TypeError
else Return tt.

(** A date argument of [validate_predict_dates]: a string, a
  [datetime], or a value of another type. *)
Inductive date_value : Type :=
| DateStr (s : string)
| DateObj (d : datetime)
| DateOther.

Section Dates.

(** [pd.to_datetime] on a string: the timestamp, or the exception it
  raises on a string it cannot parse. *)
Variable to_datetime : string -> result datetime.

Definition validate_predict_dates (start_date end_date : date_value)
: result unit :=
start_date <- match start_date with
            | DateStr s => to_datetime s
            | DateObj d => Return d
            | DateOther => Raise TypeError
            end ;;
end_date <- match end_date with
          | DateStr s => to_datetime s
          | DateObj d => Return d
          | DateOther => Raise TypeError
          end ;;
if dt_gtb start_date end_date then Raise ValueError else Return tt.

End Dates.

End Validation.

(* ================================================================== *)
(** ** AutoTS.py: the class, its state and [fit] *)

Module AutoTS.

(** A candidate's error: a float from [mase], or Python's [None] when
  [_error_metric] falls through. *)
Inductive score : Type :=
| NoScore
| Score (v : fval).

(** The [exogenous] argument of [fit]. *)
Inductive exog_arg : Type :=
| ExogNone
| ExogStr (column : string)
| ExogList (columns : list string).

(** A date argument of [predict]: a [datetime], or a value of another
  type. *)
Inductive date_arg : Type :=
| IsDatetime (d : datetime)
| NotDatetime.

Section Class.

(** The model objects of the three libraries (for tbats both the
estimator that [BATS(...)] builds and the fitted model). *)
Variable Model : Type.

(** The collaborators: pmdarima ([auto_arima], [predict_in_sample],
[arima_predict]), statsmodels ([ExponentialSmoothing] with its
[fit], [es_predict] by positions and [es_predict_dates] by dates),
tbats (the constructor [BATS], then [BATS_fit], [forecast], [y_hat]) and
the pandas helpers [Index.get_loc] and [date_range(..., freq='MS')]. *)
Record Forecasters := {
auto_arima : Series -> bool -> Z -> option string -> option DataFrame
           -> result Model;
predict_in_sample : Model -> option Z -> option Z -> option DataFrame
                  -> result (list fval);
arima_predict : Model -> Z -> option DataFrame -> result (list fval);
ExponentialSmoothing : Series -> option Z -> bool -> result Model;
es_predict : Model -> Z -> Z -> result Series;
es_predict_dates : Model -> datetime -> datetime -> result Series;
BATS : list (option Z) -> bool -> result Model;
BATS_fit : Model -> Series -> result Model;
forecast : Model -> Z -> result (list fval);
y_hat : Model -> list fval;
get_loc : list datetime -> datetime -> result Z;
date_range : datetime -> datetime -> list datetime
}.

Variable F : Forecasters.

(** [[error, model, name, test_predictions]] *)
Record Candidate := mkcand {
c_error : score;
c_model : option Model;
c_name : string;
c_predictions : DataFrame
}.

Record AutoTS := mkself {
model_names : list string;
error_metric : string;
is_seasonal : bool;
seasonal_period : option Z;
holdout_period : Z;
verbose : bool;
data : option DataFrame;
training_data : option DataFrame;
testing_data : option DataFrame;
series_column_name : option string;
exogenous : option (list string);
using_exogenous : bool;
candidate_models : list Candidate;
fit_model : option Model;
fit_model_type : option string;
best_model_error : option score;
is_fitted : bool
}.

(** *** Methods run on [self]: state and exceptions

A method returns its outcome and the object as it has left it; an
exception keeps the mutations made before it. *)
Definition M (A : Type) : Type := AutoTS -> result A * AutoTS.

Definition ret {A} (a : A) : M A := fun s => (Return a, s).
Definition bindM {A B} (c : M A) (k : A -> M B) : M B :=
fun s => match c s with
       | (Return a, s') => k a s'
       | (Raise e, s') => (Raise e, s')
       end.
Definition lift {A} (r : result A) : M A := fun s => (r, s).
Definition get : M AutoTS := fun s => (Return s, s).
Definition modify (f : AutoTS -> AutoTS) : M unit :=
fun s => (Return tt, f s).

(** Reading an attribute that holds an object; on [None] the use of the
attribute raises [TypeError]. *)
Definition the {A} (o : option A) : M A :=
match o with
| Some a => ret a
| None => lift (Raise TypeError)
end.

Definition __init__ (model_names : Validation.models_arg)
       (error_metric : string) (seasonal_period : option Z)
       (holdout_period : Z) (verbose : bool) : result AutoTS :=
names <- Validation.check_models model_names ;;
Return {|
model_names := map lower names;
error_metric := lower error_metric;
is_seasonal := match seasonal_period with Some _ => true | None => false end;
seasonal_period := seasonal_period;
holdout_period := holdout_period;
verbose := verbose;
data := None;
training_data := None;
testing_data := None;
series_column_name := None;
exogenous := None;
using_exogenous := false;
candidate_models := [];
fit_model := None;
fit_model_type := None;
best_model_error := None;
is_fitted := false
|}.

(** *** Attribute assignments *)

Definition set_input (d tr te : DataFrame) (n : string) (s : AutoTS) : AutoTS :=
{|
 model_names := model_names s;
 error_metric := error_metric s;
 is_seasonal := is_seasonal s;
 seasonal_period := seasonal_period s;
 holdout_period := holdout_period s;
 verbose := verbose s;
 data := Some d;
 training_data := Some tr;
 testing_data := Some te;
 series_column_name := Some n;
 exogenous := exogenous s;
 using_exogenous := using_exogenous s;
 candidate_models := candidate_models s;
 fit_model := fit_model s;
 fit_model_type := fit_model_type s;
 best_model_error := best_model_error s;
 is_fitted := is_fitted s
|}.

Definition set_exogenous (l : list string) (s : AutoTS) : AutoTS :=
{|
 model_names := model_names s;
 error_metric := error_metric s;
 is_seasonal := is_seasonal s;
 seasonal_period := seasonal_period s;
 holdout_period := holdout_period s;
 verbose := verbose s;
 data := data s;
 training_data := training_data s;
 testing_data := testing_data s;
 series_column_name := series_column_name s;
 exogenous := Some l;
 using_exogenous := true;
 candidate_models := candidate_models s;
 fit_model := fit_model s;
 fit_model_type := fit_model_type s;
 best_model_error := best_model_error s;
 is_fitted := is_fitted s
|}.

Definition set_candidate_models (l : list Candidate) (s : AutoTS) : AutoTS :=
{|
 model_names := model_names s;
 error_metric := error_metric s;
 is_seasonal := is_seasonal s;
 seasonal_period := seasonal_period s;
 holdout_period := holdout_period s;
 verbose := verbose s;
 data := data s;
 training_data := training_data s;
 testing_data := testing_data s;
 series_column_name := series_column_name s;
 exogenous := exogenous s;
 using_exogenous := using_exogenous s;
 candidate_models := l;
 fit_model := fit_model s;
 fit_model_type := fit_model_type s;
 best_model_error := best_model_error s;
 is_fitted := is_fitted s
|}.

Definition set_best_model_error (e : score) (s : AutoTS) : AutoTS :=
{|
 model_names := model_names s;
 error_metric := error_metric s;
 is_seasonal := is_seasonal s;
 seasonal_period := seasonal_period s;
 holdout_period := holdout_period s;
 verbose := verbose s;
 data := data s;
 training_data := training_data s;
 testing_data := testing_data s;
 series_column_name := series_column_name s;
 exogenous := exogenous s;
 using_exogenous := using_exogenous s;
 candidate_models := candidate_models s;
 fit_model := fit_model s;
 fit_model_type := fit_model_type s;
 best_model_error := Some e;
 is_fitted := is_fitted s
|}.

Definition set_fit_model (m : option Model) (s : AutoTS) : AutoTS :=
{|
 model_names := model_names s;
 error_metric := error_metric s;
 is_seasonal := is_seasonal s;
 seasonal_period := seasonal_period s;
 holdout_period := holdout_period s;
 verbose := verbose s;
 data := data s;
 training_data := training_data s;
 testing_data := testing_data s;
 series_column_name := series_column_name s;
 exogenous := exogenous s;
 using_exogenous := using_exogenous s;
 candidate_models := candidate_models s;
 fit_model := m;
 fit_model_type := fit_model_type s;
 best_model_error := best_model_error s;
 is_fitted := is_fitted s
|}.

Definition set_fit_model_type (t : string) (s : AutoTS) : AutoTS :=
{|
 model_names := model_names s;
 error_metric := error_metric s;
 is_seasonal := is_seasonal s;
 seasonal_period := seasonal_period s;
 holdout_period := holdout_period s;
 verbose := verbose s;
 data := data s;
 training_data := training_data s;
 testing_data := testing_data s;
 series_column_name := series_column_name s;
 exogenous := exogenous s;
 using_exogenous := using_exogenous s;
 candidate_models := candidate_models s;
 fit_model := fit_model s;
 fit_model_type := Some t;
 best_model_error := best_model_error s;
 is_fitted := is_fitted s
|}.

Definition set_is_fitted (b : bool) (s : AutoTS) : AutoTS :=
{|
 model_names := model_names s;
 error_metric := error_metric s;
 is_seasonal := is_seasonal s;
 seasonal_period := seasonal_period s;
 holdout_period := holdout_period s;
 verbose := verbose s;
 data := data s;
 training_data := training_data s;
 testing_data := testing_data s;
 series_column_name := series_column_name s;
 exogenous := exogenous s;
 using_exogenous := using_exogenous s;
 candidate_models := candidate_models s;
 fit_model := fit_model s;
 fit_model_type := fit_model_type s;
 best_model_error := best_model_error s;
 is_fitted := b
|}.

Notation "x <~ c ;; k" := (bindM c (fun x => k))
(at level 61, c at next level, right associativity).
Notation "c ;;~ k" := (bindM c (fun _ => k))
(at level 61, right associativity).

(** *** Scoring *)

Definition _error_metric (data : DataFrame)
       (predictions_column actuals_column : string) : M score :=
self <~ get ;;
if String.eqb (error_metric self) "mase" then
v <~ lift (ErrorMetrics.mase data predictions_column actuals_column 1) ;;
ret (Score v)
else ret NoScore.

Definition _set_input_data (data : DataFrame) (series_column_name : string)
: M unit :=
self <~ get ;;
modify (set_input data
        (iloc_to data (- holdout_period self))
        (iloc_from data (- holdout_period self))
        series_column_name).

(** *** The candidate fits *)

(** The [try] around [auto_arima]: a [ValueError] leads to one more
call, with the Canova-Hansen seasonal test. *)
Definition auto_arima_with_retry (model_data : DataFrame) (column : string)
       (seasonal : bool) (m : Z) (train_exog : option DataFrame)
: result Model :=
match (y <- getitem model_data column ;;
     auto_arima F y seasonal m None train_exog) with
| Raise ValueError =>
  y <- getitem model_data column ;;
  auto_arima F y seasonal m (Some "ch") train_exog
| r => r
end.

Definition _fit_auto_arima (use_full_dataset : bool) : M Candidate :=
self <~ get ;;
model_data <~ the (if use_full_dataset then data self
                 else training_data self) ;;
column <~ the (series_column_name self) ;;
exog <~ (if using_exogenous self then
         names <~ the (exogenous self) ;;
         train_exog <~ lift (getitem_list model_data names) ;;
         testing <~ the (testing_data self) ;;
         test_exog <~ lift (getitem_list testing names) ;;
         ret (Some train_exog, Some test_exog)
       else ret (None, None)) ;;
let '(train_exog, test_exog) := exog in
let auto_arima_seasonal_period :=
match seasonal_period self with
| None => 1
| Some p => p
end in
model <~ lift (auto_arima_with_retry model_data column
               (is_seasonal self) auto_arima_seasonal_period
               train_exog) ;;
test_predictions <~
(if use_full_dataset then
   actuals <~ lift (getitem model_data column) ;;
   preds <~ lift (predict_in_sample F model None None train_exog) ;;
   lift (frame_of_series_array "actuals" actuals
           "aa_test_predictions" preds)
 else
   testing <~ the (testing_data self) ;;
   actuals <~ lift (getitem testing column) ;;
   preds <~ lift (arima_predict F model (len testing) test_exog) ;;
   lift (frame_of_series_array "actuals" actuals
           "aa_test_predictions" preds)) ;;
test_error <~ _error_metric test_predictions
              "aa_test_predictions" "actuals" ;;
ret (mkcand test_error (Some model) "auto_arima" test_predictions).

Definition _fit_exponential_smoothing (use_full_dataset : bool)
: M Candidate :=
self <~ get ;;
model_data <~ the (if use_full_dataset then data self
                 else training_data self) ;;
column <~ the (series_column_name self) ;;
y <~ lift (getitem model_data column) ;;
model <~ lift (ExponentialSmoothing F y (seasonal_period self)
               (match seasonal_period self with
                | Some _ => true
                | None => false
                end)) ;;
testing <~ the (testing_data self) ;;
actuals <~ lift (getitem testing column) ;;
training <~ the (training_data self) ;;
preds <~ lift (es_predict F model (len training)
               (len training + holdout_period self - 2)) ;;
test_predictions <~ lift (frame_of_two_series "actuals" actuals
                          "es_test_predictions" preds) ;;
error <~ _error_metric test_predictions
         "es_test_predictions" "actuals" ;;
ret (mkcand error (Some model) "exponential_smoothing" test_predictions).

Definition _fit_tbats (use_full_dataset use_simple_model : bool)
: M Candidate :=
self <~ get ;;
let model_data := if use_full_dataset then data self
                else training_data self in
(* the estimator is built before the series is read *)
model <~ lift (BATS F ([seasonal_period self] ++ [Some 2; Some 4])
               use_simple_model) ;;
model_data <~ the model_data ;;
column <~ the (series_column_name self) ;;
y <~ lift (getitem model_data column) ;;
fitted_model <~ lift (BATS_fit F model y) ;;
testing <~ the (testing_data self) ;;
actuals <~ lift (getitem testing column) ;;
preds <~ lift (forecast F fitted_model (len testing)) ;;
test_predictions <~ lift (frame_of_series_array "actuals" actuals
                          "tb_test_predictions" preds) ;;
error <~ _error_metric test_predictions
         "tb_test_predictions" "actuals" ;;
ret (mkcand error (Some fitted_model) "tbats" test_predictions).

(** The step of the [reduce] in [_fit_ensemble]. *)
Definition merge_predictions (left right : DataFrame) : result DataFrame :=
r <- drop_column right "actuals" ;;
Return (merge left r).

Definition _fit_ensemble : M Candidate :=
self <~ get ;;
let model_predictions := map c_predictions (candidate_models self) in
all_predictions <~ lift (reduce merge_predictions model_predictions) ;;
let predictions_columns :=
filter (fun col => endswith col "predictions")
       (columns all_predictions) in
selected <~ lift (getitem_list all_predictions predictions_columns) ;;
let all_predictions :=
set_column all_predictions "en_test_predictions"
           (map (fun r => mean (snd r)) (rows selected)) in
(* [reduce] over a single table returns that table itself: the new
 column is then written into the candidate's own frame. *)
match candidate_models self with
| [c] => modify (set_candidate_models
                 [mkcand (c_error c) (c_model c) (c_name c)
                         all_predictions])
| _ => ret tt
end ;;~
error <~ _error_metric all_predictions
         "en_test_predictions" "actuals" ;;
out <~ lift (getitem_list all_predictions
             ["actuals"; "en_test_predictions"]) ;;
ret (mkcand error None "ensemble" out).

(** *** [sorted(candidates, key=lambda x: x[0])]

CPython's list sort, as it runs on a list of fewer than 64 entries: the
run that starts the list is found ([count_run]; a strictly descending
run is reversed), then the remaining entries are inserted one by one at
the place a binary search gives ([binarysort]).  The keys are compared
with [<] only.  From 64 entries on CPython cuts the list into several
such runs and merges them; the result is the same whenever [<] orders
the keys totally, that is when no key is NaN. *)

(** [a < b] on two keys: [None] is not ordered, a comparison with NaN
is false. *)
Definition score_lt (a b : score) : result bool :=
match a, b with
| Score x, Score y => Return (flt x y)
| _, _ => Raise TypeError
end.

Definition key_lt (a b : Candidate) : result bool :=
score_lt (c_error a) (c_error b).

(** The entries after [prev] that continue a run: each is not below the
one before it ... *)
Fixpoint ascending_run (prev : Candidate) (l : list Candidate)
: result nat :=
match l with
| [] => Return O
| x :: r =>
  b <- key_lt x prev ;;
  if b then Return O
  else (n <- ascending_run x r ;; Return (S n))
end.

(** ... or each is below the one before it. *)
Fixpoint descending_run (prev : Candidate) (l : list Candidate)
: result nat :=
match l with
| [] => Return O
| x :: r =>
  b <- key_lt x prev ;;
  if b then (n <- descending_run x r ;; Return (S n))
  else Return O
end.

(** The length of the run at the head of the list, and whether it
descends. *)
Definition count_run (l : list Candidate) : result (nat * bool) :=
match l with
| [] => Return (O, false)
| [x] => Return (1%nat, false)
| x :: y :: r =>
  b <- key_lt y x ;;
  if b then (n <- descending_run y r ;; Return (S (S n), true))
  else (n <- ascending_run y r ;; Return (S (S n), false))
end.

(** The place of [pivot] among [a[l], ..., a[r-1]]: the interval is halved
until it is empty. *)
Fixpoint bisect (fuel : nat) (pivot : Candidate) (a : list Candidate)
       (l r : nat) : result nat :=
match fuel with
| O => Return l
| S fuel' =>
  if (l <? r)%nat then
    let p := (l + Nat.div2 (r - l))%nat in
    b <- key_lt pivot (nth p a pivot) ;;
    if b then bisect fuel' pivot a l p
    else bisect fuel' pivot a (S p) r
  else Return l
end.

(** Every entry of [rest] in turn is put into the sorted [run]. *)
Fixpoint binarysort (run rest : list Candidate) : result (list Candidate) :=
match rest with
| [] => Return run
| pivot :: rest' =>
  k <- bisect (length run) pivot run O (length run) ;;
  binarysort (firstn k run ++ pivot :: skipn k run) rest'
end.

Definition sorted (l : list Candidate) : result (list Candidate) :=
if (length l <? 2)%nat then Return l
else
  nd <- count_run l ;;
  let '(n, descending) := nd in
  let run := firstn n l in
  binarysort (if descending then rev run else run) (skipn n l).

(** *** [fit] *)

Definition append_candidate (c : Candidate) : M unit :=
modify (fun s => set_candidate_models (candidate_models s ++ [c]) s).

(** [if name in self.model_names: self.candidate_models.append(...)];
the [print] under [verbose] leaves the object as it is. *)
Definition fit_if_requested (name : string) (fit_one : M Candidate)
: M unit :=
self <~ get ;;
if str_in name (model_names self) then
c <~ fit_one ;; append_candidate c
else ret tt.

Definition first_candidate : M Candidate :=
self <~ get ;;
match candidate_models self with
| [] => lift (Raise IndexError)
| c :: _ => ret c
end.

Definition fit (data : DataFrame) (series_column_name : string)
       (exogenous : exog_arg) : M unit :=
lift (Validation.check_datetime_index data) ;;~
_set_input_data data series_column_name ;;~
let exogenous :=
match exogenous with
| ExogStr _ => ExogList []
| e => e
end in
match exogenous with
| ExogList l => modify (set_exogenous l)
| _ => ret tt
end ;;~
fit_if_requested "auto_arima" (_fit_auto_arima true) ;;~
fit_if_requested "exponential_smoothing"
               (_fit_exponential_smoothing true) ;;~
fit_if_requested "tbats" (_fit_tbats true true) ;;~
(* [self.candidate_models] is a list, never [None]: the guard before
 [_fit_ensemble] does not fire. *)
fit_if_requested "ensemble" _fit_ensemble ;;~
self <~ get ;;
l <~ lift (sorted (candidate_models self)) ;;
modify (set_candidate_models l) ;;~
c <~ first_candidate ;;
modify (set_best_model_error (c_error c)) ;;~
c <~ first_candidate ;;
modify (set_fit_model (c_model c)) ;;~
c <~ first_candidate ;;
modify (set_fit_model_type (c_name c)) ;;~
modify (set_is_fitted true).

(** *** [predict] *)

(** Calling a method on an attribute; on [None] this is an
[AttributeError]. *)
Definition the_object {A} (o : option A) : M A :=
match o with
| Some a => ret a
| None => lift (Raise AttributeError)
end.

Definition _predict_auto_arima (start_date end_date last_data_date : datetime)
       (exogenous : option DataFrame) : M Series :=
self <~ get ;;
d <~ the_object (data self) ;;
last <~ lift (index_last d) ;;
preds <~
(if dt_ltb start_date last && dt_leb end_date last then
   (* start date and end date are both in-sample *)
   m <~ the_object (fit_model self) ;;
   a <~ lift (get_loc F (index d) start_date) ;;
   b <~ lift (get_loc F (index d) end_date) ;;
   lift (predict_in_sample F m (Some a) (Some b) exogenous)
 else if dt_ltb start_date last && dt_ltb last end_date then
   (* start date is in-sample but end date is not *)
   let num_extra_months := months_between end_date last_data_date in
   m <~ the_object (fit_model self) ;;
   a <~ lift (get_loc F (index d) start_date) ;;
   in_sample_preds <~ lift (predict_in_sample F m (Some a) None None) ;;
   out_of_sample_preds <~ lift (arima_predict F m num_extra_months None) ;;
   ret (in_sample_preds ++ out_of_sample_preds)
 else
   let months_to_predict := months_between end_date start_date + 1 in
   m <~ the_object (fit_model self) ;;
   lift (arima_predict F m months_to_predict exogenous)) ;;
lift (series_of preds (date_range F start_date end_date)).

Definition _predict_exponential_smoothing (start_date end_date : datetime)
: M Series :=
self <~ get ;;
m <~ the_object (fit_model self) ;;
lift (es_predict_dates F m start_date end_date).

(** [in_sample_preds.index[-1]] *)
Definition series_last (s : Series) : result datetime :=
match rev (s_index s) with
| [] => Raise IndexError
| d :: _ => Return d
end.

Definition _predict_tbats (start_date end_date last_data_date : datetime)
: M Series :=
self <~ get ;;
m <~ the_object (fit_model self) ;;
d <~ the_object (data self) ;;
first <~ lift (index_first d) ;;
last <~ lift (index_last d) ;;
in_sample_preds <~ lift (series_of (y_hat F m) (date_range F first last)) ;;
in_sample_last <~ lift (series_last in_sample_preds) ;;
if dt_ltb start_date in_sample_last && dt_leb end_date in_sample_last then
(* start date and end date are both in-sample; a Series given to
   [pd.Series] with an index is aligned on that index *)
let idx := date_range F start_date end_date in
preds <~ lift (reindex (loc_between in_sample_preds start_date end_date)
                       idx) ;;
ret (combine idx preds)
else if dt_ltb start_date last && dt_ltb last end_date then
(* start date is in-sample but end date is not *)
let num_extra_months := months_between end_date last_data_date in
let in_sample_portion := loc_from in_sample_preds start_date in
out_of_sample_portion <~ lift (forecast F m num_extra_months) ;;
lift (series_of (s_values in_sample_portion ++ out_of_sample_portion)
        (date_range F start_date end_date))
else
let months_to_predict := months_between end_date start_date + 1 in
preds <~ lift (forecast F m months_to_predict) ;;
lift (series_of preds (date_range F start_date end_date)).

(** [for model in self.candidate_models: if model[2] == name:
self.fit_model = model[1]] *)
Definition select_model (name : string) : M unit :=
modify (fun s =>
        fold_left (fun s c => if String.eqb (c_name c) name
                              then set_fit_model (c_model c) s else s)
                  (candidate_models s) s).

(** [preds.rename(name)], kept as a table of one column for the merge. *)
Definition named (name : string) (preds : Series) : DataFrame :=
mkdf true [name] (map (fun r => (fst r, [snd r])) preds).

Definition _predict_ensemble (start_date end_date last_data_date : datetime)
       (exogenous : option DataFrame) : M Series :=
self <~ get ;;
p1 <~ (if str_in "auto_arima" (model_names self) then
       select_model "auto_arima" ;;~
       preds <~ _predict_auto_arima start_date end_date
                  last_data_date exogenous ;;
       ret [named "auto_arima_predictions" preds]
     else ret []) ;;
p2 <~ (if str_in "exponential_smoothing" (model_names self) then
       select_model "exponential_smoothing" ;;~
       preds <~ _predict_exponential_smoothing start_date end_date ;;
       ret [named "exponential_smoothing_predictions" preds]
     else ret []) ;;
p3 <~ (if str_in "tbats" (model_names self) then
       select_model "tbats" ;;~
       preds <~ _predict_tbats start_date end_date last_data_date ;;
       ret [named "tbats_predictions" preds]
     else ret []) ;;
let ensemble_model_predictions := p1 ++ p2 ++ p3 in
all_predictions <~
lift (reduce (fun l r => Return (merge l r))
             ensemble_model_predictions) ;;
(* a single Series has no ['columns'] axis *)
match ensemble_model_predictions with
| [_] => lift (Raise ValueError)
| _ => ret tt
end ;;~
let all_predictions :=
set_column all_predictions "en_test_predictions"
           (map (fun r => mean (snd r)) (rows all_predictions)) in
modify (set_fit_model None) ;;~
modify (set_fit_model_type "ensemble") ;;~
en <~ lift (getitem all_predictions "en_test_predictions") ;;
lift (series_of (s_values en) (date_range F start_date end_date)).

(** The checks at the head of [predict]; they return [last_data_date]. *)
Definition predict_checks (start_date end_date : date_arg)
       (exogenous : option DataFrame) : M (datetime * datetime * datetime) :=
self <~ get ;;
if negb (is_fitted self) then lift (Raise AttributeError) else
match start_date, end_date with
| IsDatetime start_date, IsDatetime end_date =>
  if dt_gtb start_date end_date then lift (Raise ValueError) else
  d <~ the_object (data self) ;;
  last_data_date <~ lift (index_last d) ;;
  if dt_gtb start_date (add_one_month last_data_date)
  then lift (Raise ValueError) else
  first <~ lift (index_first d) ;;
  if dt_ltb start_date first then lift (Raise ValueError) else
  if using_exogenous self && dt_ltb last_data_date end_date
     && match exogenous with None => true | Some _ => false end
  then lift (Raise ValueError)
  else ret (start_date, end_date, last_data_date)
| _, _ => lift (Raise TypeError)
end.

(** [predict]; the result is [None] when [fit_model_type] is none of
the four names. *)
Definition predict (start_date end_date : date_arg)
       (exogenous : option DataFrame) : M (option Series) :=
checked <~ predict_checks start_date end_date exogenous ;;
let '(start_date, end_date, last_data_date) := checked in
self <~ get ;;
let is_type name :=
match fit_model_type self with
| Some t => String.eqb t name
| None => false
end in
if is_type "auto_arima" then
r <~ _predict_auto_arima start_date end_date last_data_date exogenous ;;
ret (Some r)
else if is_type "exponential_smoothing" then
r <~ _predict_exponential_smoothing start_date end_date ;;
ret (Some r)
else if is_type "tbats" then
r <~ _predict_tbats start_date end_date last_data_date ;;
ret (Some r)
else if is_type "ensemble" then
r <~ _predict_ensemble start_date end_date last_data_date exogenous ;;
ret (Some r)
else ret None.

End Class.

End AutoTS.
Import AutoTS.

(* ================================================================== *)
(** ** The states a run of [fit] goes through *)

Module Trace.

Section Trace.

Variable Model : Type.
Variable F : Forecasters Model.

(** The object after [_set_input_data] and the handling of [exogenous]. *)
Definition prepared (df : DataFrame) (column : string) (exog : exog_arg)
       (s : AutoTS Model) : AutoTS Model :=
let s1 := set_input df (iloc_to df (- holdout_period s))
                (iloc_from df (- holdout_period s)) column s in
match exog with
| ExogNone => s1
| ExogStr _ => set_exogenous [] s1
| ExogList l => set_exogenous l s1
end.

(** The candidates [pre] that the four guarded fits leave on [s]. *)
Definition built (s : AutoTS Model) (pre : list (Candidate Model)) : Prop :=
exists s1 s2 s3 s4,
fit_if_requested "auto_arima" (_fit_auto_arima F true) s = (Return tt, s1)
/\ fit_if_requested "exponential_smoothing"
   (_fit_exponential_smoothing F true) s1 = (Return tt, s2)
/\ fit_if_requested "tbats" (_fit_tbats F true true) s2 = (Return tt, s3)
/\ fit_if_requested "ensemble" (_fit_ensemble (Model:=Model)) s3
 = (Return tt, s4)
/\ s4 = set_candidate_models pre s.

(** The object once the sorted candidates [w :: rest] are stored and the
winner [w] is selected. *)
Definition selected (w : Candidate Model) (rest : list (Candidate Model))
       (s : AutoTS Model) : AutoTS Model :=
set_is_fitted true
(set_fit_model_type (c_name w)
 (set_fit_model (c_model w)
    (set_best_model_error (c_error w)
       (set_candidate_models (w :: rest) s)))).

(** The names [fit] goes through, in its order. *)
Definition evaluation_order : list string :=
["auto_arima"; "exponential_smoothing"; "tbats"; "ensemble"].

(** The names a run of [fit] on [s] fits a candidate for. *)
Definition requested (s : AutoTS Model) : list string :=
filter (fun n => str_in n (model_names s)) evaluation_order.

(** The candidates [l] are the candidates [l'] up to their tables. *)
Definition kept (l l' : list (Candidate Model)) : Prop :=
map (@c_name Model) l = map (@c_name Model) l'
/\ map (@c_error Model) l = map (@c_error Model) l'
/\ map (@c_model Model) l = map (@c_model Model) l'.

(** The prediction column of each model's table. *)
Definition predictions_column (name : string) : string :=
if String.eqb name "auto_arima" then "aa_test_predictions"
else if String.eqb name "exponential_smoothing" then "es_test_predictions"
else "tb_test_predictions".

(** The table of a candidate that one of the three model fits built: the
actual and the predicted value of each row. *)
Definition holdout_table (c : Candidate Model) : Prop :=
columns (c_predictions c) = ["actuals"; predictions_column (c_name c)]
/\ rows_of_width 2 (rows (c_predictions c)).

(** The three models, in the order [fit] goes through them. *)
Definition model_order : list string :=
["auto_arima"; "exponential_smoothing"; "tbats"].

(** What [fit] runs once the input is set: the four guarded fits, the
    ranking and the selection. *)
Definition fit_body : M Model unit :=
bindM (fit_if_requested "auto_arima" (_fit_auto_arima F true)) (fun _ =>
bindM (fit_if_requested "exponential_smoothing"
         (_fit_exponential_smoothing F true)) (fun _ =>
bindM (fit_if_requested "tbats" (_fit_tbats F true true)) (fun _ =>
bindM (fit_if_requested "ensemble" (_fit_ensemble (Model:=Model))) (fun _ =>
bindM (get (Model:=Model)) (fun self =>
bindM (lift (sorted (candidate_models self))) (fun l =>
bindM (modify (set_candidate_models l)) (fun _ =>
bindM (first_candidate (Model:=Model)) (fun c =>
bindM (modify (set_best_model_error (c_error c))) (fun _ =>
bindM (first_candidate (Model:=Model)) (fun c =>
bindM (modify (set_fit_model (c_model c))) (fun _ =>
bindM (first_candidate (Model:=Model)) (fun c =>
bindM (modify (set_fit_model_type (c_name c))) (fun _ =>
modify (set_is_fitted true)))))))))))))).

(** The attributes that hold the selected model. *)
Definition selection (s : AutoTS Model)
  : bool * option Model * option string * option score :=
(is_fitted s, fit_model s, fit_model_type s, best_model_error s).

(** A method that leaves the selection as it is, whatever its outcome. *)
Definition keeps_selection {A} (c : M Model A) : Prop :=
forall s, selection (snd (c s)) = selection s.

(** A method that leaves the selection as it is when it raises. *)
Definition keeps_selection_on_raise {A} (c : M Model A) : Prop :=
forall s e, fst (c s) = Raise e -> selection (snd (c s)) = selection s.

(** The attributes that hold the input of [fit]. *)
Definition input (s : AutoTS Model)
  : option DataFrame * option DataFrame * option DataFrame * option string :=
(data s, training_data s, testing_data s, series_column_name s).

(** A method that leaves the input as it is, whatever its outcome. *)
Definition keeps_input {A} (c : M Model A) : Prop :=
forall s, input (snd (c s)) = input s.

(** The object [s] with another selected model and model type. *)
Definition with_selected (m : option Model) (t : option string)
       (s : AutoTS Model) : AutoTS Model :=
{|
 model_names := model_names s;
 error_metric := error_metric s;
 is_seasonal := is_seasonal s;
 seasonal_period := seasonal_period s;
 holdout_period := holdout_period s;
 verbose := verbose s;
 data := data s;
 training_data := training_data s;
 testing_data := testing_data s;
 series_column_name := series_column_name s;
 exogenous := exogenous s;
 using_exogenous := using_exogenous s;
 candidate_models := candidate_models s;
 fit_model := m;
 fit_model_type := t;
 best_model_error := best_model_error s;
 is_fitted := is_fitted s
|}.

(** A method that changes nothing but the selected model and its type. *)
Definition touches_selected_only {A} (c : M Model A) : Prop :=
forall s, exists m t, snd (c s) = with_selected m t s.

End Trace.

End Trace.
Import Trace.

(* ================================================================== *)
(** ** Stand-ins for the forecasting libraries

    A plain forecaster with the shapes of the real ones, to run the
    program on concrete data: the fitted model is the series it was given,
    in-sample predictions are the observed values, forecasts repeat the
    last observed value. *)

Module Naive.

Definition Model : Type := Series.

Definition last_value (m : Model) : fval :=
match rev m with
| [] => NaN
| r :: _ => snd r
end.

Definition opt_default (o : option Z) (d : Z) : Z :=
match o with
| Some z => z
| None => d
end.

(** Positions [start .. end] of the series, both included. *)
Definition positions {A} (l : list A) (start stop : Z) : list A :=
firstn (Z.to_nat (stop + 1 - start)) (skipn (Z.to_nat start) l).

Fixpoint months_from (d : datetime) (n : nat) : list datetime :=
match n with
| O => []
| S k => d :: months_from (add_one_month d) k
end.

(** [pd.date_range(a, b, freq='MS')]: the month starts from [a] (rolled
  forward to the first of the next month when it is not one) up to [b]. *)
Definition date_range_MS (a b : datetime) : list datetime :=
let a' := if day a =? 1 then a
        else add_one_month (mkdt (year a) (month a) 1 (tod a)) in
filter (fun d => dt_leb d b)
     (months_from a' (Z.to_nat (months_between b a' + 1))).

(** Predictions for the positions [start .. stop]: observed values inside
  the sample, the last value on the following month starts beyond it. *)
Definition predict_positions (m : Model) (start stop : Z) : result Series :=
if stop <? start then Raise ValueError
else
let n := Z.of_nat (length m) in
let future :=
  match rev m with
  | [] => []
  | r :: _ =>
      map (fun d => (d, snd r))
          (tl (months_from (fst r) (Z.to_nat (stop + 2 - n))))
  end in
Return (positions (m ++ future) start stop).

Fixpoint position (d : datetime) (l : list datetime) : result Z :=
match l with
| [] => Raise KeyError
| x :: r => if dt_eqb x d then Return 0
          else (i <- position d r ;; Return (i + 1))
end.

Definition forecasters : Forecasters Model := {|
auto_arima := fun y _ _ _ _ => Return y;
predict_in_sample := fun m start stop _ =>
  Return (positions (s_values m) (opt_default start 0)
            (opt_default stop (Z.of_nat (length m) - 1)));
arima_predict := fun m n _ => Return (repeat (last_value m) (Z.to_nat n));
ExponentialSmoothing := fun y _ _ => Return y;
es_predict := predict_positions;
es_predict_dates := fun m a b => Return (loc_between m a b);
BATS := fun _ _ => Return [];
BATS_fit := fun _ y => Return y;
forecast := fun m n => Return (repeat (last_value m) (Z.to_nat n));
y_hat := fun m => s_values m;
get_loc := fun idx d => position d idx;
date_range := date_range_MS
|}.

(** A monthly series [v0, v1, ...] that starts in January 2020, as a frame
  with the single column [y]. *)
Definition monthly (values : list Z) : DataFrame :=
mkdf true ["y"]
   (map (fun p => (fst p, [Fin (of_Z (snd p))]))
        (combine (months_from (month_start 2020 1) (length values)) values)).

(** Six monthly observations, and the same rows out of chronological
  order. *)
Definition six_months : DataFrame := monthly [1; 3; 2; 5; 4; 7].

(** The same observations under an index that is not a
  [DatetimeIndex]. *)
Definition no_datetime_index : DataFrame :=
mkdf false (columns six_months) (rows six_months).

Definition six_months_unordered : DataFrame :=
mkdf true ["y"]
   (match rows six_months with
    | a :: b :: r => b :: a :: r
    | r => r
    end).

(** A fresh object: [AutoTS(model_names, error_metric, holdout_period=h)]. *)
Definition fresh (names : list string) (metric : string) (h : Z)
: AutoTS Model :=
{| model_names := map lower names;
 error_metric := lower metric;
 is_seasonal := false;
 seasonal_period := None;
 holdout_period := h;
 verbose := false;
 data := None;
 training_data := None;
 testing_data := None;
 series_column_name := None;
 exogenous := None;
 using_exogenous := false;
 candidate_models := [];
 fit_model := None;
 fit_model_type := None;
 best_model_error := None;
 is_fitted := false |}.

(** A table of four rows with the columns [actuals] and [preds]. *)
Definition four_rows : DataFrame :=
mkdf true ["actuals"; "preds"]
   (map (fun p => (fst p, [Fin (of_Z (fst (snd p)));
                           Fin (of_Z (snd (snd p)))]))
        (combine (months_from (month_start 2020 1) 4)
                 [(1, 2); (3, 2); (2, 2); (5, 2)])).

(** The object after [AutoTS(('auto_arima', 'exponential_smoothing',
  'tbats', 'ensemble')).fit(six_months, 'y')]. *)
Definition all_models : list string :=
["auto_arima"; "exponential_smoothing"; "tbats"; "ensemble"].

Definition fitted_six : AutoTS Model :=
snd (fit forecasters six_months "y" ExogNone (fresh all_models "mase" 4)).

(** The column [y] of [six_months]: the model every fit of it returns. *)
Definition six_series : Model :=
map (fun r => (fst r, cell 0 (snd r))) (rows six_months).

(** A second series, and the object after an exponential-smoothing fit of
  [six_months] followed by one of [other_six]. *)
Definition other_six : DataFrame := monthly [2; 4; 6; 8; 10; 12].

Definition fitted_once : AutoTS Model :=
snd (fit forecasters six_months "y" ExogNone
       (fresh ["exponential_smoothing"] "mase" 4)).

Definition fitted_twice : AutoTS Model :=
snd (fit forecasters other_six "y" ExogNone fitted_once).


(** The object of [fit(six_months, 'y')] once its input is set. *)
Definition prepared_six : AutoTS Model :=
prepared six_months "y" ExogNone (fresh all_models "mase" 4).

(** The object after [AutoTS(('tbats',), error_metric='mse').fit(...)]. *)
Definition fitted_mse : AutoTS Model :=
snd (fit forecasters six_months "y" ExogNone (fresh ["tbats"] "mse" 4)).

(** A series [y] with an exogenous column [x], and the object after an
  exponential-smoothing fit of it with [exogenous=['x']]. *)
Definition with_x : DataFrame :=
mkdf true ["y"; "x"]
   (map (fun p => (fst p, [Fin (of_Z (snd p)); Fin (of_Z 1)]))
        (combine (months_from (month_start 2020 1) 6) [1; 3; 2; 5; 4; 7])).

Definition fitted_with_x : AutoTS Model :=
snd (fit forecasters with_x "y" (ExogList ["x"])
       (fresh ["exponential_smoothing"] "mase" 4)).




(** The object after [AutoTS(('auto_arima', 'tbats'),
  holdout_period=1).fit(six_months, 'y')]. *)
Definition fitted_holdout_one : AutoTS Model :=
snd (fit forecasters six_months "y" ExogNone
       (fresh ["auto_arima"; "tbats"] "mase" 1)).

(** The object after [AutoTS(('auto_arima', 'exponential_smoothing',
  'ensemble')).fit(six_months, 'y')]. *)
Definition fitted_two_and_ensemble : AutoTS Model :=
snd (fit forecasters six_months "y" ExogNone
       (fresh ["auto_arima"; "exponential_smoothing"; "ensemble"] "mase" 4)).

(** A table whose actual values do not vary. *)
Definition constant_actuals : DataFrame :=
mkdf true ["actuals"; "preds"]
   (map (fun p => (fst p, [Fin (of_Z 2); Fin (of_Z (snd p))]))
        (combine (months_from (month_start 2020 1) 3) [1; 2; 3])).

(** A candidate that is nothing but a name and an error. *)
Definition keyed (name : string) (v : fval) : Candidate Model :=
mkcand (Score v) None name (mkdf true [] []).

End Naive.

(* ================================================================== *)
(** ** The vocabulary of the specification *)

Module Spec.

(** The other models of a configuration: its entries that are not
  [ensemble]. *)
Definition others (l : list string) : list string :=
filter (fun m => negb (String.eqb m "ensemble")) l.

(** The configuration errors, as section 7 lists them. *)
Definition unsupported_name (l : list string) : Prop :=
exists m, In m l /\ ~ In m Validation.valid_models.
Definition lonely_ensemble (l : list string) : Prop :=
In "ensemble" l /\ (length (others l) < 2)%nat.
Definition unsupported_metric (metric : string) : Prop :=
lower metric <> "mase".

Definition configuration_error (l : list string) (metric : string) : Prop :=
unsupported_name l \/ l = [] \/ lonely_ensemble l
\/ unsupported_metric metric.


(** A strictly increasing sequence of timestamps. *)
Definition strictly_increasing (l : list datetime) : Prop :=
StronglySorted (fun a b => dt_ltb a b = true) l.

(** The index section 6 asks of [fit]: datetimes, strictly increasing. *)
Definition chronological_datetime_index (df : DataFrame) : Prop :=
is_datetime_index df = true /\ strictly_increasing (index df).


(** *** Dates *)

Definition before (a b : datetime) : Prop := dt_ltb a b = true.

(** The five refusals of [predict] (sections 6 and 7): not fitted; an
  inverted range; a start before the first observed date; a start more
  than one period past the last observed date; regressors declared at fit
  time, an end beyond the last observed date, and no exogenous values. *)
Definition predict_refused (fitted using_exog : bool)
         (start_date end_date first last : datetime)
         (exog : option DataFrame) : Prop :=
fitted = false
\/ before end_date start_date
\/ before start_date first
\/ before (add_one_month last) start_date
\/ (using_exog = true /\ before last end_date /\ exog = None).

(** *** The range resolver (section 4.6) *)

Inductive range_class : Type :=
| FullyInSample
| Straddling
| FullyOutOfSample.

Definition classify (start_date end_date last : datetime) : range_class :=
if dt_ltb start_date last && dt_leb end_date last then FullyInSample
else if dt_ltb start_date last && dt_ltb last end_date then Straddling
else FullyOutOfSample.


(** [periodsFrom(a, b)], in months. *)
Definition periods_from (a b : datetime) : Z := months_between b a.

(** The number of months from [a] to [b], both endpoints included. *)
Definition months_inclusive (a b : datetime) : Z := periods_from a b + 1.

Section Dispatch.

Variable Model : Type.
Variable F : Forecasters Model.

(** The prediction action of each class, for the ARIMA model ... *)
Definition arima_action (m : Model) (idx : list datetime)
       (start_date end_date last : datetime) (exog : option DataFrame)
: result (list fval) :=
match classify start_date end_date last with
| FullyInSample =>
a <- get_loc F idx start_date ;;
b <- get_loc F idx end_date ;;
predict_in_sample F m (Some a) (Some b) exog
| Straddling =>
a <- get_loc F idx start_date ;;
in_sample <- predict_in_sample F m (Some a) None None ;;
out_of_sample <- arima_predict F m (periods_from last end_date) None ;;
Return (in_sample ++ out_of_sample)
| FullyOutOfSample =>
arima_predict F m (months_inclusive start_date end_date) exog
end.



End Dispatch.


(** *** Ranking (sections 4.5 and 8) *)

(** The order of the scores: [-inf] below every number, every number
  below [+inf]; NaN and a missing score are not ordered. *)
Definition num_le (x y : fval) : Prop :=
match x, y with
| NaN, _ | _, NaN => False
| NegInf, _ => True
| _, PosInf => True
| Fin a, Fin b => (a <= b)%Qc
| _, _ => False
end.

Definition num_lt (x y : fval) : Prop :=
match x, y with
| NaN, _ | _, NaN => False
| _, NegInf => False
| NegInf, _ => True
| PosInf, _ => False
| Fin _, PosInf => True
| Fin a, Fin b => (a < b)%Qc
end.

Definition at_most (a b : score) : Prop :=
exists x y, a = Score x /\ b = Score y /\ num_le x y.

Definition below (a b : score) : Prop :=
exists x y, a = Score x /\ b = Score y /\ num_lt x y.

(** No candidate's error is NaN. *)
Definition no_NaN_score (Model : Type) (l : list (Candidate Model)) : Prop :=
Forall (fun c => c_error c <> Score NaN) l.


(** The ranking of sections 4.5 and 8 on the object [s'] that a [fit] of
  [s] has left.  [pre] lists the candidates in the order they were
  evaluated: those found on [s], then one per requested name in the
  order of [fit].  The winner [w] heads the stored list and fills the
  three attributes; every other candidate scores at least as much; the
  candidates evaluated before [w] score strictly more, so that among
  equal scores the earliest evaluated wins. *)
Definition ranked (Model : Type) (F : Forecasters Model)
         (s s' : AutoTS Model) : Prop :=
exists w rest pre l1 l2,
candidate_models s' = w :: rest
/\ fit_model_type s' = Some (c_name w)
/\ fit_model s' = c_model w
/\ best_model_error s' = Some (c_error w)
/\ is_fitted s' = true
/\ (forall c, In c rest -> at_most (c_error w) (c_error c))
/\ Permutation pre (w :: rest)
/\ map (@c_name Model) pre
   = map (@c_name Model) (candidate_models s) ++ requested s
/\ pre = l1 ++ w :: l2
/\ (forall c, In c l1 -> below (c_error w) (c_error c))
/\ (forall c, In c l2 -> at_most (c_error w) (c_error c)).


(** *** The holdout (sections 3 and 4.3) *)

(** The last [h] timestamps of the series. *)
Definition holdout_index (d : DataFrame) (h : Z) : list datetime :=
skipn (length (rows d) - Z.to_nat h) (index d).

(** A table that holds exactly the holdout timestamps, with a predicted
  value for each of them. *)
Definition scored_on_holdout (table : DataFrame) (predictions : string)
         (d : DataFrame) (h : Z) : Prop :=
index table = holdout_index d h
/\ exists s, getitem table predictions = Return s
           /\ Forall (fun v => v <> NaN) (s_values s).


(** *** The ensemble (sections 4.4 and 8) *)

(** A table of two columns: the actual values and the predictions [n]. *)
Definition table_shape (n : string) (T : DataFrame) : Prop :=
columns T = ["actuals"; n] /\ rows_of_width 2 (rows T).

(** [p] is a predicted value of the table [T] at the timestamp [t]. *)
Definition row_from (t : datetime) (T : DataFrame) (p : fval) : Prop :=
exists a rest, In (t, a :: p :: rest) (rows T).

(** [p] is a predicted value of the candidate [c] at the timestamp [t]. *)
Definition predicted_at (Model : Type) (t : datetime) (c : Candidate Model)
         (p : fval) : Prop :=
row_from t (c_predictions c) p.

(** Every row of [A] holds an actual value followed by one predicted value
  of each table of [Ts], all at the timestamp of the row. *)
Definition merged_rows (Ts : list DataFrame) (A : DataFrame) : Prop :=
forall t cells, In (t, cells) (rows A) ->
exists a ps, cells = a :: ps /\ Forall2 (row_from t) Ts ps.

(** The names a prediction column of the three models may take. *)
Definition model_column (n : string) : Prop :=
endswith n "predictions" = true /\ n <> "en_test_predictions"
/\ n <> "actuals".

(** The arithmetic mean of complete values. *)
Definition arithmetic_mean (l : list Qc) : Qc :=
(Qcsum l / of_Z (Z.of_nat (length l)))%Qc.


(** The candidates are in ascending order of error. *)
Definition ascending (Model : Type) (l : list (Candidate Model)) : Prop :=
Sorted (fun a b => at_most (c_error a) (c_error b)) l.

(** [P] is the ranking of [L]: the same candidates, each at most every
  one after it, and at the head the first candidate of [L] that none
  before it undercuts and none after it beats strictly. *)
Definition ranking (Model : Type) (L P : list (Candidate Model)) : Prop :=
Permutation L P
/\ StronglySorted (fun a b => at_most (c_error a) (c_error b)) P
/\ forall w rest,
   P = w :: rest ->
   exists l1 l2,
     L = l1 ++ w :: l2
     /\ (forall c, In c l1 -> below (c_error w) (c_error c))
     /\ (forall c, In c l2 -> at_most (c_error w) (c_error c)).

End Spec.
Import Spec.

(* ================================================================== *)
(** * Properties *)

(** ** General facts *)

Lemma raises_not_succeeds A (c : result A) : raises c <-> ~ succeeds c.
Proof.
  unfold raises, succeeds; destruct c as [a|e]; split.
  - intros [e H]; discriminate.
  - intros H; exfalso; apply H; eauto.
  - intros _ [a H]; discriminate.
  - eauto.
Qed.

Lemma str_in_In x l : str_in x l = true <-> In x l.
Proof.
  unfold str_in. rewrite existsb_exists. split.
  - intros [y [Hy E]]. apply String.eqb_eq in E. now subst.
  - intros H. exists x. split; [assumption | apply String.eqb_refl].
Qed.

Lemma str_in_false x l : str_in x l = false <-> ~ In x l.
Proof.
  rewrite <- str_in_In. destruct (str_in x l); split; congruence.
Qed.

(** ** Construction ([__init__], [check_models]) *)

Section Construction.

Lemma length_others (l : list string) :
NoDup l -> In "ensemble" l -> length l = S (length (others l)).
Proof.
induction 1 as [|x l Hx Hnd IH]; intros Hin; [destruct Hin|].
unfold others in *. simpl.
destruct (String.eqb_spec x "ensemble") as [->|Hne]; simpl.
- f_equal. clear IH Hin Hnd. induction l as [|y l IH]; simpl; auto.
  destruct (String.eqb_spec y "ensemble") as [->|_]; simpl.
  + exfalso. apply Hx. now left.
  + f_equal. apply IH. intros H. apply Hx. now right.
- f_equal. apply IH. destruct Hin as [E|H]; [congruence | assumption].
Qed.

Lemma invalid_models_spec (l : list string) :
(0 <? length (filter (fun model => negb (str_in model Validation.valid_models)) l))%nat
= true <-> unsupported_name l.
Proof.
unfold unsupported_name. rewrite Nat.ltb_lt. split.
- intros H.
  destruct (filter _ l) as [|m r] eqn:E; [simpl in H; lia|].
  assert (Hm : In m (filter (fun model => negb (str_in model Validation.valid_models)) l))
    by (rewrite E; now left).
  apply filter_In in Hm. destruct Hm as [Hm Hv].
  exists m. split; [assumption|].
  apply negb_true_iff in Hv. now apply str_in_false.
- intros [m [Hm Hv]].
  assert (Hf : In m (filter (fun model => negb (str_in model Validation.valid_models)) l)).
  { apply filter_In. split; [assumption|].
    apply negb_true_iff. now apply str_in_false. }
  destruct (filter _ l); [destruct Hf | simpl; lia].
Qed.

Lemma check_models_raises (l : list string) :
NoDup l ->
raises (Validation.check_models (Validation.ModelsTuple l)) <->
(unsupported_name l \/ l = [] \/ lonely_ensemble l).
Proof.
intros Hnd. unfold Validation.check_models.
destruct l as [|x l'] eqn:El.
{ simpl. split; [intros _; right; now left | intros _; now exists ValueError]. }
rewrite <- El in *. replace (length l =? 0)%nat with false
  by (subst l; reflexivity).
destruct (0 <? length (filter _ l))%nat eqn:Einv.
{ apply invalid_models_spec in Einv.
  split; [intros _; now left | intros _; now exists ValueError]. }
assert (Hval : ~ unsupported_name l).
{ intros H. apply invalid_models_spec in H. congruence. }
destruct (str_in "ensemble" l) eqn:Eens.
- apply str_in_In in Eens.
  pose proof (length_others Hnd Eens) as Hlen.
  destruct (length l <=? 2)%nat eqn:Ele; simpl.
  + apply Nat.leb_le in Ele.
    split; [intros _ | intros _; now exists ValueError].
    right; right. split; [assumption | lia].
  + apply Nat.leb_gt in Ele.
    split; [intros [e He]; discriminate|].
    intros [H|[H|[_ H]]]; [contradiction | subst l; discriminate | lia].
- apply str_in_false in Eens. rewrite andb_false_r.
  split; [intros [e He]; discriminate|].
  intros [H|[H|[H _]]]; [contradiction | subst l; discriminate | contradiction].
Qed.

End Construction.

Section ConstructionClaims.

Variable Model : Type.

Lemma init_raises_iff_check (a : Validation.models_arg) metric sp h v :
raises (__init__ Model a metric sp h v) <-> raises (Validation.check_models a).
Proof.
unfold __init__. destruct (Validation.check_models a) as [names|e]; simpl.
- split; intros [e H]; discriminate.
- split; intros _; now exists e.
Qed.

(** C6 (amended).  For a tuple or list of model names without repeated
  entries, construction raises exactly when a name is outside the four
  supported ones, the sequence is empty, or [ensemble] comes with fewer
  than two other models; the error metric plays no part, every string
  is accepted. *)
Theorem construction_raises_iff (l : list string) metric sp h v :
NoDup l ->
(raises (__init__ Model (Validation.ModelsTuple l) metric sp h v) <->
 (unsupported_name l \/ l = [] \/ lonely_ensemble l))
/\ (raises (__init__ Model (Validation.ModelsList l) metric sp h v) <->
    (unsupported_name l \/ l = [] \/ lonely_ensemble l)).
Proof.
intros Hnd. split; rewrite init_raises_iff_check.
- now apply check_models_raises.
- change (Validation.check_models (Validation.ModelsList l))
    with (Validation.check_models (Validation.ModelsTuple l)).
  now apply check_models_raises.
Qed.

End ConstructionClaims.

Lemma NoDup_three_models :
  NoDup ["auto_arima"; "tbats"; "ensemble"].
Proof.
  repeat constructor; simpl; intuition discriminate.
Qed.

Lemma construction_raises_iff_witness :
  NoDup ["auto_arima"; "tbats"; "ensemble"] /\
  ((raises (__init__ unit (Validation.ModelsTuple ["auto_arima"; "tbats"; "ensemble"])
              "mse" None 4 false) <->
    (unsupported_name ["auto_arima"; "tbats"; "ensemble"]
     \/ ["auto_arima"; "tbats"; "ensemble"] = []
     \/ lonely_ensemble ["auto_arima"; "tbats"; "ensemble"]))
   /\ (raises (__init__ unit (Validation.ModelsList ["auto_arima"; "tbats"; "ensemble"])
                 "mse" None 4 false) <->
       (unsupported_name ["auto_arima"; "tbats"; "ensemble"]
        \/ ["auto_arima"; "tbats"; "ensemble"] = []
        \/ lonely_ensemble ["auto_arima"; "tbats"; "ensemble"]))).
Proof.
  split; [exact NoDup_three_models|].
  apply (construction_raises_iff unit "mse" None 4 false NoDup_three_models).
Defined.

(** C6 as stated fails: the metric [mse] is declared but not implemented,
    and a construction that asks for it is accepted. *)
Lemma construction_accepts_unimplemented_metric :
  configuration_error ["tbats"] "mse" /\
  ~ raises (__init__ unit (Validation.ModelsTuple ["tbats"]) "mse" None 4 false).
Proof.
  split.
  - right; right; right. unfold unsupported_metric. vm_compute. discriminate.
  - intros [e H]. vm_compute in H. discriminate.
Qed.

(** ** Fresh objects *)

Lemma fresh_is_init names metric h :
  Validation.check_models (Validation.ModelsTuple names) = Return names ->
  __init__ Naive.Model (Validation.ModelsTuple names) metric None h false
  = Return (Naive.fresh names metric h).
Proof.
  intros H. unfold __init__. rewrite H. reflexivity.
Qed.

(** ** Frames: reading and writing columns *)

Lemma combine_length_eq A B (l : list A) (l' : list B) :
  length l = length l' -> length (combine l l') = length l.
Proof.
  intros H. rewrite length_combine. lia.
Qed.

Lemma map_fst_combine A B (l : list A) (l' : list B) :
  length l = length l' -> map fst (combine l l') = l.
Proof.
  revert l'. induction l as [|x l IH]; intros [|y l'] H; simpl in *;
    try discriminate; auto.
  f_equal. apply IH. lia.
Qed.

Lemma map_snd_combine A B (l : list A) (l' : list B) :
  length l = length l' -> map snd (combine l l') = l'.
Proof.
  revert l'. induction l as [|x l IH]; intros [|y l'] H; simpl in *;
    try discriminate; auto.
  f_equal. apply IH. lia.
Qed.

Lemma find_col_lt name cols i :
  find_col name cols = Some i -> (i < length cols)%nat.
Proof.
  revert i. induction cols as [|c r IH]; intros i H; simpl in *; [discriminate|].
  destruct (String.eqb name c).
  - injection H as <-. lia.
  - destruct (find_col name r) as [j|]; [|discriminate].
    injection H as <-. specialize (IH j eq_refl). lia.
Qed.

Lemma find_col_app_new name cols :
  find_col name cols = None ->
  find_col name (cols ++ [name]) = Some (length cols).
Proof.
  induction cols as [|c r IH]; simpl; intros H.
  - now rewrite String.eqb_refl.
  - destruct (String.eqb name c); [discriminate|].
    destruct (find_col name r); [discriminate|].
    now rewrite IH.
Qed.

Lemma find_col_app_old name other cols :
  name <> other ->
  find_col name (cols ++ [other]) = find_col name cols.
Proof.
  intros Hne. induction cols as [|c r IH]; simpl.
  - apply String.eqb_neq in Hne. now rewrite Hne.
  - destruct (String.eqb name c); [reflexivity|]. now rewrite IH.
Qed.

Lemma find_col_inj a b cols i :
  find_col a cols = Some i -> find_col b cols = Some i -> a = b.
Proof.
  revert i. induction cols as [|c r IH]; intros i Ha Hb; simpl in *;
    [discriminate|].
  destruct (String.eqb_spec a c) as [->|Ha'];
    destruct (String.eqb_spec b c) as [->|Hb']; auto.
  - destruct (find_col b r); [injection Hb as <-|]; discriminate.
  - destruct (find_col a r); [injection Ha as <-|]; discriminate.
  - destruct (find_col a r) as [j|]; [|discriminate].
    destruct (find_col b r) as [k|]; [|discriminate].
    apply (IH j); [reflexivity|]. f_equal. simpl in *. congruence.
Qed.

Lemma cell_replace_same i v (r : list fval) :
  (i < length r)%nat -> cell i (replace_nth i v r) = v.
Proof.
  unfold cell. revert i. induction r as [|x r IH]; intros [|i] H; simpl in *;
    try lia; auto.
  apply IH. lia.
Qed.

Lemma cell_replace_other i j v (r : list fval) :
  i <> j -> cell j (replace_nth i v r) = cell j r.
Proof.
  unfold cell. revert i j. induction r as [|x r IH]; intros [|i] [|j] H;
    simpl; auto; try congruence.
Qed.

Lemma length_replace_nth A i (v : A) r :
  length (replace_nth i v r) = length r.
Proof.
  revert i. induction r as [|x r IH]; intros [|i]; simpl; auto.
Qed.

Lemma cell_app_new (r : list fval) v : cell (length r) (r ++ [v]) = v.
Proof.
  unfold cell. rewrite app_nth2 by lia. now rewrite Nat.sub_diag.
Qed.

Lemma cell_app_old i (r : list fval) v :
  (i < length r)%nat -> cell i (r ++ [v]) = cell i r.
Proof.
  unfold cell. intros H. now rewrite app_nth1.
Qed.

Section RowLemmas.

Variable n : nat.

Lemma rows_replace_same i rs vals :
  rows_of_width n rs -> (i < n)%nat -> length vals = length rs ->
  map (fun p : datetime * list fval * fval =>
         (fst (fst p), cell i (replace_nth i (snd p) (snd (fst p)))))
      (combine rs vals)
  = combine (map fst rs) vals.
Proof.
  intros Hw Hi. revert vals.
  induction Hw as [|r rs Hr Hrs IH]; intros [|v vs] Hl;
    simpl in *; try discriminate; auto.
  rewrite cell_replace_same by lia. f_equal. apply IH. lia.
Qed.

Lemma rows_append_same rs vals :
  rows_of_width n rs -> length vals = length rs ->
  map (fun p : datetime * list fval * fval =>
         (fst (fst p), cell n (snd (fst p) ++ [snd p])))
      (combine rs vals)
  = combine (map fst rs) vals.
Proof.
  intros Hw. revert vals.
  induction Hw as [|r rs Hr Hrs IH]; intros [|v vs] Hl;
    simpl in *; try discriminate; auto.
  rewrite <- Hr at 1. rewrite cell_app_new. f_equal. apply IH. lia.
Qed.

Lemma rows_replace_other i j rs vals :
  i <> j -> length vals = length rs ->
  map (fun p : datetime * list fval * fval =>
         (fst (fst p), cell j (replace_nth i (snd p) (snd (fst p)))))
      (combine rs vals)
  = map (fun r => (fst r, cell j (snd r))) rs.
Proof.
  intros Hij. revert vals.
  induction rs as [|r rs IH]; intros [|v vs] Hl;
    simpl in *; try discriminate; auto.
  rewrite cell_replace_other by assumption. f_equal. apply IH. lia.
Qed.

Lemma rows_append_other j rs vals :
  rows_of_width n rs -> (j < n)%nat -> length vals = length rs ->
  map (fun p : datetime * list fval * fval =>
         (fst (fst p), cell j (snd (fst p) ++ [snd p])))
      (combine rs vals)
  = map (fun r => (fst r, cell j (snd r))) rs.
Proof.
  intros Hw Hj. revert vals.
  induction Hw as [|r rs Hr Hrs IH]; intros [|v vs] Hl;
    simpl in *; try discriminate; auto.
  rewrite cell_app_old by lia. f_equal. apply IH. lia.
Qed.

End RowLemmas.

Section SetColumn.

Variables (df : DataFrame) (name : string) (vals : list fval).
Hypothesis Hwf : well_formed df.
Hypothesis Hlen : length vals = length (rows df).

Lemma index_set_column : index (set_column df name vals) = index df.
Proof.
  unfold set_column, index.
  destruct (find_col name (columns df)); simpl;
    rewrite map_map; simpl;
    rewrite <- (map_map fst fst); rewrite map_fst_combine; auto.
Qed.

Lemma length_rows_set_column :
  length (rows (set_column df name vals)) = length (rows df).
Proof.
  rewrite <- (length_map fst (rows (set_column df name vals))).
  change (map fst (rows (set_column df name vals)))
    with (index (set_column df name vals)).
  rewrite index_set_column. unfold index. now rewrite length_map.
Qed.

Lemma well_formed_set_column : well_formed (set_column df name vals).
Proof.
  unfold well_formed, rows_of_width, set_column in *.
  destruct (find_col name (columns df)) as [i|]; simpl;
    apply Forall_forall; intros r Hr;
    apply in_map_iff in Hr; destruct Hr as [[r0 v] [<- Hin]]; simpl;
    apply in_combine_l in Hin;
    rewrite Forall_forall in Hwf; specialize (Hwf _ Hin); simpl in Hwf.
  - now rewrite length_replace_nth.
  - rewrite !length_app. simpl. lia.
Qed.

Lemma getitem_set_column_same :
  getitem (set_column df name vals) name
  = Return (combine (index df) vals).
Proof.
  unfold getitem, set_column, index.
  destruct (find_col name (columns df)) as [i|] eqn:E; simpl.
  - rewrite E. f_equal. rewrite map_map. simpl.
    apply rows_replace_same with (n := length (columns df)); auto.
    eapply find_col_lt; eauto.
  - rewrite (find_col_app_new _ _ E). f_equal. rewrite map_map. simpl.
    now apply rows_append_same.
Qed.

Lemma getitem_set_column_other other :
  other <> name ->
  getitem (set_column df name vals) other = getitem df other.
Proof.
  intros Hne. unfold getitem, set_column.
  destruct (find_col name (columns df)) as [i|] eqn:E; simpl.
  - destruct (find_col other (columns df)) as [j|] eqn:Ej; [|reflexivity].
    f_equal. rewrite map_map. simpl.
    apply rows_replace_other; auto.
    intros ->. apply Hne. eapply find_col_inj; eauto.
  - rewrite find_col_app_old by assumption.
    destruct (find_col other (columns df)) as [j|] eqn:Ej; [|reflexivity].
    f_equal. rewrite map_map. simpl.
    apply rows_append_other with (n := length (columns df)); auto.
    eapply find_col_lt; eauto.
Qed.

End SetColumn.

(** ** [mase] on a frame is [mase_columns] on its two columns *)

Lemma getitem_shape df name s :
  getitem df name = Return s ->
  length s = length (rows df) /\ s_index s = index df.
Proof.
  unfold getitem. destruct (find_col name (columns df)); [|discriminate].
  intros H. injection H as <-. split.
  - now rewrite length_map.
  - unfold s_index, index. rewrite map_map. reflexivity.
Qed.

Lemma length_s_values (s : Series) : length (s_values s) = length s.
Proof. unfold s_values. apply length_map. Qed.

Lemma s_values_combine idx (v : list fval) :
  length idx = length v -> s_values (combine idx v) = v.
Proof. intros H. unfold s_values. now apply map_snd_combine. Qed.

Lemma length_index df : length (index df) = length (rows df).
Proof. unfold index. apply length_map. Qed.

Lemma length_shift k l : length (ErrorMetrics.shift k l) = length l.
Proof.
  unfold ErrorMetrics.shift. destruct (0 <=? k).
  - rewrite length_app, repeat_length, length_firstn. lia.
  - rewrite length_app, repeat_length, length_skipn. lia.
Qed.

Lemma length_abs_diff a b :
  length a = length b -> length (ErrorMetrics.abs_diff a b) = length a.
Proof.
  intros H. unfold ErrorMetrics.abs_diff.
  rewrite length_map. now apply combine_length_eq.
Qed.

Lemma select_two_columns df p a sp sa :
  getitem df p = Return sp -> getitem df a = Return sa -> p <> a ->
  exists d0,
    getitem_list df [p; a] = Return d0 /\ well_formed d0 /\
    getitem d0 p = Return sp /\ getitem d0 a = Return sa /\
    columns d0 = [p; a].
Proof.
  unfold getitem, getitem_list. simpl.
  destruct (find_col p (columns df)) as [i|]; [|discriminate].
  destruct (find_col a (columns df)) as [j|]; [|discriminate].
  intros Hp Ha Hne. injection Hp as <-. injection Ha as <-.
  eexists. split; [reflexivity|]. simpl.
  rewrite String.eqb_refl.
  apply not_eq_sym in Hne. apply String.eqb_neq in Hne. rewrite Hne.
  rewrite String.eqb_refl. simpl.
  repeat split; try (rewrite map_map; reflexivity).
  unfold well_formed, rows_of_width. simpl.
  apply Forall_forall. intros r Hr. apply in_map_iff in Hr.
  destruct Hr as [r0 [<- _]]. reflexivity.
Qed.

Lemma mase_on_columns df p a k sp sa :
  getitem df p = Return sp -> getitem df a = Return sa -> p <> a ->
  ~ In p ErrorMetrics.working_columns ->
  ~ In a ErrorMetrics.working_columns ->
  ErrorMetrics.mase df p a k
  = Return (ErrorMetrics.mase_columns (s_values sa) (s_values sp) k).
Proof.
  intros Hp Ha Hne Hpw Haw.
  destruct (@select_two_columns df p a sp sa Hp Ha Hne)
    as [d0 [Hsel [Hwf0 [Hp0 [Ha0 Hc0]]]]].
  unfold ErrorMetrics.working_columns in *. simpl in Hpw, Haw.
  assert (Hp1 : p <> "shifted_actuals") by intuition.
  assert (Hp2 : p <> "abs_shifted_error") by intuition.
  assert (Hp3 : p <> "abs_prediction_error") by intuition.
  assert (Hp4 : p <> "abs_scaled_error") by intuition.
  assert (Ha1 : a <> "shifted_actuals") by intuition.
  assert (Ha2 : a <> "abs_shifted_error") by intuition.
  assert (Ha3 : a <> "abs_prediction_error") by intuition.
  assert (Ha4 : a <> "abs_scaled_error") by intuition.
  clear Hpw Haw.
  destruct (@getitem_shape _ _ _ Ha0) as [Hla _].
  destruct (@getitem_shape _ _ _ Hp0) as [Hlp _].
  unfold ErrorMetrics.mase. rewrite Hsel. cbn [bind]. rewrite Ha0. cbn [bind].
  set (v1 := ErrorMetrics.shift k (s_values sa)).
  assert (Hv1 : length v1 = length (rows d0))
    by (unfold v1; rewrite length_shift, length_s_values; auto).
  set (d1 := set_column d0 "shifted_actuals" v1).
  assert (Hwf1 : well_formed d1) by (now apply well_formed_set_column).
  assert (Hr1 : length (rows d1) = length (rows d0))
    by (now apply length_rows_set_column).
  assert (Hi1 : index d1 = index d0) by (now apply index_set_column).
  assert (Ha1' : getitem d1 a = Return sa)
    by (unfold d1; rewrite getitem_set_column_other; auto).
  assert (Hp1' : getitem d1 p = Return sp)
    by (unfold d1; rewrite getitem_set_column_other; auto).
  rewrite Ha1'. cbn [bind].
  unfold d1 at 1. rewrite getitem_set_column_same by assumption. cbn [bind].
  rewrite s_values_combine by (rewrite length_index; lia).
  set (v2 := ErrorMetrics.abs_diff (s_values sa) v1).
  assert (Hv2 : length v2 = length (rows d1)).
  { unfold v2. rewrite length_abs_diff; rewrite length_s_values; lia. }
  set (d2 := set_column d1 "abs_shifted_error" v2).
  assert (Hwf2 : well_formed d2) by (now apply well_formed_set_column).
  assert (Hr2 : length (rows d2) = length (rows d1))
    by (now apply length_rows_set_column).
  assert (Ha2' : getitem d2 a = Return sa)
    by (unfold d2; rewrite getitem_set_column_other; auto).
  assert (Hp2' : getitem d2 p = Return sp)
    by (unfold d2; rewrite getitem_set_column_other; auto).
  assert (He2 : getitem d2 "abs_shifted_error"
                = Return (combine (index d1) v2))
    by (unfold d2; now rewrite getitem_set_column_same).
  rewrite Ha2', Hp2'. cbn [bind].
  set (v3 := ErrorMetrics.abs_diff (s_values sa) (s_values sp)).
  assert (Hv3 : length v3 = length (rows d2)).
  { unfold v3. rewrite length_abs_diff; rewrite !length_s_values; lia. }
  set (d3 := set_column d2 "abs_prediction_error" v3).
  assert (Hwf3 : well_formed d3) by (now apply well_formed_set_column).
  assert (Hr3 : length (rows d3) = length (rows d2))
    by (now apply length_rows_set_column).
  assert (He3 : getitem d3 "abs_shifted_error"
                = Return (combine (index d1) v2)).
  { unfold d3. rewrite getitem_set_column_other; auto. discriminate. }
  rewrite He3. cbn [bind].
  assert (He3' : getitem d3 "abs_prediction_error"
                 = Return (combine (index d2) v3))
    by (unfold d3; now rewrite getitem_set_column_same).
  rewrite He3'. cbn [bind].
  rewrite !s_values_combine by (rewrite length_index; lia).
  match goal with
  | |- context [set_column d3 "abs_scaled_error" ?v] => set (v4 := v)
  end.
  assert (Hv4 : length v4 = length (rows d3))
    by (unfold v4; rewrite length_map; lia).
  rewrite getitem_set_column_same by assumption. cbn [bind].
  rewrite s_values_combine by (rewrite length_index; lia).
  unfold v4, ErrorMetrics.mase_columns, len.
  fold v1. fold v2. fold v3.
  replace (length (rows d3)) with (length (s_values sa))
    by (rewrite length_s_values; lia).
  reflexivity.
Qed.

(** ** [mase_columns] on complete columns is the scaled mean of section 4.1 *)

Lemma dropna_map_Fin l : dropna (map Fin l) = map Fin l.
Proof.
  unfold dropna. induction l as [|x l IH]; simpl; congruence.
Qed.

Lemma dropna_app a b : dropna (a ++ b) = dropna a ++ dropna b.
Proof. unfold dropna. apply filter_app. Qed.

Lemma dropna_repeat_NaN n : dropna (repeat NaN n) = [].
Proof. unfold dropna. induction n; simpl; auto. Qed.

Lemma total_map_Fin l : total (map Fin l) = Fin (Qcsum l).
Proof.
  unfold total. induction l as [|x l IH]; simpl; [reflexivity|].
  now rewrite IH.
Qed.

Lemma sum_map_Fin l : sum (map Fin l) = Fin (Qcsum l).
Proof. unfold sum. now rewrite dropna_map_Fin, total_map_Fin. Qed.

Lemma fdiv_Fin a b :
  b <> 0%Qc -> fdiv (Fin a) (Fin b) = Fin (a / b)%Qc.
Proof.
  intros H. unfold fdiv, Qc_eqb.
  destruct (Qc_eq_dec b 0); [contradiction | reflexivity].
Qed.

Lemma of_Z_eq_0 z : of_Z z = 0%Qc -> z = 0.
Proof.
  unfold of_Z. intros H. apply Q2Qc_eq_iff in H.
  unfold Qeq in H. simpl in H. lia.
Qed.

Lemma Qc_eqb_false a b : a <> b -> Qc_eqb a b = false.
Proof.
  intros H. unfold Qc_eqb. destruct (Qc_eq_dec a b); congruence.
Qed.

Lemma abs_diff_app a1 a2 b1 b2 :
  length a1 = length b1 ->
  ErrorMetrics.abs_diff (a1 ++ a2) (b1 ++ b2)
  = ErrorMetrics.abs_diff a1 b1 ++ ErrorMetrics.abs_diff a2 b2.
Proof.
  unfold ErrorMetrics.abs_diff. revert b1.
  induction a1 as [|x a1 IH]; intros [|y b1] H; simpl in *;
    try discriminate; auto.
  f_equal. apply IH. lia.
Qed.

Lemma abs_diff_NaN a :
  ErrorMetrics.abs_diff a (repeat NaN (length a)) = repeat NaN (length a).
Proof.
  unfold ErrorMetrics.abs_diff.
  induction a as [|x a IH]; simpl; auto.
  rewrite IH. destruct x; reflexivity.
Qed.

Lemma abs_diff_Fin x y :
  ErrorMetrics.abs_diff (map Fin x) (map Fin y)
  = map Fin (map (fun p => Qcabs (fst p - snd p)) (combine x y)).
Proof.
  unfold ErrorMetrics.abs_diff. revert y.
  induction x as [|a x IH]; intros [|b y]; simpl; auto.
  now rewrite IH.
Qed.

Lemma shift_Fin (k : nat) (l : list Qc) :
  (k <= length l)%nat ->
  ErrorMetrics.shift (Z.of_nat k) (map Fin l)
  = repeat NaN k ++ map Fin (firstn (length l - k) l).
Proof.
  intros H. unfold ErrorMetrics.shift.
  replace (0 <=? Z.of_nat k) with true by (symmetry; apply Z.leb_le; lia).
  rewrite Nat2Z.id, length_map, Nat.min_l by assumption.
  now rewrite firstn_map.
Qed.

Lemma nth_map_lt A B (f : A -> B) l i d d' :
  (i < length l)%nat -> nth i (map f l) d' = f (nth i l d).
Proof.
  intros H. rewrite (nth_indep _ d' (f d)) by (now rewrite length_map).
  apply map_nth.
Qed.

Lemma shifted_errors_by_index (k : nat) (l : list Qc) :
  (k <= length l)%nat ->
  map (fun p => Qcabs (fst p - snd p))
      (combine (skipn k l) (firstn (length l - k) l))
  = map (ErrorMetrics.shiftedError l k) (seq k (length l - k)).
Proof.
  intros H.
  assert (Hlen : length (skipn k l) = length (firstn (length l - k) l))
    by (rewrite length_skipn, length_firstn; lia).
  apply (nth_ext _ _ 0%Qc 0%Qc).
  - rewrite !length_map, length_seq, combine_length_eq, length_skipn; auto.
  - intros i Hi.
    rewrite length_map, combine_length_eq, length_skipn in Hi by auto.
    rewrite (nth_map_lt _ _ (0%Qc, 0%Qc))
      by (rewrite combine_length_eq, length_skipn; auto).
    rewrite combine_nth by assumption.
    rewrite (nth_map_lt _ _ O) by (now rewrite length_seq).
    rewrite seq_nth by assumption.
    unfold ErrorMetrics.shiftedError, ErrorMetrics.nthq. simpl.
    rewrite nth_skipn, nth_firstn.
    replace (i <? length l - k)%nat with true
      by (symmetry; apply Nat.ltb_lt; lia).
    replace (k + i - k)%nat with i by lia. reflexivity.
Qed.

Lemma scaled_errors_by_index (a p : list Qc) (k : nat) :
  length p = length a ->
  map (fun e => (e / ErrorMetrics.scaleFactor a k)%Qc)
      (map (fun x => Qcabs (fst x - snd x)) (combine a p))
  = map (ErrorMetrics.scaledError a p k) (seq 0 (length a)).
Proof.
  intros H. rewrite map_map.
  apply (nth_ext _ _ 0%Qc 0%Qc).
  - rewrite !length_map, length_seq, combine_length_eq; auto.
  - intros i Hi. rewrite length_map, combine_length_eq in Hi by auto.
    rewrite (nth_map_lt _ _ (0%Qc, 0%Qc))
      by (rewrite combine_length_eq; auto).
    rewrite combine_nth by auto.
    rewrite (nth_map_lt _ _ O) by (now rewrite length_seq).
    rewrite seq_nth by assumption.
    reflexivity.
Qed.

Lemma mase_columns_complete (actual predicted : list Qc) (k : nat) :
  length predicted = length actual ->
  (k < length actual)%nat ->
  ErrorMetrics.scaleFactor actual k <> 0%Qc ->
  ErrorMetrics.mase_columns (map Fin actual) (map Fin predicted)
                            (Z.of_nat k)
  = Fin (ErrorMetrics.mase_spec actual predicted k).
Proof.
  intros Hlen Hk Hsf.
  unfold ErrorMetrics.mase_columns.
  rewrite shift_Fin by lia.
  assert (Hshift :
            sum (ErrorMetrics.abs_diff (map Fin actual)
                   (repeat NaN k
                    ++ map Fin (firstn (length actual - k) actual)))
            = Fin (Qcsum (map (ErrorMetrics.shiftedError actual k)
                              (seq k (length actual - k))))).
  { rewrite <- (firstn_skipn k (map Fin actual)) at 1.
    rewrite abs_diff_app
      by (rewrite length_firstn, repeat_length, length_map; lia).
    replace (repeat NaN k)
      with (repeat NaN (length (firstn k (map Fin actual))))
      by (rewrite length_firstn, length_map; f_equal; lia).
    rewrite abs_diff_NaN, skipn_map, abs_diff_Fin.
    unfold sum. rewrite dropna_app, dropna_repeat_NaN, dropna_map_Fin.
    simpl app. rewrite total_map_Fin.
    now rewrite shifted_errors_by_index by lia. }
  rewrite Hshift, length_map.
  rewrite fdiv_Fin by (intros H; apply of_Z_eq_0 in H; lia).
  fold (ErrorMetrics.scaleFactor actual k).
  rewrite abs_diff_Fin, map_map.
  rewrite (map_ext _ (fun x => Fin (x / ErrorMetrics.scaleFactor actual k)%Qc))
    by (intros x; now apply fdiv_Fin).
  rewrite <- (map_map (fun x => (x / ErrorMetrics.scaleFactor actual k)%Qc) Fin).
  rewrite scaled_errors_by_index by assumption.
  unfold mean. rewrite dropna_map_Fin.
  remember (map (ErrorMetrics.scaledError actual predicted k)
                (seq 0 (length actual))) as L eqn:EL.
  assert (HL : length L = length actual)
    by (subst L; now rewrite length_map, length_seq).
  destruct L as [|x r]; [simpl in HL; lia|].
  cbn [map]. change (Fin x :: map Fin r) with (map Fin (x :: r)).
  rewrite total_map_Fin, length_map, HL.
  rewrite fdiv_Fin by (intros H; apply of_Z_eq_0 in H; lia).
  unfold ErrorMetrics.mase_spec. now rewrite <- EL.
Qed.

(** C8.  On a table of N rows whose actual and predicted columns have no
    missing value, and for a step size k with 0 <= k < N and a non-zero
    scale factor, [mase] returns the mean over all N rows of
    |actual[i] - predicted[i]| / scaleFactor, where scaleFactor is the sum
    of |actual[i] - actual[i-k]| over i >= k, divided by N - k.  (The two
    column names differ from each other and from the working columns of
    [mase].) *)
Theorem mase_scaled_mean (df : DataFrame) (p a : string) (k : Z)
        (sp sa : Series) (actual predicted : list Qc) :
  getitem df p = Return sp -> getitem df a = Return sa ->
  s_values sp = map Fin predicted -> s_values sa = map Fin actual ->
  p <> a ->
  ~ In p ErrorMetrics.working_columns ->
  ~ In a ErrorMetrics.working_columns ->
  0 <= k < Z.of_nat (length actual) ->
  ErrorMetrics.scaleFactor actual (Z.to_nat k) <> 0%Qc ->
  ErrorMetrics.mase df p a k
  = Return (Fin (ErrorMetrics.mase_spec actual predicted (Z.to_nat k))).
Proof.
  intros Hp Ha Hvp Hva Hne Hpw Haw Hk Hsf.
  rewrite (@mase_on_columns df p a k sp sa Hp Ha Hne Hpw Haw), Hvp, Hva.
  f_equal.
  rewrite <- (Z2Nat.id k) at 1 by lia.
  apply mase_columns_complete; auto; [|lia].
  destruct (@getitem_shape _ _ _ Hp) as [Hlp _].
  destruct (@getitem_shape _ _ _ Ha) as [Hla _].
  rewrite <- (length_map Fin predicted), <- (length_map Fin actual).
  rewrite <- Hvp, <- Hva, !length_s_values. lia.
Qed.

Lemma mase_scaled_mean_witness :
  ErrorMetrics.mase Naive.four_rows "preds" "actuals" 1
  = Return (Fin (ErrorMetrics.mase_spec
                   [of_Z 1; of_Z 3; of_Z 2; of_Z 5]
                   [of_Z 2; of_Z 2; of_Z 2; of_Z 2] 1)).
Proof.
  apply (@mase_scaled_mean Naive.four_rows "preds" "actuals" 1
           (combine (Naive.months_from (month_start 2020 1) 4)
                    [Fin (of_Z 2); Fin (of_Z 2); Fin (of_Z 2); Fin (of_Z 2)])
           (combine (Naive.months_from (month_start 2020 1) 4)
                    [Fin (of_Z 1); Fin (of_Z 3); Fin (of_Z 2); Fin (of_Z 5)])
           [of_Z 1; of_Z 3; of_Z 2; of_Z 5]
           [of_Z 2; of_Z 2; of_Z 2; of_Z 2]).
  - reflexivity.
  - reflexivity.
  - reflexivity.
  - reflexivity.
  - discriminate.
  - simpl. intuition discriminate.
  - simpl. intuition discriminate.
  - simpl. lia.
  - intros H. vm_compute in H. discriminate.
Defined.

(** On actual values that do not vary the scale factor is zero: an error
    of zero scales to NaN, any other to [+inf], and their mean is
    [+inf]. *)
Lemma mase_on_constant_actuals :
  ErrorMetrics.mase Naive.constant_actuals "preds" "actuals" 1
  = Return PosInf.
Proof. vm_compute. reflexivity. Qed.

(** ** Sequencing of methods *)

Lemma bindM_raise Model A B (c : M Model A) (k : A -> M Model B) s e s' :
  c s = (Raise e, s') -> bindM c k s = (Raise e, s').
Proof. intros H. unfold bindM. now rewrite H. Qed.

Lemma bindM_return Model A B (c : M Model A) (k : A -> M Model B) s a s' :
  c s = (Return a, s') -> bindM c k s = k a s'.
Proof. intros H. unfold bindM. now rewrite H. Qed.

(** A successful sequence: its first step succeeded, and the rest ran on
    the state it left. *)
Lemma bindM_inv Model A B (c : M Model A) (k : A -> M Model B) s b s' :
  bindM c k s = (Return b, s') ->
  exists a s1, c s = (Return a, s1) /\ k a s1 = (Return b, s').
Proof.
  unfold bindM. destruct (c s) as [[a|e] s1]; [eauto | discriminate].
Qed.

(** ** The checks of [predict] *)

Section PredictChecks.

Variable Model : Type.
Variable F : Forecasters Model.

Lemma predict_checks_unfitted (self : AutoTS Model) s e exog :
  is_fitted self = false ->
  predict_checks s e exog self = (Raise AttributeError, self).
Proof.
  intros H. unfold predict_checks, bindM, get, lift. simpl. now rewrite H.
Qed.

Lemma predict_raises_with_checks (self : AutoTS Model) s e exog :
  raises (fst (predict_checks s e exog self)) ->
  raises (fst (predict F s e exog self))
  /\ snd (predict F s e exog self) = self.
Proof.
  assert (Hs : snd (predict_checks s e exog self) = self).
  { unfold predict_checks, bindM, get, lift, the_object, ret. simpl.
    destruct (negb (is_fitted self)); [reflexivity|].
    destruct s as [s|], e as [e|]; try reflexivity.
    destruct (dt_gtb s e); [reflexivity|].
    destruct (data self) as [d|]; [|reflexivity]. simpl.
    destruct (index_last d) as [l|]; [|reflexivity].
    destruct (dt_gtb s (add_one_month l)); [reflexivity|].
    destruct (index_first d) as [f|]; [|reflexivity].
    destruct (dt_ltb s f); [reflexivity|].
    destruct (_ && _ && _); reflexivity. }
  destruct (predict_checks s e exog self) as [[r|x] s'] eqn:E; simpl in *.
  - intros [x H]. discriminate.
  - intros _. subst s'. unfold predict.
    erewrite bindM_raise by exact E. split; [now exists x | reflexivity].
Qed.

(** C4.  On a fitted object [predict] reads the first and last observed
    dates from its data.  For datetime arguments its checks raise exactly
    in the five cases: not fitted; start after end; start before the
    first observed date; start more than one month past the last
    observed date; regressors declared at fit time, end beyond the last
    observed date and no exogenous values given.  When they raise,
    [predict] raises and leaves the object as it was; in no other case do
    the checks raise. *)
Theorem predict_refused_iff (self : AutoTS Model) (d : DataFrame)
        (first last start_date end_date : datetime)
        (exog : option DataFrame) :
  (is_fitted self = true ->
   data self = Some d /\ index_first d = Return first
   /\ index_last d = Return last) ->
  (raises (fst (predict_checks (IsDatetime start_date)
                  (IsDatetime end_date) exog self))
   <-> predict_refused (is_fitted self) (using_exogenous self)
         start_date end_date first last exog)
  /\ (predict_refused (is_fitted self) (using_exogenous self)
        start_date end_date first last exog ->
      raises (fst (predict F (IsDatetime start_date)
                     (IsDatetime end_date) exog self))
      /\ snd (predict F (IsDatetime start_date)
                (IsDatetime end_date) exog self) = self).
Proof.
  intros Hfit.
  assert (Hiff :
            raises (fst (predict_checks (IsDatetime start_date)
                           (IsDatetime end_date) exog self))
            <-> predict_refused (is_fitted self) (using_exogenous self)
                  start_date end_date first last exog).
  { unfold predict_refused, before.
    destruct (is_fitted self) eqn:Efit.
    - destruct (Hfit eq_refl) as [Hd [Hf Hl]].
      unfold predict_checks, bindM, get, lift, the_object, ret. simpl.
      rewrite Efit, Hd. simpl. rewrite Hl, Hf. unfold dt_gtb.
      destruct (dt_ltb end_date start_date);
        [split; [intros _; auto | intros _; now exists ValueError]|].
      destruct (dt_ltb (add_one_month last) start_date);
        [split; [intros _; auto 6 | intros _; now exists ValueError]|].
      destruct (dt_ltb start_date first);
        [split; [intros _; auto 6 | intros _; now exists ValueError]|].
      destruct (using_exogenous self), (dt_ltb last end_date), exog;
        simpl; split; intros H;
        first [ now exists ValueError
              | do 4 right; now repeat split
              | destruct H as [x H]; discriminate
              | destruct H as [H|[H|[H|[H|[H1 [H2 H3]]]]]]; discriminate ].
    - rewrite predict_checks_unfitted by assumption. simpl.
      split; [intros _; now left | intros _; now exists AttributeError]. }
  split; [exact Hiff|].
  intros H. apply predict_raises_with_checks. now apply Hiff.
Qed.

End PredictChecks.

Lemma predict_refused_iff_witness :
  (raises (fst (predict_checks (IsDatetime (month_start 2020 3))
                  (IsDatetime (month_start 2020 8)) None Naive.fitted_six))
   <-> predict_refused (is_fitted Naive.fitted_six)
         (using_exogenous Naive.fitted_six)
         (month_start 2020 3) (month_start 2020 8)
         (month_start 2020 1) (month_start 2020 6) None)
  /\ (predict_refused (is_fitted Naive.fitted_six)
        (using_exogenous Naive.fitted_six)
        (month_start 2020 3) (month_start 2020 8)
        (month_start 2020 1) (month_start 2020 6) None ->
      raises (fst (predict Naive.forecasters (IsDatetime (month_start 2020 3))
                     (IsDatetime (month_start 2020 8)) None Naive.fitted_six))
      /\ snd (predict Naive.forecasters (IsDatetime (month_start 2020 3))
                (IsDatetime (month_start 2020 8)) None Naive.fitted_six)
         = Naive.fitted_six).
Proof.
  apply (@predict_refused_iff Naive.Model Naive.forecasters Naive.fitted_six
           Naive.six_months).
  intros _. vm_compute. repeat split.
Defined.

(** ** The order on dates *)



Lemma dt_compare_eq a b : dt_compare a b = Eq -> a = b.
Proof.
  unfold dt_compare. destruct a, b; simpl.
  destruct (Z.compare_spec year0 year1); try discriminate.
  destruct (Z.compare_spec month0 month1); try discriminate.
  destruct (Z.compare_spec day0 day1); try discriminate.
  destruct (Z.compare_spec tod0 tod1); try discriminate.
  intros _. congruence.
Qed.

Lemma dt_compare_refl a : dt_compare a a = Eq.
Proof.
  unfold dt_compare. now rewrite !Z.compare_refl.
Qed.

Lemma dt_eqb_eq a b : dt_eqb a b = true <-> a = b.
Proof.
  unfold dt_eqb. split.
  - destruct (dt_compare a b) eqn:E; try discriminate.
    intros _. now apply dt_compare_eq.
  - intros ->. now rewrite dt_compare_refl.
Qed.

(** ** The range resolver *)




Lemma reindex_length s idx v :
  reindex s idx = Return v -> length v = length idx.
Proof.
  unfold reindex. destruct (dt_list_eqb (s_index s) idx) eqn:E.
  - intros H. injection H as <-. unfold dt_list_eqb in E.
    apply andb_prop in E. destruct E as [E _]. apply Nat.eqb_eq in E.
    unfold s_values, s_index in *. now rewrite length_map in *.
  - destruct (has_duplicates (s_index s)); [discriminate|].
    intros H. injection H as <-. apply length_map.
Qed.

Section RangeDispatch.

Variable Model : Type.
Variable F : Forecasters Model.

Lemma predict_auto_arima_dispatch (self : AutoTS Model) d last m s e exog :
  data self = Some d -> index_last d = Return last ->
  fit_model self = Some m ->
  _predict_auto_arima F s e last exog self
  = (preds <- arima_action F m (index d) s e last exog ;;
     series_of preds (date_range F s e), self).
Proof.
  intros Hd Hl Hm.
  unfold _predict_auto_arima, arima_action, classify, bindM, get, lift,
    the_object, ret, months_inclusive, periods_from.
  simpl. rewrite Hd. simpl. rewrite Hl, Hm.
  destruct (dt_ltb s last && dt_leb e last).
  - simpl. destruct (get_loc F (index d) s) as [a|]; simpl; auto.
    destruct (get_loc F (index d) e) as [b|]; simpl; auto.
    destruct (predict_in_sample F m (Some a) (Some b) exog); simpl; auto.
  - destruct (dt_ltb s last && dt_ltb last e); simpl.
    + destruct (get_loc F (index d) s) as [a|]; simpl; auto.
      destruct (predict_in_sample F m (Some a) None None); simpl; auto.
      destruct (arima_predict F m (months_between e last) None);
        simpl; auto.
    + destruct (arima_predict F m (months_between e s + 1) exog);
        simpl; auto.
Qed.




End RangeDispatch.



(** The requests of section 8, for a series whose last observed date is
    December 2020. *)
Example resolver_in_sample :
  classify (month_start 2020 6) (month_start 2020 12) (month_start 2020 12)
  = FullyInSample.
Proof. reflexivity. Qed.

Example resolver_straddling :
  classify (month_start 2020 6) (month_start 2021 3) (month_start 2020 12)
  = Straddling.
Proof. reflexivity. Qed.

Example resolver_out_of_sample :
  classify (month_start 2021 1) (month_start 2021 3) (month_start 2020 12)
  = FullyOutOfSample.
Proof. reflexivity. Qed.

Example resolver_too_late :
  before (add_one_month (month_start 2020 12)) (month_start 2021 2).
Proof. reflexivity. Qed.

(** ** Methods that leave the object as it is *)

Section Purity.

Variable Model : Type.
Variable F : Forecasters Model.

Lemma pure_ret A (a : A) (s : AutoTS Model) : snd (ret a s) = s.
Proof. reflexivity. Qed.

Lemma pure_lift A (r : result A) (s : AutoTS Model) : snd (lift r s) = s.
Proof. reflexivity. Qed.

Lemma pure_get (s : AutoTS Model) : snd (get s) = s.
Proof. reflexivity. Qed.

Lemma pure_the A (o : option A) (s : AutoTS Model) : snd (the o s) = s.
Proof. destruct o; reflexivity. Qed.

Lemma pure_bind A B (c : M Model A) (k : A -> M Model B) :
  (forall s, snd (c s) = s) -> (forall a s, snd (k a s) = s) ->
  forall s, snd (bindM c k s) = s.
Proof.
  intros Hc Hk s. unfold bindM. specialize (Hc s).
  destruct (c s) as [[a|e] s1]; simpl in *; subst; auto.
Qed.

Lemma pure_error_metric df p a (s : AutoTS Model) :
  snd (_error_metric df p a s) = s.
Proof.
  unfold _error_metric. revert s.
  apply pure_bind; [apply pure_get|]. intros self.
  destruct (String.eqb (error_metric self) "mase").
  - apply pure_bind; [apply pure_lift|]. intros; apply pure_ret.
  - apply pure_ret.
Qed.

Ltac pure_steps :=
  repeat first
    [ apply pure_get | apply pure_lift | apply pure_ret | apply pure_the
    | apply pure_error_metric
    | apply pure_bind; [|intros ?] ].

Lemma pure_fit_auto_arima b (s : AutoTS Model) :
  snd (_fit_auto_arima F b s) = s.
Proof.
  unfold _fit_auto_arima. revert s.
  apply pure_bind; [apply pure_get|]. intros self.
  apply pure_bind; [apply pure_the|]. intros model_data.
  apply pure_bind; [apply pure_the|]. intros column.
  apply pure_bind.
  { destruct (using_exogenous self); pure_steps. }
  intros [train_exog test_exog].
  apply pure_bind; [apply pure_lift|]. intros model.
  apply pure_bind.
  { destruct b; pure_steps. }
  intros tp. pure_steps.
Qed.

Lemma pure_fit_exponential_smoothing b (s : AutoTS Model) :
  snd (_fit_exponential_smoothing F b s) = s.
Proof.
  unfold _fit_exponential_smoothing. revert s. pure_steps.
Qed.

Lemma pure_fit_tbats b b' (s : AutoTS Model) :
  snd (_fit_tbats F b b' s) = s.
Proof.
  unfold _fit_tbats. revert s. pure_steps.
Qed.

End Purity.

Ltac pure_tac :=
  repeat first
    [ apply pure_get | apply pure_lift | apply pure_ret | apply pure_the
    | apply pure_error_metric
    | apply pure_bind; [|intros ?] ].

(** The state a pure computation returns is the state it was given. *)
Ltac same_state Hx :=
  match type of Hx with
  | ?c ?s = (_, ?s0) =>
      let E := fresh "E" in
      assert (E : s0 = s);
      [ let Hs := fresh in
        assert (Hs : snd (c s) = s);
        [ clear Hx; revert s; pure_tac
        | rewrite Hx in Hs; exact Hs ]
      | subst s0 ]
  end.

(** ** Reading a successful run backwards *)

Lemma get_inv Model (s : AutoTS Model) a s' :
  get s = (Return a, s') -> a = s /\ s' = s.
Proof. unfold get. intros H. injection H as <- <-. auto. Qed.

Lemma lift_inv Model A (r : result A) (s : AutoTS Model) a s' :
  lift r s = (Return a, s') -> r = Return a /\ s' = s.
Proof. unfold lift. intros H. injection H as -> <-. auto. Qed.

Lemma ret_inv Model A (x : A) (s : AutoTS Model) a s' :
  ret x s = (Return a, s') -> a = x /\ s' = s.
Proof. unfold ret. intros H. injection H as <- <-. auto. Qed.

Lemma the_inv Model A (o : option A) (s : AutoTS Model) a s' :
  the o s = (Return a, s') -> o = Some a /\ s' = s.
Proof.
  destruct o; unfold the, ret, lift; intros H; [|discriminate].
  injection H as <- <-. auto.
Qed.

Lemma modify_inv Model (f : AutoTS Model -> AutoTS Model) s u s' :
  modify f s = (Return u, s') -> s' = f s.
Proof. unfold modify. intros H. now injection H as _ <-. Qed.

Ltac inv_step H :=
  let a := fresh "a" in
  let s := fresh "s" in
  let H1 := fresh "H" in
  apply bindM_inv in H; destruct H as (a & s & H1 & H);
  first
    [ apply get_inv in H1; destruct H1 as [-> ->]
    | apply lift_inv in H1; destruct H1 as [H1 ->]
    | apply ret_inv in H1; destruct H1 as [-> ->]
    | apply the_inv in H1; destruct H1 as [H1 ->]
    | apply modify_inv in H1; subst s
    | idtac ].

(** ** Attribute assignments *)

Section Setters.

Variable Model : Type.
Implicit Types (s : AutoTS Model) (l : list (Candidate Model)).

Lemma set_candidate_models_twice l l' s :
  set_candidate_models l (set_candidate_models l' s)
  = set_candidate_models l s.
Proof. reflexivity. Qed.

Lemma set_candidate_models_same s :
  set_candidate_models (candidate_models s) s = s.
Proof. destruct s; reflexivity. Qed.

Lemma candidate_models_set l s :
  candidate_models (set_candidate_models l s) = l.
Proof. reflexivity. Qed.

Lemma model_names_set l s :
  model_names (set_candidate_models l s) = model_names s.
Proof. reflexivity. Qed.

End Setters.

(** ** The guarded fits of [fit] *)

Section Steps.

Variable Model : Type.
Variable F : Forecasters Model.
Implicit Types (s : AutoTS Model) (c : Candidate Model).

Lemma fit_if_requested_inv name (f : M Model (Candidate Model)) s s' :
  (forall s0, snd (f s0) = s0) ->
  fit_if_requested name f s = (Return tt, s') ->
  (str_in name (model_names s) = false /\ s' = s)
  \/ (str_in name (model_names s) = true /\
      exists c, f s = (Return c, s)
                /\ s' = set_candidate_models (candidate_models s ++ [c]) s).
Proof.
  intros Hpure H. unfold fit_if_requested in H. inv_step H.
  destruct (str_in name (model_names s)).
  - right. split; [reflexivity|]. inv_step H.
    assert (s0 = s) by (rewrite <- (Hpure s), H0; reflexivity). subst s0.
    exists a. split; [assumption|].
    unfold append_candidate in H. now apply modify_inv in H.
  - left. apply ret_inv in H. destruct H as [_ ->]. auto.
Qed.

Lemma fit_auto_arima_name b s c s' :
  _fit_auto_arima F b s = (Return c, s') -> c_name c = "auto_arima".
Proof.
  intros H. unfold _fit_auto_arima in H.
  do 4 inv_step H.
  match type of H with
  | context [let '(_, _) := ?x in _] => destruct x as [train_exog test_exog]
  end.
  do 3 inv_step H. apply ret_inv in H. destruct H as [-> _]. reflexivity.
Qed.

Lemma fit_exponential_smoothing_name b s c s' :
  _fit_exponential_smoothing F b s = (Return c, s') ->
  c_name c = "exponential_smoothing".
Proof.
  intros H. unfold _fit_exponential_smoothing in H.
  repeat inv_step H. apply ret_inv in H. destruct H as [-> _]. reflexivity.
Qed.

Lemma fit_tbats_name b b' s c s' :
  _fit_tbats F b b' s = (Return c, s') -> c_name c = "tbats".
Proof.
  intros H. unfold _fit_tbats in H.
  repeat inv_step H. apply ret_inv in H. destruct H as [-> _]. reflexivity.
Qed.

(** [_fit_ensemble] returns the ensemble candidate; the candidates it
    found keep their errors, models and names (a single one gets the
    ensemble column written into its table). *)
Lemma fit_ensemble_state s c s' :
  _fit_ensemble s = (Return c, s') ->
  c_name c = "ensemble" /\ c_model c = None /\
  exists l, s' = set_candidate_models l s
            /\ map (@c_name Model) l = map (@c_name Model) (candidate_models s)
            /\ map (@c_error Model) l = map (@c_error Model) (candidate_models s)
            /\ map (@c_model Model) l = map (@c_model Model) (candidate_models s).
Proof.
  intros H. unfold _fit_ensemble in H.
  do 3 inv_step H.
  apply bindM_inv in H. destruct H as (u & s1 & Hal & H).
  assert (Hs1 : exists l, s1 = set_candidate_models l s
                 /\ map (@c_name Model) l = map (@c_name Model) (candidate_models s)
                 /\ map (@c_error Model) l = map (@c_error Model) (candidate_models s)
                 /\ map (@c_model Model) l = map (@c_model Model) (candidate_models s)).
  { destruct (candidate_models s) as [|c0 [|c1 r]] eqn:E.
    - apply ret_inv in Hal. destruct Hal as [_ ->].
      exists []. rewrite <- E, set_candidate_models_same. rewrite E. auto.
    - apply modify_inv in Hal. subst s1. eexists. split; [reflexivity|].
      simpl. auto.
    - apply ret_inv in Hal. destruct Hal as [_ ->].
      exists (c0 :: c1 :: r). rewrite <- E, set_candidate_models_same. auto. }
  apply bindM_inv in H. destruct H as (err & s2 & Herr & H).
  assert (s2 = s1)
    by (apply (f_equal snd) in Herr; rewrite pure_error_metric in Herr;
        simpl in Herr; congruence).
  subst s2. inv_step H. apply ret_inv in H. destruct H as [-> ->].
  simpl. auto.
Qed.

Lemma fit_if_requested_ensemble_inv s s' :
  fit_if_requested "ensemble" (_fit_ensemble (Model:=Model)) s
  = (Return tt, s') ->
  (str_in "ensemble" (model_names s) = false /\ s' = s)
  \/ (str_in "ensemble" (model_names s) = true /\
      exists c l, _fit_ensemble s = (Return c, set_candidate_models l s)
                  /\ c_name c = "ensemble" /\ c_model c = None
                  /\ map (@c_name Model) l = map (@c_name Model) (candidate_models s)
                  /\ map (@c_error Model) l = map (@c_error Model) (candidate_models s)
                  /\ map (@c_model Model) l = map (@c_model Model) (candidate_models s)
                  /\ s' = set_candidate_models (l ++ [c]) s).
Proof.
  intros H. unfold fit_if_requested in H. inv_step H.
  destruct (str_in "ensemble" (model_names s)).
  - right. split; [reflexivity|]. inv_step H.
    pose proof H0 as H0'. apply fit_ensemble_state in H0'.
    destruct H0' as [Hn [Hm [l [-> [Hl1 [Hl2 Hl3]]]]]].
    exists a, l. repeat split; auto.
    unfold append_candidate in H. now apply modify_inv in H.
  - left. apply ret_inv in H. destruct H as [_ ->]. auto.
Qed.

End Steps.

(** ** A successful [fit], read backwards *)

Section FitInversion.

Variable Model : Type.
Variable F : Forecasters Model.
Implicit Types (s : AutoTS Model) (c : Candidate Model).

Lemma first_candidate_inv s c s' :
  first_candidate s = (Return c, s') ->
  s' = s /\ exists rest, candidate_models s = c :: rest.
Proof.
  unfold first_candidate. intros H. inv_step H.
  destruct (candidate_models s) as [|c0 rest]; [discriminate|].
  apply ret_inv in H. destruct H as [-> ->]. eauto.
Qed.

Lemma step_frame name (f : M Model (Candidate Model)) s s' :
  (forall s0, snd (f s0) = s0) ->
  fit_if_requested name f s = (Return tt, s') ->
  exists l, s' = set_candidate_models l s.
Proof.
  intros Hp H. apply fit_if_requested_inv in H; [|exact Hp].
  destruct H as [[_ ->]|[_ [c [_ ->]]]].
  - exists (candidate_models s). now rewrite set_candidate_models_same.
  - eauto.
Qed.

Lemma ensemble_step_frame s s' :
  fit_if_requested "ensemble" (_fit_ensemble (Model:=Model)) s
  = (Return tt, s') ->
  exists l, s' = set_candidate_models l s.
Proof.
  intros H. apply fit_if_requested_ensemble_inv in H.
  destruct H as [[_ ->]|[_ [c [l [_ [_ [_ [_ [_ [_ ->]]]]]]]]]].
  - exists (candidate_models s). now rewrite set_candidate_models_same.
  - eauto.
Qed.

Lemma fit_inv df column exog s s' :
  fit F df column exog s = (Return tt, s') ->
  is_datetime_index df = true /\
  exists pre w rest,
    built F (prepared df column exog s) pre
    /\ sorted pre = Return (w :: rest)
    /\ s' = selected w rest (prepared df column exog s).
Proof.
  intros H. unfold fit in H.
  inv_step H.
  assert (Hdt : is_datetime_index df = true).
  { unfold Validation.check_datetime_index in H0.
    destruct (is_datetime_index df); [reflexivity | discriminate]. }
  split; [assumption|]. clear H0 a.
  apply bindM_inv in H. destruct H as (u & s1 & Hin & H).
  unfold _set_input_data in Hin. inv_step Hin. apply modify_inv in Hin.
  apply bindM_inv in H. destruct H as (u' & s2 & Hex & H).
  assert (Hs2 : s2 = prepared df column exog s).
  { unfold prepared. subst s1.
    destruct exog; simpl in Hex;
      first [ apply ret_inv in Hex; destruct Hex as [_ ->]
            | apply modify_inv in Hex; subst s2 ]; reflexivity. }
  clear Hex Hin. subst s2. clear s1 u u'.
  set (p := prepared df column exog s) in *.
  apply bindM_inv in H. destruct H as ([] & s3 & H3 & H).
  apply bindM_inv in H. destruct H as ([] & s4 & H4 & H).
  apply bindM_inv in H. destruct H as ([] & s5 & H5 & H).
  apply bindM_inv in H. destruct H as ([] & s6 & H6 & H).
  pose proof H3 as E3. apply step_frame in E3;
    [destruct E3 as [l3 E3] | apply pure_fit_auto_arima].
  pose proof H4 as E4. apply step_frame in E4;
    [destruct E4 as [l4 E4] | apply pure_fit_exponential_smoothing].
  pose proof H5 as E5. apply step_frame in E5;
    [destruct E5 as [l5 E5] | apply pure_fit_tbats].
  pose proof H6 as E6. apply ensemble_step_frame in E6.
  destruct E6 as [l6 E6].
  assert (E : s6 = set_candidate_models l6 p) by (subst; reflexivity).
  inv_step H. inv_step H. inv_step H.
  apply bindM_inv in H. destruct H as (w & s7 & Hw & H).
  apply first_candidate_inv in Hw. destruct Hw as [-> [rest Hrest]].
  inv_step H.
  apply bindM_inv in H. destruct H as (w' & s8 & Hw' & H).
  apply first_candidate_inv in Hw'. destruct Hw' as [-> [rest' Hrest']].
  inv_step H.
  apply bindM_inv in H. destruct H as (w'' & s9 & Hw'' & H).
  apply first_candidate_inv in Hw''. destruct Hw'' as [-> [rest'' Hrest'']].
  inv_step H. apply modify_inv in H.
  simpl in Hrest, Hrest', Hrest''. subst a.
  injection Hrest' as <- <-. injection Hrest'' as <- <-.
  exists l6, w, rest. split; [|split].
  - exists s3, s4, s5, s6. auto.
  - rewrite E in H0. exact H0.
  - subst s'. rewrite E. reflexivity.
Qed.

End FitInversion.

(** ** [sorted]: the winner and the order of ties *)

(** *** Lists in order *)

Lemma SS_app_inv A (R : A -> A -> Prop) (a b : list A) :
  StronglySorted R (a ++ b) ->
  StronglySorted R a /\ StronglySorted R b
  /\ (forall x y, In x a -> In y b -> R x y).
Proof.
  induction a as [|h a IH]; simpl; intros H.
  - split; [constructor|]. split; [assumption|]. intros x y [].
  - inversion H as [|? ? Hs Hall]; subst.
    destruct (IH Hs) as (Ha & Hb & Hab).
    rewrite Forall_forall in Hall.
    split; [constructor; [assumption|]|].
    + apply Forall_forall. intros x Hx. apply Hall.
      apply in_or_app. now left.
    + split; [assumption|]. intros x y [<-|Hx] Hy.
      * apply Hall. apply in_or_app. now right.
      * now apply Hab.
Qed.

Lemma SS_app A (R : A -> A -> Prop) (a b : list A) :
  StronglySorted R a -> StronglySorted R b ->
  (forall x y, In x a -> In y b -> R x y) ->
  StronglySorted R (a ++ b).
Proof.
  induction a as [|h a IH]; simpl; intros Ha Hb Hab; [assumption|].
  inversion Ha as [|? ? Hs Hall]; subst. constructor.
  - apply IH; auto.
  - apply Forall_app. split; [assumption|].
    apply Forall_forall. intros y Hy. apply Hab; auto.
Qed.

Lemma SS_weaken A (R R' : A -> A -> Prop) (l : list A) :
  (forall x y, R x y -> R' x y) ->
  StronglySorted R l -> StronglySorted R' l.
Proof.
  intros Himp. induction 1 as [|h l Hs IH Hall]; constructor; auto.
  eapply Forall_impl; [|exact Hall]. auto.
Qed.

Lemma SS_rev A (R : A -> A -> Prop) (l : list A) :
  StronglySorted R l -> StronglySorted (fun x y => R y x) (rev l).
Proof.
  induction 1 as [|h l Hs IH Hall]; simpl; [constructor|].
  apply SS_app; [assumption | repeat constructor |].
  intros x y Hx [<-|[]]. apply in_rev in Hx.
  rewrite Forall_forall in Hall. now apply Hall.
Qed.

Lemma skipn_nth A (d : A) (l : list A) p :
  (p < length l)%nat -> skipn p l = nth p l d :: skipn (S p) l.
Proof.
  revert l. induction p as [|p IH]; intros [|h l] H; simpl in *;
    try lia; [reflexivity|].
  apply IH. lia.
Qed.

Lemma firstn_nth A (d : A) (l : list A) p :
  (p < length l)%nat -> firstn (S p) l = firstn p l ++ [nth p l d].
Proof.
  revert l. induction p as [|p IH]; intros [|h l] H; simpl in *;
    try lia; [reflexivity|].
  f_equal. apply IH. lia.
Qed.

Section Sorting.

Variable Model : Type.
Implicit Types (c w x prev : Candidate Model).
Implicit Types (l rest run r L P : list (Candidate Model)).

Lemma Qc_ltb_true (x y : Qc) : Qc_ltb x y = true -> (x < y)%Qc.
Proof.
  unfold Qc_ltb, Qclt. destruct (x ?= y)%Qc eqn:E; try discriminate.
  intros _. exact E.
Qed.

Lemma Qc_ltb_false (x y : Qc) : Qc_ltb x y = false -> (y <= x)%Qc.
Proof.
  unfold Qc_ltb. intros H. apply Qcnot_lt_le. intros Hlt.
  change (Qcompare x y = Lt) in Hlt.
  change ((x ?= y)%Qc) with (Qcompare x y) in H.
  rewrite Hlt in H. discriminate.
Qed.

Lemma flt_true (x y : fval) : flt x y = true -> num_lt x y.
Proof.
  destruct x, y; simpl; try discriminate; try (intros _; exact I).
  apply Qc_ltb_true.
Qed.

Lemma flt_false (x y : fval) :
  flt x y = false -> x <> NaN -> y <> NaN -> num_le y x.
Proof.
  destruct x, y; simpl; intros H Hx Hy;
    try discriminate; try congruence; try exact I.
  now apply Qc_ltb_false.
Qed.

Lemma num_le_trans (x y z : fval) : num_le x y -> num_le y z -> num_le x z.
Proof.
  destruct x, y, z; simpl; try tauto. apply Qcle_trans.
Qed.

Lemma num_lt_le (x y : fval) : num_lt x y -> num_le x y.
Proof.
  destruct x, y; simpl; try tauto. apply Qclt_le_weak.
Qed.

Lemma num_lt_le_trans (x y z : fval) : num_lt x y -> num_le y z -> num_lt x z.
Proof.
  destruct x, y, z; simpl; try tauto. apply Qclt_le_trans.
Qed.

Lemma num_lt_trans (x y z : fval) : num_lt x y -> num_lt y z -> num_lt x z.
Proof.
  intros H1 H2. apply num_lt_le_trans with (y := y); [assumption|].
  now apply num_lt_le.
Qed.

Lemma score_lt_true a b :
  score_lt a b = Return true -> below a b.
Proof.
  unfold score_lt, below.
  destruct a as [|x], b as [|y]; try discriminate.
  intros H. injection H as H. apply flt_true in H. eauto.
Qed.

Lemma score_lt_false a b :
  score_lt a b = Return false -> a <> Score NaN -> b <> Score NaN ->
  at_most b a.
Proof.
  unfold score_lt, at_most.
  destruct a as [|x], b as [|y]; try discriminate.
  intros H Ha Hb. injection H as H. exists y, x. repeat split.
  apply flt_false; congruence.
Qed.

Lemma at_most_trans (a b d : score) :
  at_most a b -> at_most b d -> at_most a d.
Proof.
  intros (x & y & -> & -> & H1) (y' & z & E & -> & H2).
  injection E as <-. exists x, z. repeat split.
  eapply num_le_trans; eauto.
Qed.

Lemma below_at_most a b : below a b -> at_most a b.
Proof.
  intros (x & y & -> & -> & H). exists x, y. repeat split.
  now apply num_lt_le.
Qed.

Lemma below_at_most_trans (a b d : score) :
  below a b -> at_most b d -> below a d.
Proof.
  intros (x & y & -> & -> & H1) (y' & z & E & -> & H2).
  injection E as <-. exists x, z. repeat split.
  eapply num_lt_le_trans; eauto.
Qed.

Lemma below_trans (a b d : score) : below a b -> below b d -> below a d.
Proof.
  intros H1 H2. apply below_at_most_trans with (b := b); [assumption|].
  now apply below_at_most.
Qed.

(** *** The result holds the entries of the list *)

Lemma binarysort_perm rest :
  forall run r,
    binarysort run rest = Return r -> Permutation (run ++ rest) r.
Proof.
  induction rest as [|x rest IH]; intros run r H; simpl in H.
  - injection H as <-. now rewrite app_nil_r.
  - destruct (bisect (length run) x run 0 (length run)) as [k|];
      simpl in H; [|discriminate].
    apply IH in H. rewrite <- H.
    rewrite <- (firstn_skipn k run) at 1. rewrite <- !app_assoc.
    apply Permutation_app_head. simpl. apply Permutation_sym.
    apply Permutation_middle.
Qed.

Lemma sorted_perm l r : sorted l = Return r -> Permutation l r.
Proof.
  unfold sorted. destruct (length l <? 2)%nat.
  - intros H. injection H as <-. reflexivity.
  - destruct (count_run l) as [[n d]|]; simpl; [|discriminate].
    intros H. apply binarysort_perm in H. rewrite <- H.
    rewrite <- (firstn_skipn n l) at 1.
    apply Permutation_app_tail. destruct d; [apply Permutation_rev|].
    reflexivity.
Qed.

(** *** The runs at the head of the list *)

Local Notation "'le_c'" :=
  (fun a b : Candidate Model => at_most (c_error a) (c_error b)).
Local Notation "'gt_c'" :=
  (fun a b : Candidate Model => below (c_error b) (c_error a)).

Lemma ascending_run_sorted l :
  forall prev n,
    no_NaN_score (prev :: l) ->
    ascending_run prev l = Return n ->
    StronglySorted le_c (prev :: firstn n l).
Proof.
  induction l as [|x l IH]; intros prev n Hn H; simpl in H.
  - injection H as <-. repeat constructor.
  - inversion Hn as [|? ? Hp Hl]; subst.
    inversion Hl as [|? ? Hx Hl']; subst.
    unfold key_lt in H.
    destruct (score_lt (c_error x) (c_error prev)) as [[|]|] eqn:E;
      simpl in H; try discriminate.
    + injection H as <-. repeat constructor.
    + destruct (ascending_run x l) as [n'|] eqn:En; simpl in H;
        [|discriminate].
      injection H as <-. simpl.
      pose proof (IH x n' Hl En) as Hs.
      apply score_lt_false in E; auto.
      constructor; [assumption|].
      inversion Hs as [|? ? _ Hall]; subst.
      constructor; [assumption|].
      eapply Forall_impl; [|exact Hall].
      intros c Hc. simpl in *. eapply at_most_trans; eauto.
Qed.

Lemma descending_run_sorted l :
  forall prev n,
    descending_run prev l = Return n ->
    StronglySorted gt_c (prev :: firstn n l).
Proof.
  induction l as [|x l IH]; intros prev n H; simpl in H.
  - injection H as <-. repeat constructor.
  - unfold key_lt in H.
    destruct (score_lt (c_error x) (c_error prev)) as [[|]|] eqn:E;
      simpl in H; try discriminate.
    + destruct (descending_run x l) as [n'|] eqn:En; simpl in H;
        [|discriminate].
      injection H as <-. simpl.
      pose proof (IH x n' En) as Hs.
      apply score_lt_true in E.
      constructor; [assumption|].
      inversion Hs as [|? ? _ Hall]; subst.
      constructor; [assumption|].
      eapply Forall_impl; [|exact Hall].
      intros c Hc. simpl in *. eapply below_trans; eauto.
    + injection H as <-. repeat constructor.
Qed.

(** *** The binary search *)

Lemma bisect_spec x P :
  StronglySorted le_c P -> no_NaN_score (x :: P) ->
  forall (fuel l r k : nat),
    (r - l <= fuel)%nat -> (l <= r <= length P)%nat ->
    (forall c, In c (firstn l P) -> at_most (c_error c) (c_error x)) ->
    (forall c, In c (skipn r P) -> below (c_error x) (c_error c)) ->
    bisect fuel x P l r = Return k ->
    (forall c, In c (firstn k P) -> at_most (c_error c) (c_error x))
    /\ (forall c, In c (skipn k P) -> below (c_error x) (c_error c)).
Proof.
  intros Hs Hn. inversion Hn as [|? ? Hx HP]; subst.
  induction fuel as [|fuel IH]; intros l r k Hf Hlr Hl Hr H; simpl in H.
  - injection H as <-. replace r with l in Hr by lia. auto.
  - destruct (l <? r)%nat eqn:Elr.
    2:{ apply Nat.ltb_ge in Elr. injection H as <-.
        replace r with l in Hr by lia. auto. }
    apply Nat.ltb_lt in Elr.
    assert (Hd : (Nat.div2 (r - l) < r - l)%nat)
      by (apply Nat.lt_div2; lia).
    remember (Nat.div2 (r - l)) as d eqn:Ed. clear Ed.
    set (p := (l + d)%nat) in *.
    assert (Hp : (p < length P)%nat) by (unfold p; lia).
    pose proof (firstn_skipn p P) as Esplit.
    rewrite (skipn_nth x _ Hp) in Esplit.
    assert (Hy : c_error (nth p P x) <> Score NaN).
    { unfold no_NaN_score in HP. rewrite Forall_forall in HP.
      apply HP. apply nth_In. exact Hp. }
    rewrite <- Esplit in Hs. apply SS_app_inv in Hs.
    destruct Hs as (_ & Hs2 & Hcross).
    inversion Hs2 as [|? ? _ Hafter]; subst.
    rewrite Forall_forall in Hafter.
    unfold key_lt in H.
    destruct (score_lt (c_error x) (c_error (nth p P x))) as [[|]|] eqn:E;
      simpl in H; try discriminate.
    + apply score_lt_true in E.
      apply (IH l p k); auto; try (unfold p in *; lia).
      intros c Hc. rewrite (skipn_nth x _ Hp) in Hc.
      destruct Hc as [<-|Hc]; [assumption|].
      eapply below_at_most_trans; [exact E|]. now apply Hafter.
    + apply score_lt_false in E; auto.
      apply (IH (S p) r k); auto; try (unfold p in *; lia).
      intros c Hc. rewrite (firstn_nth x _ Hp) in Hc.
      apply in_app_or in Hc. destruct Hc as [Hc|[<-|[]]]; [|assumption].
      eapply at_most_trans; [|exact E].
      apply Hcross; [assumption | now left].
Qed.

Lemma insert_sorted x P k :
  StronglySorted le_c P ->
  (forall c, In c (firstn k P) -> at_most (c_error c) (c_error x)) ->
  (forall c, In c (skipn k P) -> below (c_error x) (c_error c)) ->
  StronglySorted le_c (firstn k P ++ x :: skipn k P).
Proof.
  intros Hs Hl Hr. rewrite <- (firstn_skipn k P) in Hs.
  apply SS_app_inv in Hs. destruct Hs as (Ha & Hb & Hab).
  apply SS_app; [assumption | |].
  - constructor; [assumption|]. apply Forall_forall.
    intros c Hc. apply below_at_most. now apply Hr.
  - intros a b Ha' [<-|Hb']; [now apply Hl | now apply Hab].
Qed.

(** *** The ranking *)

Lemma binarysort_ranking rest :
  forall L P r,
    P <> [] -> no_NaN_score (P ++ rest) -> ranking L P ->
    binarysort P rest = Return r -> ranking (L ++ rest) r.
Proof.
  induction rest as [|x rest IH]; intros L P r Hne Hn HR H; simpl in H.
  - injection H as <-. now rewrite app_nil_r.
  - destruct (bisect (length P) x P 0 (length P)) as [k|] eqn:E;
      simpl in H; [|discriminate].
    destruct HR as (Hperm & Hs & Hhead).
    assert (HnP : no_NaN_score (x :: P)).
    { unfold no_NaN_score in *. rewrite Forall_app in Hn.
      destruct Hn as [HP Hxr]. inversion Hxr; subst.
      constructor; assumption. }
    destruct (@bisect_spec x P Hs HnP (length P) 0%nat (length P) k)
      as [Hl Hr]; auto; [lia | lia | intros c [] | |].
    { intros c Hc. rewrite skipn_all in Hc. destruct Hc. }
    replace (L ++ x :: rest) with ((L ++ [x]) ++ rest)
      by (now rewrite <- app_assoc).
    apply IH with (P := firstn k P ++ x :: skipn k P); auto.
    + destruct (firstn k P); discriminate.
    + unfold no_NaN_score in *. rewrite Forall_app in *.
      destruct Hn as [HP Hxr]. inversion Hxr as [|? ? Hx Hrest]; subst.
      split; [|assumption].
      rewrite <- (firstn_skipn k P) in HP. rewrite Forall_app in HP.
      destruct HP as [H1 H2]. apply Forall_app. split; [assumption|].
      constructor; assumption.
    + split; [|split].
      * apply Permutation_trans with (l' := x :: L);
          [apply Permutation_sym, Permutation_cons_append|].
        apply Permutation_trans with (l' := x :: P);
          [now constructor|].
        rewrite <- (firstn_skipn k P) at 1. apply Permutation_middle.
      * now apply insert_sorted.
      * intros w rest' Ew.
        destruct P as [|w0 P0]; [congruence|].
        destruct (Hhead w0 P0 eq_refl) as (l1 & l2 & EL & H1 & H2).
        destruct k as [|k]; simpl in Ew.
        -- injection Ew as <- <-.
           exists L, []. split; [reflexivity|]. split; [|intros c []].
           intros c Hc. apply Hr. exact (Permutation_in _ Hperm Hc).
        -- injection Ew as <- <-.
           exists l1, (l2 ++ [x]). split.
           ++ rewrite EL, <- app_assoc. reflexivity.
           ++ split; [assumption|].
              intros c Hc. apply in_app_or in Hc.
              destruct Hc as [Hc|[<-|[]]]; [now apply H2|].
              apply Hl. simpl. now left.
Qed.

Lemma count_run_ranking l n d :
  (2 <= length l)%nat -> no_NaN_score l ->
  count_run l = Return (n, d) ->
  firstn n l <> []
  /\ ranking (firstn n l) (if d then rev (firstn n l) else firstn n l).
Proof.
  intros Hlen Hn H.
  destruct l as [|x [|y l]]; simpl in Hlen; try lia. clear Hlen.
  unfold count_run in H.
  destruct (key_lt y x) as [[|]|] eqn:E; simpl in H; try discriminate.
  - (* a descending run, reversed *)
    destruct (descending_run y l) as [n'|] eqn:En; simpl in H;
      [|discriminate].
    injection H as <- <-.
    assert (Hd : descending_run x (y :: l) = Return (S n'))
      by (simpl; rewrite E; simpl; now rewrite En).
    apply descending_run_sorted in Hd.
    change (x :: firstn (S n') (y :: l))
      with (firstn (S (S n')) (x :: y :: l)) in Hd.
    set (run := firstn (S (S n')) (x :: y :: l)) in *.
    split; [discriminate|].
    split; [apply Permutation_rev|]. split.
    + apply SS_rev in Hd.
      eapply SS_weaken; [|exact Hd].
      intros a b Hab. simpl in Hab. now apply below_at_most.
    + intros w rest Ew.
      assert (Erun : run = rev rest ++ [w]).
      { rewrite <- (rev_involutive run), Ew. reflexivity. }
      exists (rev rest), []. split; [exact Erun|].
      split; [|intros c []].
      rewrite Erun in Hd. apply SS_app_inv in Hd.
      destruct Hd as (_ & _ & Hcross).
      intros c Hc. apply (Hcross c w); [assumption | now left].
  - (* an ascending run *)
    destruct (ascending_run y l) as [n'|] eqn:En; simpl in H;
      [|discriminate].
    injection H as <- <-.
    assert (Ha : ascending_run x (y :: l) = Return (S n'))
      by (simpl; rewrite E; simpl; now rewrite En).
    apply ascending_run_sorted in Ha; [|assumption].
    change (x :: firstn (S n') (y :: l))
      with (firstn (S (S n')) (x :: y :: l)) in Ha.
    split; [discriminate|].
    split; [reflexivity|]. split; [assumption|].
    intros w rest Ew. exists [], rest.
    split; [now rewrite Ew|]. split; [intros c []|].
    rewrite Ew in Ha. inversion Ha as [|? ? _ Hall]; subst.
    rewrite Forall_forall in Hall. exact Hall.
Qed.

(** On keys without NaN, [sorted] returns the ranking of its list. *)
Lemma sorted_ranking l r :
  no_NaN_score l -> sorted l = Return r -> ranking l r.
Proof.
  intros Hn H. unfold sorted in H.
  destruct (length l <? 2)%nat eqn:El.
  - injection H as <-. apply Nat.ltb_lt in El.
    destruct l as [|c [|c' l]]; simpl in El; try lia.
    + split; [reflexivity|]. split; [constructor|]. discriminate.
    + split; [reflexivity|]. split; [repeat constructor|].
      intros w rest E. injection E as <- <-.
      exists [], []. split; [reflexivity|]. split; intros c' [].
  - apply Nat.ltb_ge in El.
    destruct (count_run l) as [[n d]|] eqn:Ec; simpl in H; [|discriminate].
    destruct (count_run_ranking El Hn Ec) as [Hne HR].
    rewrite <- (firstn_skipn n l) at 1.
    apply binarysort_ranking with (P := if d then rev (firstn n l)
                                        else firstn n l); auto.
    + destruct d; [|assumption].
      intros E. apply Hne. rewrite <- (rev_involutive (firstn n l)), E.
      reflexivity.
    + unfold no_NaN_score in *. rewrite <- (firstn_skipn n l) in Hn.
      rewrite Forall_app in *. destruct Hn as [H1 H2].
      split; [|assumption]. destruct d; [|assumption].
      apply Forall_rev. assumption.
Qed.

(** The head of a sorted list: the first candidate of the input that no
    earlier one undercuts and no later one beats strictly. *)
Lemma sorted_head l w rest :
  no_NaN_score l ->
  sorted l = Return (w :: rest) ->
  exists l1 l2,
    l = l1 ++ w :: l2
    /\ (forall c, In c l1 -> below (c_error w) (c_error c))
    /\ (forall c, In c l2 -> at_most (c_error w) (c_error c)).
Proof.
  intros Hn H. destruct (sorted_ranking Hn H) as (_ & _ & Hhead).
  now apply Hhead with (rest := rest).
Qed.

Lemma sorted_ascending l r :
  no_NaN_score l -> sorted l = Return r -> ascending r.
Proof.
  intros Hn H. destruct (sorted_ranking Hn H) as (_ & Hs & _).
  unfold ascending. now apply StronglySorted_Sorted.
Qed.

(** Two or more candidates without a score cannot be sorted. *)
Lemma sorted_without_scores (l r : list (Candidate Model)) :
  Forall (fun c => c_error c = NoScore) l ->
  sorted l = Return r -> (length l <= 1)%nat.
Proof.
  intros Hall H. destruct l as [|c [|c' l]]; simpl; try lia.
  exfalso. unfold sorted in H. simpl in H.
  inversion Hall as [|? ? Hc Hall']; subst.
  inversion Hall' as [|? ? Hc' _]; subst.
  unfold key_lt in H. rewrite Hc, Hc' in H. simpl in H. discriminate.
Qed.

End Sorting.

(** ** The tables of the three model fits *)

Lemma frame_of_series_array_shape n1 s n2 a df :
  frame_of_series_array n1 s n2 a = Return df ->
  columns df = [n1; n2] /\ rows_of_width 2 (rows df)
  /\ index df = s_index s /\ length a = length s.
Proof.
  unfold frame_of_series_array.
  destruct (Nat.eqb (length a) (length s)) eqn:E; [|discriminate].
  apply Nat.eqb_eq in E. intros H. injection H as <-. simpl.
  split; [reflexivity|]. split; [|split; [|assumption]].
  - unfold rows_of_width. apply Forall_forall. intros r Hr.
    apply in_map_iff in Hr. destruct Hr as [p [<- _]]. reflexivity.
  - unfold index, s_index. simpl. rewrite map_map. simpl.
    rewrite <- (map_map fst fst). now rewrite map_fst_combine.
Qed.

Lemma frame_of_two_series_shape n1 s1 n2 s2 df :
  frame_of_two_series n1 s1 n2 s2 = Return df ->
  columns df = [n1; n2] /\ rows_of_width 2 (rows df)
  /\ index df = index_union (s_index s1) (s_index s2).
Proof.
  unfold frame_of_two_series.
  destruct (reindex s1 _) as [v1|] eqn:E1; [|discriminate].
  destruct (reindex s2 _) as [v2|] eqn:E2; [|discriminate].
  simpl. intros H. injection H as <-. simpl.
  apply reindex_length in E1. apply reindex_length in E2.
  split; [reflexivity|]. split.
  - unfold rows_of_width. apply Forall_forall. intros r Hr.
    apply in_map_iff in Hr. destruct Hr as [p [<- _]]. reflexivity.
  - unfold index. simpl. rewrite map_map. simpl.
    apply map_fst_combine. rewrite combine_length_eq; lia.
Qed.

Section Tables.

Variable Model : Type.
Variable F : Forecasters Model.
Implicit Types (s : AutoTS Model) (c : Candidate Model).

Lemma fit_auto_arima_table b s c s' :
  _fit_auto_arima F b s = (Return c, s') -> holdout_table c.
Proof.
  intros H. unfold _fit_auto_arima in H.
  do 4 inv_step H.
  match type of H with
  | context [let '(_, _) := ?x in _] => destruct x as [train_exog test_exog]
  end.
  inv_step H.
  apply bindM_inv in H. destruct H as (tp & s1 & Htp & H).
  inv_step H. apply ret_inv in H. destruct H as [-> _].
  unfold holdout_table. simpl.
  assert (Hshape : exists ys ps, frame_of_series_array "actuals" ys
                                   "aa_test_predictions" ps = Return tp).
  { destruct b; repeat inv_step Htp; apply lift_inv in Htp;
      destruct Htp as [Htp _]; eauto. }
  destruct Hshape as (ys & ps & Hshape).
  apply frame_of_series_array_shape in Hshape.
  destruct Hshape as (Hc & Hw & _). auto.
Qed.

Lemma fit_exponential_smoothing_table b s c s' :
  _fit_exponential_smoothing F b s = (Return c, s') -> holdout_table c.
Proof.
  intros H. unfold _fit_exponential_smoothing in H.
  repeat inv_step H. apply ret_inv in H. destruct H as [-> _].
  unfold holdout_table. simpl.
  match goal with
  | Hx : frame_of_two_series _ _ _ _ = Return _ |- _ =>
      apply frame_of_two_series_shape in Hx; destruct Hx as (Hc & Hw & _)
  end. auto.
Qed.

Lemma fit_tbats_table b b' s c s' :
  _fit_tbats F b b' s = (Return c, s') -> holdout_table c.
Proof.
  intros H. unfold _fit_tbats in H.
  repeat inv_step H. apply ret_inv in H. destruct H as [-> _].
  unfold holdout_table. simpl.
  match goal with
  | Hx : frame_of_series_array _ _ _ _ = Return _ |- _ =>
      apply frame_of_series_array_shape in Hx; destruct Hx as (Hc & Hw & _)
  end. auto.
Qed.

End Tables.

(** ** The candidates a run of [fit] builds *)

Section Built.

Variable Model : Type.
Variable F : Forecasters Model.
Implicit Types (s : AutoTS Model) (c : Candidate Model).

Lemma kept_refl (l : list (Candidate Model)) : kept l l.
Proof. unfold kept. auto. Qed.

Lemma model_step name (f : M Model (Candidate Model)) s s' :
  (forall s0, snd (f s0) = s0) ->
  (forall s0 c s1, f s0 = (Return c, s1) ->
                   c_name c = name /\ holdout_table c) ->
  fit_if_requested name f s = (Return tt, s') ->
  exists l,
    s' = set_candidate_models (candidate_models s ++ l) s
    /\ Forall (@holdout_table Model) l
    /\ map (@c_name Model) l
       = (if str_in name (model_names s) then [name] else []).
Proof.
  intros Hp Hf H. apply fit_if_requested_inv in H; [|exact Hp].
  destruct H as [[E ->]|[E [c [Hc ->]]]]; rewrite E.
  - exists []. rewrite app_nil_r, set_candidate_models_same. auto.
  - exists [c]. destruct (Hf _ _ _ Hc) as [Hn Ht].
    split; [reflexivity|]. split; [auto|]. simpl. now rewrite Hn.
Qed.

Lemma built_inv s pre :
  built F s pre ->
  exists l,
    Forall (@holdout_table Model) l
    /\ map (@c_name Model) l
       = filter (fun n => str_in n (model_names s)) model_order
    /\ ((str_in "ensemble" (model_names s) = false
         /\ pre = candidate_models s ++ l)
        \/ (str_in "ensemble" (model_names s) = true /\
            exists e l',
              _fit_ensemble (set_candidate_models (candidate_models s ++ l) s)
              = (Return e, set_candidate_models l' s)
              /\ kept l' (candidate_models s ++ l)
              /\ c_name e = "ensemble" /\ c_model e = None
              /\ pre = l' ++ [e])).
Proof.
  intros (s1 & s2 & s3 & s4 & H1 & H2 & H3 & H4 & E).
  apply model_step in H1;
    [ | apply pure_fit_auto_arima
      | intros s0 c s0' Hc; split;
        [eapply fit_auto_arima_name | eapply fit_auto_arima_table]; eauto ].
  destruct H1 as (l1 & -> & Ht1 & Hn1).
  apply model_step in H2;
    [ | apply pure_fit_exponential_smoothing
      | intros s0 c s0' Hc; split;
        [eapply fit_exponential_smoothing_name
        | eapply fit_exponential_smoothing_table]; eauto ].
  destruct H2 as (l2 & -> & Ht2 & Hn2).
  apply model_step in H3;
    [ | apply pure_fit_tbats
      | intros s0 c s0' Hc; split;
        [eapply fit_tbats_name | eapply fit_tbats_table]; eauto ].
  destruct H3 as (l3 & -> & Ht3 & Hn3).
  simpl in *. rewrite <- !app_assoc in *.
  exists (l1 ++ l2 ++ l3). split; [|split].
  - repeat (apply Forall_app; split); auto.
  - rewrite !map_app, Hn1, Hn2, Hn3. unfold model_order. simpl.
    destruct (str_in "auto_arima" (model_names s)),
             (str_in "exponential_smoothing" (model_names s)),
             (str_in "tbats" (model_names s)); reflexivity.
  - apply fit_if_requested_ensemble_inv in H4. simpl in H4.
    destruct H4 as [[En ->]|[En (e & l' & He & Hne & Hme & K1 & K2 & K3 & ->)]].
    + left. split; [assumption|].
      apply (f_equal (@candidate_models Model)) in E. simpl in E. auto.
    + right. split; [assumption|]. exists e, l'.
      simpl in *. split; [exact He|].
      split; [unfold kept; auto|]. split; [assumption|].
      split; [assumption|].
      apply (f_equal (@candidate_models Model)) in E. simpl in E. auto.
Qed.

(** The names of the candidates before sorting: those found on the
    object, then one per requested name, in the order of [fit]. *)
Lemma built_names s pre :
  built F s pre ->
  map (@c_name Model) pre
  = map (@c_name Model) (candidate_models s) ++ requested s.
Proof.
  intros H. apply built_inv in H.
  destruct H as (l & _ & Hn & [[En ->]|[En (e & l' & _ & K & Hne & _ & ->)]]).
  - rewrite map_app, Hn. unfold requested, evaluation_order, model_order.
    simpl. rewrite En.
    destruct (str_in "auto_arima" (model_names s)),
             (str_in "exponential_smoothing" (model_names s)),
             (str_in "tbats" (model_names s)); reflexivity.
  - destruct K as [K _]. rewrite map_app, K, map_app, Hn. simpl.
    rewrite Hne. unfold requested, evaluation_order, model_order.
    simpl. rewrite En. rewrite <- app_assoc. f_equal.
    destruct (str_in "auto_arima" (model_names s)),
             (str_in "exponential_smoothing" (model_names s)),
             (str_in "tbats" (model_names s)); reflexivity.
Qed.

End Built.

(** ** Selection of the winner *)

Section Ranking.

Variable Model : Type.
Variable F : Forecasters Model.

Lemma requested_prepared df column exog (s : AutoTS Model) :
  requested (prepared df column exog s) = requested s.
Proof. destruct exog; reflexivity. Qed.

Lemma candidates_prepared df column exog (s : AutoTS Model) :
  candidate_models (prepared df column exog s) = candidate_models s.
Proof. destruct exog; reflexivity. Qed.

(** C9 (amended).  After a successful [fit] in which no candidate's
    error is NaN, the selected model is the head of the stored
    candidates, its score is at most every other candidate's score, and
    every candidate that was evaluated before it (in the order
    auto_arima, exponential_smoothing, tbats, ensemble) has a strictly
    greater score: among equal scores the one evaluated first is
    selected.  (An infinite score is a score like any other: it is
    above every number.) *)
Theorem winner_is_best (df : DataFrame) (column : string)
        (exog : exog_arg) (s s' : AutoTS Model) :
  fit F df column exog s = (Return tt, s') ->
  no_NaN_score (candidate_models s') ->
  ranked F s s'.
Proof.
  intros H Hn. apply fit_inv in H.
  destruct H as (_ & pre & w & rest & Hb & Hs & ->).
  pose proof (sorted_perm _ Hs) as Hperm.
  simpl in Hn.
  assert (Hnp : no_NaN_score pre).
  { unfold no_NaN_score in *.
    eapply Permutation_Forall; [apply Permutation_sym; exact Hperm|].
    exact Hn. }
  destruct (sorted_head Hnp Hs) as (l1 & l2 & El & H1 & H2).
  exists w, rest, pre, l1, l2. simpl.
  repeat split; auto.
  - intros c Hc.
    assert (Hin : In c (l1 ++ l2)).
    { apply Permutation_in with (l := rest); [|assumption].
      apply Permutation_cons_inv with (a := w).
      rewrite <- Hperm, El. symmetry. apply Permutation_middle. }
    apply in_app_or in Hin. destruct Hin as [Hin|Hin].
    + apply below_at_most. now apply H1.
    + now apply H2.
  - rewrite (built_names Hb), candidates_prepared, requested_prepared.
    destruct exog; reflexivity.
Qed.

End Ranking.

Lemma fit_six_months :
  fit Naive.forecasters Naive.six_months "y" ExogNone
      (Naive.fresh Naive.all_models "mase" 4)
  = (Return tt, Naive.fitted_six).
Proof. vm_compute. reflexivity. Qed.

Lemma winner_is_best_witness :
  ranked Naive.forecasters (Naive.fresh Naive.all_models "mase" 4)
         Naive.fitted_six.
Proof.
  apply (@winner_is_best Naive.Model Naive.forecasters Naive.six_months "y"
           ExogNone (Naive.fresh Naive.all_models "mase" 4) Naive.fitted_six).
  - exact fit_six_months.
  - vm_compute. repeat constructor; discriminate.
Defined.

(** [sorted] on keys that hold a NaN, as CPython's [sorted] returns them:
    a NaN stays where the comparisons, all false, leave it. *)
Lemma sorted_with_NaN_keys :
  (r <- sorted [Naive.keyed "a" NaN; Naive.keyed "b" (Fin (of_Z 1));
                Naive.keyed "c" (Fin (of_Z 2)); Naive.keyed "d" (Fin (of_Z 3))] ;;
   Return (map (@c_name Naive.Model) r))
  = Return ["a"; "b"; "c"; "d"]
  /\ (r <- sorted [Naive.keyed "a" (Fin (of_Z 3)); Naive.keyed "b" (Fin (of_Z 2));
                   Naive.keyed "c" NaN; Naive.keyed "d" (Fin (of_Z 1));
                   Naive.keyed "e" (Fin (of_Z 2))] ;;
      Return (map (@c_name Naive.Model) r))
     = Return ["d"; "b"; "e"; "a"; "c"]
  /\ (r <- sorted [Naive.keyed "a" (Fin (of_Z 2)); Naive.keyed "b" NaN;
                   Naive.keyed "c" (Fin (of_Z 1))] ;;
      Return (map (@c_name Naive.Model) r))
     = Return ["a"; "b"; "c"]
  /\ (r <- sorted [Naive.keyed "a" (Fin (of_Z 1)); Naive.keyed "b" NaN;
                   Naive.keyed "c" (Fin (of_Z 0)); Naive.keyed "d" PosInf;
                   Naive.keyed "e" NegInf; Naive.keyed "f" (Fin (of_Z 0))] ;;
      Return (map (@c_name Naive.Model) r))
     = Return ["a"; "b"; "e"; "c"; "f"; "d"].
Proof.
  repeat split; vm_compute; reflexivity.
Qed.

(** C9 as stated fails: with a holdout of one observation the scale
    factor of [mase] is 0/0, the tbats candidate's error is NaN, and the
    fit succeeds all the same.  The selected auto_arima candidate's score
    is then not at most the score of the tbats candidate: NaN is not
    ordered. *)
Lemma fit_ranks_a_NaN_score :
  fit Naive.forecasters Naive.six_months "y" ExogNone
      (Naive.fresh ["auto_arima"; "tbats"] "mase" 1)
  = (Return tt, Naive.fitted_holdout_one)
  /\ (exists x,
         map (fun c => (c_name c, c_error c))
             (candidate_models Naive.fitted_holdout_one)
         = [("auto_arima", Score (Fin x)); ("tbats", Score NaN)])
  /\ ~ ranked Naive.forecasters
              (Naive.fresh ["auto_arima"; "tbats"] "mase" 1)
              Naive.fitted_holdout_one.
Proof.
  split; [vm_compute; reflexivity|].
  assert (E : exists a b x,
             candidate_models Naive.fitted_holdout_one = [a; b]
             /\ c_name a = "auto_arima" /\ c_error a = Score (Fin x)
             /\ c_name b = "tbats" /\ c_error b = Score NaN).
  { vm_compute. do 3 eexists. split; [reflexivity|].
    repeat split; reflexivity. }
  destruct E as (a & b & x & E & Hna & Hea & Hnb & Heb).
  rewrite E. split.
  - exists x. cbn [map]. now rewrite Hna, Hnb, Hea, Heb.
  - intros (w & rest & pre & l1 & l2 & Hc & _ & _ & _ & _ & Hall & _).
    rewrite E in Hc. injection Hc as <- <-.
    destruct (Hall b (or_introl eq_refl)) as (u & v & _ & Hv & Hle).
    rewrite Heb in Hv. injection Hv as <-.
    destruct u; exact Hle.
Qed.

(** ** Fitting an object again *)

Section Refit.

Variable Model : Type.
Variable F : Forecasters Model.

(** Every successful [fit] adds one candidate per requested name to the
    candidates the object already holds. *)
Lemma fit_adds_candidates df column exog (s s' : AutoTS Model) :
  fit F df column exog s = (Return tt, s') ->
  length (candidate_models s')
  = (length (candidate_models s) + length (requested s))%nat.
Proof.
  intros H. apply fit_inv in H.
  destruct H as (_ & pre & w & rest & Hb & Hs & ->).
  change (candidate_models (selected w rest (prepared df column exog s)))
    with (w :: rest).
  apply sorted_perm in Hs. rewrite <- (Permutation_length Hs).
  rewrite <- (length_map (@c_name Model) pre), (built_names Hb).
  rewrite length_app, length_map, candidates_prepared, requested_prepared.
  reflexivity.
Qed.

End Refit.

(** C2 fails on the code.  An object configured with the single model
    [exponential_smoothing] is fitted on one series and then on another:
    both calls succeed, the object then holds two candidates for its one
    model name, and the selected model is the one fitted on the first
    series, although the data of the object is the second. *)
Theorem refit_keeps_stale_candidates :
  fit Naive.forecasters Naive.six_months "y" ExogNone
      (Naive.fresh ["exponential_smoothing"] "mase" 4)
  = (Return tt, Naive.fitted_once)
  /\ fit Naive.forecasters Naive.other_six "y" ExogNone Naive.fitted_once
     = (Return tt, Naive.fitted_twice)
  /\ model_names Naive.fitted_twice = ["exponential_smoothing"]
  /\ map (@c_name Naive.Model) (candidate_models Naive.fitted_twice)
     = ["exponential_smoothing"; "exponential_smoothing"]
  /\ data Naive.fitted_twice = Some Naive.other_six
  /\ fit_model Naive.fitted_twice = Some Naive.six_series.
Proof.
  split; [vm_compute; reflexivity|].
  split; [vm_compute; reflexivity|].
  split; [vm_compute; reflexivity|].
  split; [vm_compute; reflexivity|].
  split; vm_compute; reflexivity.
Qed.

(** ** A column name given as a string for [exogenous] *)

Section StringExogenous.

Variable Model : Type.
Variable F : Forecasters Model.



End StringExogenous.



(** ** The table each candidate is scored on *)

Lemma frame_of_series_array_columns n1 s n2 a df :
  frame_of_series_array n1 s n2 a = Return df -> n1 <> n2 ->
  getitem df n1 = Return s
  /\ getitem df n2 = Return (combine (s_index s) a).
Proof.
  unfold frame_of_series_array.
  destruct (Nat.eqb (length a) (length s)) eqn:E; [|discriminate].
  apply Nat.eqb_eq in E. intros H Hne. injection H as <-.
  unfold getitem. simpl. rewrite String.eqb_refl.
  apply not_eq_sym in Hne. apply String.eqb_neq in Hne. rewrite Hne.
  rewrite String.eqb_refl. simpl. rewrite !map_map. unfold cell. simpl.
  clear Hne. split; apply f_equal.
  - revert a E. induction s as [|[t v] s IH]; intros [|x a] E; simpl in *;
      try discriminate; auto.
    f_equal. apply IH. lia.
  - unfold s_index. revert a E.
    induction s as [|[t v] s IH]; intros [|x a] E; simpl in *;
      try discriminate; auto.
    f_equal. apply IH. lia.
Qed.

Lemma index_iloc_from d h :
  0 < h <= len d ->
  index (iloc_from d (- h)) = holdout_index d h
  /\ len (iloc_from d (- h)) = h.
Proof.
  unfold len, iloc_from, holdout_index, index, slice_bound, len. simpl.
  intros H.
  replace (- h <? 0) with true by (symmetry; apply Z.ltb_lt; lia).
  replace (Z.to_nat (Z.max (Z.of_nat (length (rows d)) + - h) 0))
    with (length (rows d) - Z.to_nat h)%nat by lia.
  split; [now rewrite skipn_map|].
  rewrite length_skipn. lia.
Qed.

Section ScoredTables.

Variable Model : Type.
Variable F : Forecasters Model.
Implicit Types (s : AutoTS Model) (c : Candidate Model).

Lemma error_metric_result df p a s sc s' :
  _error_metric df p a s = (Return sc, s') ->
  _error_metric df p a s = (Return sc, s).
Proof.
  intros H. pose proof (pure_error_metric df p a s) as Hp.
  rewrite H in Hp. simpl in Hp. now subst s'.
Qed.

(** The ARIMA candidate of [fit] is scored on the whole series: one row
    per timestamp of the data, holding the observed value and the model's
    in-sample prediction. *)
Lemma fit_auto_arima_scored s d column c s' :
  data s = Some d -> series_column_name s = Some column ->
  _fit_auto_arima F true s = (Return c, s') ->
  index (c_predictions c) = index d
  /\ getitem (c_predictions c) "actuals" = getitem d column
  /\ (exists m x preds,
         c_model c = Some m
         /\ predict_in_sample F m None None x = Return preds
         /\ getitem (c_predictions c) "aa_test_predictions"
            = Return (combine (index d) preds))
  /\ _error_metric (c_predictions c) "aa_test_predictions" "actuals" s
     = (Return (c_error c), s).
Proof.
  intros Hd Hcol H. unfold _fit_auto_arima in H.
  inv_step H. rewrite Hd in H. inv_step H. injection H0 as <-.
  rewrite Hcol in H. inv_step H. injection H0 as <-.
  inv_step H.
  match type of H with
  | context [let '(_, _) := ?x in _] => destruct x as [train_exog test_exog]
  end.
  assert (Es : s0 = s).
  { match type of H0 with
    | ?c ?x = _ =>
        assert (Hs : snd (c x) = x)
          by (destruct (using_exogenous s); pure_tac)
    end.
    rewrite H0 in Hs. exact Hs. }
  subst s0. clear H0.
  apply bindM_inv in H. destruct H as (m & s1 & Hm & H).
  apply lift_inv in Hm. destruct Hm as [Hm ->].
  apply bindM_inv in H. destruct H as (tp & s1 & Htp & H).
  apply bindM_inv in Htp. destruct Htp as (ys & s2 & Hys & Htp).
  apply lift_inv in Hys. destruct Hys as [Hys ->].
  apply bindM_inv in Htp. destruct Htp as (ps & s2 & Hps & Htp).
  apply lift_inv in Hps. destruct Hps as [Hps ->].
  apply lift_inv in Htp. destruct Htp as [Htp ->].
  apply bindM_inv in H. destruct H as (sc & s2 & Hsc & H).
  apply ret_inv in H. destruct H as [-> ->]. simpl.
  destruct (frame_of_series_array_shape _ _ _ _ Htp) as (_ & _ & Hi & _).
  destruct (@frame_of_series_array_columns _ _ _ _ _ Htp) as [Ha Hp];
    [discriminate|].
  destruct (@getitem_shape _ _ _ Hys) as [_ Hidx].
  split; [congruence|]. split; [congruence|]. split.
  - exists m, train_exog, ps. repeat split; auto. now rewrite Hp, Hidx.
  - eapply error_metric_result; eauto.
Qed.

(** The BATS candidate is scored on the holdout: the last
    [holdout_period] timestamps, with the observed value and one
    forecast per row. *)
Lemma fit_tbats_scored s d column c s' b :
  data s = Some d -> series_column_name s = Some column ->
  testing_data s = Some (iloc_from d (- holdout_period s)) ->
  0 < holdout_period s <= len d ->
  _fit_tbats F true b s = (Return c, s') ->
  index (c_predictions c) = holdout_index d (holdout_period s)
  /\ getitem (c_predictions c) "actuals"
     = getitem (iloc_from d (- holdout_period s)) column
  /\ (exists m preds,
         c_model c = Some m
         /\ forecast F m (holdout_period s) = Return preds
         /\ getitem (c_predictions c) "tb_test_predictions"
            = Return (combine (holdout_index d (holdout_period s)) preds))
  /\ _error_metric (c_predictions c) "tb_test_predictions" "actuals" s
     = (Return (c_error c), s).
Proof.
  intros Hd Hcol Ht Hh H. unfold _fit_tbats in H.
  destruct (index_iloc_from d Hh) as [Hidx Hlen].
  inv_step H. cbv zeta in H. rewrite Hd, Hcol, Ht in H.
  inv_step H.
  inv_step H. injection H1 as <-.
  inv_step H. injection H1 as <-.
  do 2 inv_step H.
  inv_step H. injection H3 as <-.
  do 3 inv_step H.
  apply bindM_inv in H. destruct H as (sc & s2 & Hsc & H).
  apply ret_inv in H. destruct H as [-> ->]. simpl.
  match goal with
  | Hx : frame_of_series_array _ _ _ _ = Return _ |- _ =>
      destruct (frame_of_series_array_shape _ _ _ _ Hx) as (_ & _ & Hi & _);
      destruct (@frame_of_series_array_columns _ _ _ _ _ Hx) as [Ha Hp];
      [discriminate|]
  end.
  match goal with
  | Hx : getitem (iloc_from _ _) _ = Return _ |- _ =>
      destruct (@getitem_shape _ _ _ Hx) as [_ Hidx'];
      rewrite Hx
  end.
  rewrite Hlen in *.
  split; [congruence|]. split; [congruence|]. split.
  - eexists _, _. repeat split; eauto. rewrite Hp. congruence.
  - eapply error_metric_result; eauto.
Qed.

End ScoredTables.

Lemma insert_dt_In x d l :
  In x (d :: l) -> In x (insert_dt d l).
Proof.
  induction l as [|y l IH]; simpl; intros H.
  - destruct H as [H|[]]; auto.
  - destruct (dt_ltb y d).
    + destruct H as [<-|[<-|H]]; simpl.
      * right. apply IH. now left.
      * now left.
      * right. apply IH. now right.
    + destruct (dt_eqb y d) eqn:E.
      * apply dt_eqb_eq in E. subst y.
        destruct H as [<-|[<-|H]]; simpl; auto.
      * destruct H as [<-|[<-|H]]; simpl; auto.
Qed.

Lemma sorted_union_In x a b : In x (a ++ b) -> In x (sorted_union a b).
Proof.
  unfold sorted_union. induction (a ++ b) as [|d l IH]; simpl; auto.
  intros [<-|H]; apply insert_dt_In; simpl; auto.
Qed.

Lemma dt_list_eqb_eq a b : dt_list_eqb a b = true -> a = b.
Proof.
  unfold dt_list_eqb. revert b.
  induction a as [|x a IH]; intros [|y b] H; simpl in *;
    try discriminate; auto.
  apply andb_prop in H. destruct H as [Hl H].
  apply andb_prop in H. destruct H as [Hx H].
  apply dt_eqb_eq in Hx. subst y. f_equal. apply IH.
  now rewrite Hl, H.
Qed.

Lemma index_union_incl_l a b : incl a (index_union a b).
Proof.
  unfold index_union, incl. intros x Hx.
  destruct (dt_list_eqb a b); [assumption|].
  destruct a as [|a0 a]; [destruct Hx|].
  destruct b as [|b0 b]; [assumption|].
  apply sorted_union_In. apply in_or_app. now left.
Qed.

Lemma lookup_In t x (s : Series) :
  has_duplicates (s_index s) = false -> In (t, x) s -> lookup t s = x.
Proof.
  induction s as [|[k v] s IH]; simpl; intros Hd Hin; [destruct Hin|].
  apply orb_false_iff in Hd. destruct Hd as [Hk Hd].
  destruct Hin as [E|Hin].
  - injection E as -> ->. now rewrite (proj2 (dt_eqb_eq t t) eq_refl).
  - destruct (dt_eqb k t) eqn:Ek; [|now apply IH].
    apply dt_eqb_eq in Ek. subst k. exfalso.
    assert (Hex : existsb (dt_eqb t) (s_index s) = true).
    { apply existsb_exists. exists t. split.
      - unfold s_index. apply in_map_iff. exists (t, x). auto.
      - now apply dt_eqb_eq. }
    rewrite Hex in Hk. discriminate.
Qed.

Lemma combine_index_values (s : Series) : combine (s_index s) (s_values s) = s.
Proof.
  unfold s_index, s_values. induction s as [|[t v] s IH]; simpl; congruence.
Qed.

(** A series aligned on labels that include its own keeps its entries. *)
Lemma reindex_keeps (s : Series) idx v :
  reindex s idx = Return v -> incl (s_index s) idx ->
  incl s (combine idx v).
Proof.
  unfold reindex. destruct (dt_list_eqb (s_index s) idx) eqn:E.
  - intros H _. injection H as <-. apply dt_list_eqb_eq in E. subst idx.
    rewrite combine_index_values. apply incl_refl.
  - destruct (has_duplicates (s_index s)) eqn:Ed; [discriminate|].
    intros H Hincl. injection H as <-. intros [t x] Hin.
    rewrite <- (lookup_In _ _ _ Ed Hin).
    assert (Ht : In t idx).
    { apply Hincl. unfold s_index. apply in_map_iff. exists (t, x). auto. }
    clear - Ht. induction idx as [|d idx IH]; simpl in *; [destruct Ht|].
    destruct Ht as [->|Ht]; [now left | right; now apply IH].
Qed.

Lemma frame_of_two_series_first n1 s1 n2 s2 df :
  frame_of_two_series n1 s1 n2 s2 = Return df ->
  exists v1,
    reindex s1 (index_union (s_index s1) (s_index s2)) = Return v1
    /\ getitem df n1
       = Return (combine (index_union (s_index s1) (s_index s2)) v1).
Proof.
  unfold frame_of_two_series.
  destruct (reindex s1 _) as [v1|] eqn:E1; [|discriminate].
  destruct (reindex s2 _) as [v2|] eqn:E2; [|discriminate].
  simpl. intros H. injection H as <-. exists v1. split; [reflexivity|].
  apply reindex_length in E1. apply reindex_length in E2.
  unfold getitem. simpl. rewrite String.eqb_refl. apply f_equal.
  rewrite map_map. unfold cell. simpl.
  set (idx := index_union (s_index s1) (s_index s2)) in *.
  clearbody idx. clear - E1 E2. revert v1 v2 E1 E2.
  induction idx as [|d idx IH]; intros [|x v1] [|y v2] E1 E2;
    simpl in *; try discriminate; auto.
  f_equal. apply IH; lia.
Qed.

Section ScoredTablesES.

Variable Model : Type.
Variable F : Forecasters Model.
Implicit Types (s : AutoTS Model) (c : Candidate Model).

(** The exponential-smoothing candidate is scored on a table that holds
    the holdout timestamps with their observed values. *)
Lemma fit_exponential_smoothing_scored s d column c s' :
  data s = Some d -> series_column_name s = Some column ->
  testing_data s = Some (iloc_from d (- holdout_period s)) ->
  0 < holdout_period s <= len d ->
  _fit_exponential_smoothing F true s = (Return c, s') ->
  incl (holdout_index d (holdout_period s)) (index (c_predictions c))
  /\ (exists observed actuals,
         getitem (iloc_from d (- holdout_period s)) column = Return observed
         /\ s_index observed = holdout_index d (holdout_period s)
         /\ getitem (c_predictions c) "actuals" = Return actuals
         /\ incl observed actuals)
  /\ _error_metric (c_predictions c) "es_test_predictions" "actuals" s
     = (Return (c_error c), s).
Proof.
  intros Hd Hcol Ht Hh H. unfold _fit_exponential_smoothing in H.
  destruct (index_iloc_from d Hh) as [Hidx Hlen].
  inv_step H. rewrite Hd, Hcol, Ht in H.
  inv_step H. injection H0 as <-.
  inv_step H. injection H0 as <-.
  do 2 inv_step H.
  inv_step H. injection H2 as <-.
  do 4 inv_step H.
  apply bindM_inv in H. destruct H as (sc & s2 & Hsc & H).
  apply ret_inv in H. destruct H as [-> ->]. simpl.
  match goal with
  | Hx : frame_of_two_series _ _ _ _ = Return _ |- _ =>
      destruct (frame_of_two_series_shape _ _ _ _ Hx) as (_ & _ & Hi);
      destruct (frame_of_two_series_first _ _ _ _ Hx) as (v1 & Hv1 & Hg)
  end.
  match goal with
  | Hx : getitem (iloc_from _ _) _ = Return _ |- _ =>
      destruct (@getitem_shape _ _ _ Hx) as [_ Hidx'];
      rename Hx into Hobs
  end.
  split; [|split; [|eapply error_metric_result; eauto]].
  - rewrite Hi, Hidx', Hidx. apply index_union_incl_l.
  - eexists _, _. split; [exact Hobs|]. split; [congruence|].
    split; [exact Hg|].
    apply reindex_keeps; [exact Hv1 | apply index_union_incl_l].
Qed.

(** C1 (amended).  On an object prepared by [fit] (data [d], holdout
    period [h] with 0 < h <= len d), every candidate is scored on the
    table it stores.  For auto_arima that table holds every timestamp of
    the series, with the observed value and one in-sample prediction
    each; for tbats it holds exactly the last [h] timestamps, with the
    observed value and one forecast each; for exponential_smoothing it
    holds the last [h] timestamps with their observed values. *)
Theorem candidates_scored_tables s d column :
  data s = Some d -> series_column_name s = Some column ->
  testing_data s = Some (iloc_from d (- holdout_period s)) ->
  0 < holdout_period s <= len d ->
  (forall c s',
      _fit_auto_arima F true s = (Return c, s') ->
      index (c_predictions c) = index d
      /\ getitem (c_predictions c) "actuals" = getitem d column
      /\ (exists m x preds,
             c_model c = Some m
             /\ predict_in_sample F m None None x = Return preds
             /\ getitem (c_predictions c) "aa_test_predictions"
                = Return (combine (index d) preds))
      /\ _error_metric (c_predictions c) "aa_test_predictions" "actuals" s
         = (Return (c_error c), s))
  /\ (forall c s' b,
         _fit_tbats F true b s = (Return c, s') ->
         index (c_predictions c) = holdout_index d (holdout_period s)
         /\ getitem (c_predictions c) "actuals"
            = getitem (iloc_from d (- holdout_period s)) column
         /\ (exists m preds,
                c_model c = Some m
                /\ forecast F m (holdout_period s) = Return preds
                /\ getitem (c_predictions c) "tb_test_predictions"
                   = Return (combine (holdout_index d (holdout_period s))
                                     preds))
         /\ _error_metric (c_predictions c) "tb_test_predictions"
              "actuals" s
            = (Return (c_error c), s))
  /\ (forall c s',
         _fit_exponential_smoothing F true s = (Return c, s') ->
         incl (holdout_index d (holdout_period s))
              (index (c_predictions c))
         /\ (exists observed actuals,
                getitem (iloc_from d (- holdout_period s)) column
                = Return observed
                /\ s_index observed = holdout_index d (holdout_period s)
                /\ getitem (c_predictions c) "actuals" = Return actuals
                /\ incl observed actuals)
         /\ _error_metric (c_predictions c) "es_test_predictions"
              "actuals" s
            = (Return (c_error c), s)).
Proof.
  intros Hd Hcol Ht Hh. split; [|split].
  - intros c s' H. eapply fit_auto_arima_scored; eauto.
  - intros c s' b H. eapply fit_tbats_scored; eauto.
  - intros c s' H. eapply fit_exponential_smoothing_scored; eauto.
Qed.

End ScoredTablesES.

Lemma candidates_scored_tables_witness :
  exists ca ce ct,
    fst (_fit_auto_arima Naive.forecasters true Naive.prepared_six)
    = Return ca
    /\ fst (_fit_exponential_smoothing Naive.forecasters true
              Naive.prepared_six) = Return ce
    /\ fst (_fit_tbats Naive.forecasters true true Naive.prepared_six)
       = Return ct
    /\ index (c_predictions ca) = index Naive.six_months
    /\ index (c_predictions ct) = holdout_index Naive.six_months 4
    /\ incl (holdout_index Naive.six_months 4) (index (c_predictions ce))
    /\ (exists observed actuals,
           getitem (iloc_from Naive.six_months (- 4)) "y" = Return observed
           /\ getitem (c_predictions ce) "actuals" = Return actuals
           /\ incl observed actuals).
Proof.
  destruct (@candidates_scored_tables Naive.Model Naive.forecasters
              Naive.prepared_six Naive.six_months "y")
    as (Ha & Ht & He).
  - reflexivity.
  - reflexivity.
  - reflexivity.
  - vm_compute. split; [reflexivity | discriminate].
  - destruct (_fit_auto_arima Naive.forecasters true Naive.prepared_six)
      as [[ca|] sa] eqn:Ea; [|vm_compute in Ea; discriminate].
    destruct (_fit_exponential_smoothing Naive.forecasters true
                Naive.prepared_six)
      as [[ce|] se] eqn:Ee; [|vm_compute in Ee; discriminate].
    destruct (_fit_tbats Naive.forecasters true true Naive.prepared_six)
      as [[ct|] st] eqn:Et; [|vm_compute in Et; discriminate].
    exists ca, ce, ct.
    destruct (Ha ca sa eq_refl) as [Hia _].
    destruct (Ht ct st true Et) as [Hit _].
    destruct (He ce se eq_refl)
      as (Hie & (observed & actuals & Ho & _ & Hg & Hincl) & _).
    repeat split; try assumption.
    exists observed, actuals. repeat split; assumption.
Defined.

(** C1 as stated fails: with a holdout of 4 out of 6 observations, the
    table the auto_arima candidate is scored on has all 6 timestamps of the
    series, not the last 4. *)
Lemma arima_scored_on_whole_series :
  exists c,
    In c (candidate_models Naive.fitted_six)
    /\ c_name c = "auto_arima"
    /\ length (index (c_predictions c)) = 6%nat
    /\ length (holdout_index Naive.six_months 4) = 4%nat
    /\ ~ scored_on_holdout (c_predictions c) "aa_test_predictions"
         Naive.six_months 4.
Proof.
  destruct (candidate_models Naive.fitted_six) as [|c l] eqn:E;
    [vm_compute in E; discriminate|].
  exists c. split; [now left|].
  vm_compute in E. injection E as <- _.
  split; [reflexivity|]. split; [reflexivity|]. split; [reflexivity|].
  intros [Hi _]. apply (f_equal (@length datetime)) in Hi.
  vm_compute in Hi. discriminate.
Qed.

(** The exponential-smoothing table of the same fit has the four holdout
    timestamps, and no prediction on the last of them: the model is asked
    for the positions [len(train) .. len(train) + holdout - 2]. *)
Lemma exponential_smoothing_misses_last_prediction :
  exists c,
    In c (candidate_models Naive.fitted_six)
    /\ c_name c = "exponential_smoothing"
    /\ index (c_predictions c) = holdout_index Naive.six_months 4
    /\ columns (c_predictions c) = ["actuals"; "es_test_predictions"]
    /\ last (map (fun r => cell 1 (snd r)) (rows (c_predictions c)))
            (Fin 0%Qc) = NaN.
Proof.
  destruct (candidate_models Naive.fitted_six) as [|c0 [|c l]] eqn:E;
    try (vm_compute in E; discriminate).
  exists c.
  split; [right; now left|].
  vm_compute in E. injection E as _ <- _.
  split; [reflexivity|].
  split; [vm_compute; reflexivity|].
  split; [reflexivity|].
  vm_compute. reflexivity.
Qed.

(** ** The merge of the candidates' tables *)

Lemma suffix_overlap_none sfx other cols :
  (forall c, In c cols -> ~ In c other) ->
  suffix_overlap sfx other cols = cols.
Proof.
  intros H. unfold suffix_overlap.
  induction cols as [|c cols IH]; simpl; auto.
  assert (E : str_in c other = false)
    by (apply str_in_false; apply H; now left).
  rewrite E. f_equal. apply IH. intros c' Hc'. apply H. now right.
Qed.

Lemma drop_actuals n T :
  table_shape n T -> n <> "actuals" ->
  exists R,
    drop_column T "actuals" = Return R /\ columns R = [n]
    /\ (forall t cells, In (t, cells) (rows R) ->
                        exists a p, cells = [p] /\ In (t, [a; p]) (rows T)).
Proof.
  intros [Hc Hw] Hn. unfold drop_column. rewrite Hc. simpl.
  eexists. split; [reflexivity|]. simpl. split; [reflexivity|].
  intros t cells Hin. apply in_map_iff in Hin.
  destruct Hin as [[t' cs] [E Hin]]. simpl in E. injection E as <- <-.
  unfold rows_of_width in Hw. rewrite Forall_forall in Hw.
  specialize (Hw _ Hin). simpl in Hw.
  destruct cs as [|a [|p [|x cs]]]; simpl in Hw; try discriminate.
  exists a, p. auto.
Qed.

Lemma row_from_two t T a p :
  In (t, [a; p]) (rows T) -> row_from t T p.
Proof. intros H. exists a, []. exact H. Qed.

Lemma merge_step ns Ts A n T :
  columns A = "actuals" :: ns -> merged_rows Ts A ->
  table_shape n T -> n <> "actuals" -> ~ In n ns ->
  exists A',
    merge_predictions A T = Return A'
    /\ columns A' = "actuals" :: (ns ++ [n])
    /\ merged_rows (Ts ++ [T]) A'.
Proof.
  intros Hc Hm Hs Hn Hnin.
  destruct (drop_actuals Hs Hn) as (R & Hd & HcR & HrR).
  unfold merge_predictions. rewrite Hd. simpl.
  eexists. split; [reflexivity|]. split.
  - unfold merge. simpl. rewrite Hc, HcR.
    rewrite suffix_overlap_none.
    2:{ intros c Hin [E|[]]. subst c. destruct Hin as [E|Hin];
          [now apply Hn | now apply Hnin]. }
    rewrite suffix_overlap_none.
    2:{ intros c [<-|[]] Hin. destruct Hin as [E|Hin];
          [now apply Hn | now apply Hnin]. }
    reflexivity.
  - unfold merged_rows, merge. simpl. intros t cells Hin.
    apply in_flat_map in Hin. destruct Hin as [[tl cl] [Hl Hin]].
    apply in_map_iff in Hin. destruct Hin as [[tr cr] [E Hr]].
    simpl in E. injection E as <- <-.
    apply filter_In in Hr. destruct Hr as [Hr Heq]. simpl in Heq.
    apply dt_eqb_eq in Heq. subst tr.
    destruct (Hm _ _ Hl) as (a & ps & -> & Hps).
    destruct (HrR _ _ Hr) as (a' & p & -> & Hp).
    exists a, (ps ++ [p]). split; [reflexivity|].
    apply Forall2_app; [assumption|].
    constructor; [|constructor]. eapply row_from_two; eauto.
Qed.

Lemma merge_fold ns' Ts' :
  Forall2 table_shape ns' Ts' ->
  forall ns Ts A,
    columns A = "actuals" :: ns -> merged_rows Ts A ->
    NoDup (ns ++ ns') -> ~ In "actuals" ns' ->
    exists A',
      fold_left (fun acc y => a <- acc ;; merge_predictions a y) Ts' (Return A)
      = Return A'
      /\ columns A' = "actuals" :: (ns ++ ns')
      /\ merged_rows (Ts ++ Ts') A'.
Proof.
  induction 1 as [|n T ns' Ts' Hs Hrest IH]; intros ns Ts A Hc Hm Hnd Hact.
  - exists A. simpl. rewrite !app_nil_r. auto.
  - simpl.
    assert (Hn : n <> "actuals") by (intros ->; apply Hact; now left).
    assert (Hnin : ~ In n ns).
    { apply NoDup_remove_2 in Hnd. intros Hin. apply Hnd.
      apply in_or_app. now left. }
    destruct (merge_step Hc Hm Hs Hn Hnin) as (A1 & E1 & Hc1 & Hm1).
    rewrite E1.
    destruct (IH (ns ++ [n]) (Ts ++ [T]) A1 Hc1 Hm1) as (A' & E & Hc' & Hm').
    + rewrite <- app_assoc. exact Hnd.
    + intros Hin. apply Hact. now right.
    + exists A'. rewrite <- !app_assoc in *. auto.
Qed.

(** The [reduce] of [_fit_ensemble] over the tables of the candidates. *)
Lemma reduce_merge ns Ts :
  Forall2 table_shape ns Ts -> Ts <> [] ->
  NoDup ns -> ~ In "actuals" ns ->
  exists A,
    reduce merge_predictions Ts = Return A
    /\ columns A = "actuals" :: ns
    /\ merged_rows Ts A.
Proof.
  intros H Hne Hnd Hact. destruct H as [|n T ns Ts Hs Hrest];
    [congruence|]. clear Hne.
  unfold reduce.
  destruct (@merge_fold ns Ts Hrest [n] [T] T) as (A & E & Hc & Hm).
  - now destruct Hs.
  - intros t cells Hin. destruct Hs as [_ Hw].
    unfold rows_of_width in Hw. rewrite Forall_forall in Hw.
    specialize (Hw _ Hin). simpl in Hw.
    destruct cells as [|a [|p [|x cs]]]; simpl in Hw; try discriminate.
    exists a, [p]. split; [reflexivity|].
    constructor; [|constructor]. eapply row_from_two; eauto.
  - exact Hnd.
  - intros Hin. apply Hact. now right.
  - exists A. auto.
Qed.

(** ** Selecting the prediction columns *)

Lemma find_col_app_here pre n rest :
  ~ In n pre -> find_col n (pre ++ n :: rest) = Some (length pre).
Proof.
  induction pre as [|c pre IH]; simpl; intros H.
  - now rewrite String.eqb_refl.
  - destruct (String.eqb_spec n c) as [->|Hne].
    + exfalso. apply H. now left.
    + rewrite IH; [reflexivity|]. intros Hin. apply H. now right.
Qed.

Lemma find_cols_positions ns :
  forall pre, NoDup (pre ++ ns) ->
              find_cols ns (pre ++ ns) = Some (seq (length pre) (length ns)).
Proof.
  induction ns as [|n ns IH]; intros pre Hnd; simpl; [reflexivity|].
  rewrite find_col_app_here.
  2:{ apply NoDup_remove_2 in Hnd. intros Hin. apply Hnd.
      apply in_or_app. now left. }
  replace (pre ++ n :: ns) with ((pre ++ [n]) ++ ns)
    by (now rewrite <- app_assoc).
  rewrite IH by (now rewrite <- app_assoc).
  rewrite length_app. simpl. now rewrite Nat.add_1_r.
Qed.

Lemma cells_by_position (pre l : list fval) :
  map (fun i => cell i (pre ++ l)) (seq (length pre) (length l)) = l.
Proof.
  revert pre. induction l as [|x l IH]; intros pre; simpl; [reflexivity|].
  f_equal.
  - unfold cell. rewrite app_nth2 by lia. now rewrite Nat.sub_diag.
  - replace (pre ++ x :: l) with ((pre ++ [x]) ++ l)
      by (now rewrite <- app_assoc).
    specialize (IH (pre ++ [x])). rewrite length_app in IH. simpl in IH.
    now rewrite Nat.add_1_r in IH.
Qed.

Lemma map_combine_self A B C (g : A -> B) (h : A * B -> C) (l : list A) :
  map h (combine l (map g l)) = map (fun x => h (x, g x)) l.
Proof.
  induction l as [|x l IH]; simpl; [reflexivity|]. now rewrite IH.
Qed.

Lemma filter_prediction_columns ns :
  Forall model_column ns ->
  filter (fun col => endswith col "predictions") ("actuals" :: ns) = ns.
Proof.
  intros H. simpl. induction H as [|n ns [He _] _ IH]; simpl; auto.
  rewrite He. now f_equal.
Qed.

(** On the merged table, the ensemble column is the mean of the predicted
    values of each row, and the table kept for the ensemble holds the
    actual value and that mean. *)
Lemma ensemble_columns ns Ts A :
  columns A = "actuals" :: ns -> merged_rows Ts A ->
  length ns = length Ts ->
  NoDup ns -> ~ In "actuals" ns -> Forall model_column ns ->
  exists sel out,
    getitem_list A (filter (fun col => endswith col "predictions")
                           (columns A)) = Return sel
    /\ getitem_list
         (set_column A "en_test_predictions"
                     (map (fun r => mean (snd r)) (rows sel)))
         ["actuals"; "en_test_predictions"] = Return out
    /\ columns out = ["actuals"; "en_test_predictions"]
    /\ rows out = map (fun r => (fst r, [hd NaN (snd r); mean (tl (snd r))]))
                      (rows A)
    /\ rows (set_column A "en_test_predictions"
                        (map (fun r => mean (snd r)) (rows sel)))
       = map (fun r => (fst r, snd r ++ [mean (tl (snd r))])) (rows A).
Proof.
  intros Hc Hm Hlen Hnd Hact Hcols.
  assert (Hrow : forall r, In r (rows A) ->
                           exists a ps, snd r = a :: ps
                                        /\ length ps = length ns).
  { intros [t cells] Hin. destruct (Hm _ _ Hin) as (a & ps & -> & Hps).
    exists a, ps. split; [reflexivity|].
    apply Forall2_length in Hps. lia. }
  assert (Hnd' : NoDup (["actuals"] ++ ns)).
  { simpl. constructor; assumption. }
  assert (Hnone : forall l, Forall model_column l ->
                            find_col "en_test_predictions" l = None).
  { induction 1 as [|n l [_ [Hne _]] _ IH]; [reflexivity|].
    change (find_col "en_test_predictions" (n :: l))
      with (if String.eqb "en_test_predictions" n then Some O
            else option_map S (find_col "en_test_predictions" l)).
    apply not_eq_sym in Hne. apply String.eqb_neq in Hne.
    now rewrite Hne, IH. }
  assert (Hnew : find_col "en_test_predictions" (columns A) = None).
  { rewrite Hc.
    change (find_col "en_test_predictions" ("actuals" :: ns))
      with (option_map S (find_col "en_test_predictions" ns)).
    now rewrite Hnone. }
  assert (Hsel : getitem_list A (filter (fun col => endswith col "predictions")
                                        (columns A))
                 = Return (mkdf (is_datetime_index A) ns
                             (map (fun r => (fst r, tl (snd r))) (rows A)))).
  { rewrite Hc, filter_prediction_columns by assumption.
    unfold getitem_list. rewrite Hc.
    change ("actuals" :: ns) with (["actuals"] ++ ns).
    rewrite (find_cols_positions ns ["actuals"] Hnd').
    f_equal. f_equal. apply map_ext_in. intros r Hin.
    destruct (Hrow r Hin) as (a & ps & E & Hl). rewrite E. simpl tl.
    f_equal. rewrite <- Hl. exact (cells_by_position [a] ps). }
  set (Sel := mkdf (is_datetime_index A) ns
                   (map (fun r => (fst r, tl (snd r))) (rows A))) in *.
  assert (Hvals : map (fun r : datetime * list fval => mean (snd r)) (rows Sel)
                  = map (fun r => mean (tl (snd r))) (rows A)).
  { unfold Sel. simpl. now rewrite map_map. }
  set (A1 := set_column A "en_test_predictions"
               (map (fun r => mean (tl (snd r))) (rows A))).
  assert (Hset : rows A1
                 = map (fun r => (fst r, snd r ++ [mean (tl (snd r))]))
                       (rows A)).
  { unfold A1, set_column. rewrite Hnew. simpl.
    now rewrite map_combine_self. }
  assert (Hcset : columns A1 = "actuals" :: ns ++ ["en_test_predictions"]).
  { unfold A1, set_column. rewrite Hnew. simpl. now rewrite Hc. }
  assert (Hdt : is_datetime_index A1 = is_datetime_index A)
    by (unfold A1, set_column; now rewrite Hnew).
  exists Sel.
  exists (mkdf (is_datetime_index A) ["actuals"; "en_test_predictions"]
               (map (fun r => (fst r, [hd NaN (snd r); mean (tl (snd r))]))
                    (rows A))).
  split; [exact Hsel|]. rewrite Hvals. fold A1.
  split; [|split; [reflexivity|split; [reflexivity|exact Hset]]].
  unfold getitem_list. rewrite Hcset. simpl find_cols.
  assert (Hpos : find_col "en_test_predictions"
                          (ns ++ ["en_test_predictions"])
                 = Some (length ns))
    by (apply find_col_app_new; now apply Hnone).
  rewrite Hpos. simpl. f_equal.
  rewrite Hdt, Hset. f_equal. rewrite map_map. simpl.
  apply map_ext_in. intros r Hin.
  destruct (Hrow r Hin) as (a & ps & E & Hl). rewrite E. simpl.
  f_equal. f_equal. f_equal.
  unfold cell. simpl. rewrite app_nth2 by lia.
  replace (length ns - length ps)%nat with O by lia. reflexivity.
Qed.

(** ** The ensemble candidate *)

Section Ensemble.

Variable Model : Type.
Variable F : Forecasters Model.
Implicit Types (s : AutoTS Model) (c e : Candidate Model).

Lemma fit_ensemble_inv s e s' :
  _fit_ensemble s = (Return e, s') ->
  exists A sel out,
    reduce merge_predictions
           (map (@c_predictions Model) (candidate_models s)) = Return A
    /\ getitem_list A (filter (fun col => endswith col "predictions")
                              (columns A)) = Return sel
    /\ getitem_list
         (set_column A "en_test_predictions"
                     (map (fun r => mean (snd r)) (rows sel)))
         ["actuals"; "en_test_predictions"] = Return out
    /\ c_predictions e = out
    /\ s' = match candidate_models s with
            | [c] => set_candidate_models
                       [mkcand (c_error c) (c_model c) (c_name c)
                          (set_column A "en_test_predictions"
                             (map (fun r => mean (snd r)) (rows sel)))] s
            | _ => s
            end.
Proof.
  intros H. unfold _fit_ensemble in H.
  do 3 inv_step H.
  apply bindM_inv in H. destruct H as (u & s1 & Hal & H).
  apply bindM_inv in H. destruct H as (err & s2 & Herr & H).
  assert (s2 = s1)
    by (apply (f_equal snd) in Herr; rewrite pure_error_metric in Herr;
        simpl in Herr; congruence).
  subst s2. inv_step H. apply ret_inv in H. destruct H as [-> ->].
  exists a, a0, a1. simpl. repeat split; auto.
  destruct (candidate_models s) as [|c0 [|c1 r]].
  - apply ret_inv in Hal. now destruct Hal.
  - now apply modify_inv in Hal.
  - apply ret_inv in Hal. now destruct Hal.
Qed.

(** The ensemble over candidates whose tables have the two columns of a
    model fit, under distinct prediction columns: each row of its table
    holds the mean of one predicted value per candidate, all at the
    timestamp of the row. *)
Lemma fit_ensemble_mean s e s' ns :
  Forall2 table_shape ns
          (map (@c_predictions Model) (candidate_models s)) ->
  NoDup ns -> Forall model_column ns ->
  _fit_ensemble s = (Return e, s') ->
  columns (c_predictions e) = ["actuals"; "en_test_predictions"]
  /\ (forall t cells,
         In (t, cells) (rows (c_predictions e)) ->
         exists a ps,
           cells = [a; mean ps]
           /\ Forall2 (predicted_at t) (candidate_models s') ps)
  /\ exists l, s' = set_candidate_models l s
               /\ kept l (candidate_models s)
               /\ l <> [].
Proof.
  intros Hshape Hnd Hcols H.
  apply fit_ensemble_inv in H.
  destruct H as (A & sel & out & Hred & Hsel & Hout & He & Hs').
  assert (Hact : ~ In "actuals" ns).
  { intros Hin. rewrite Forall_forall in Hcols.
    destruct (Hcols _ Hin) as (_ & _ & Hne). now apply Hne. }
  assert (Hne : map (@c_predictions Model) (candidate_models s) <> []).
  { intros E. rewrite E in Hred. discriminate. }
  destruct (reduce_merge Hshape Hne Hnd Hact) as (A' & Hred' & Hc & Hm).
  rewrite Hred in Hred'. injection Hred' as <-.
  assert (Hlen : length ns
                 = length (map (@c_predictions Model) (candidate_models s)))
    by (now apply Forall2_length in Hshape).
  destruct (ensemble_columns Hc Hm Hlen Hnd Hact Hcols)
    as (sel' & out' & Hsel' & Hout' & Hco & Hro & Hset).
  rewrite Hsel in Hsel'. injection Hsel' as <-.
  rewrite Hout in Hout'. injection Hout' as <-.
  split; [now rewrite He|].
  assert (Hrows : forall t cells,
             In (t, cells) (rows (c_predictions e)) ->
             exists a ps,
               cells = [a; mean ps]
               /\ In (t, a :: ps) (rows A)
               /\ Forall2 (row_from t)
                    (map (@c_predictions Model) (candidate_models s)) ps).
  { intros t cells Hin. rewrite He, Hro in Hin. apply in_map_iff in Hin.
    destruct Hin as [[t' cs] [E Hin]]. simpl in E. injection E as <- <-.
    destruct (Hm _ _ Hin) as (a & ps & -> & Hps).
    exists a, ps. auto. }
  destruct (candidate_models s) as [|c0 [|c1 r]] eqn:Ec.
  - exfalso. now apply Hne.
  - subst s'. split.
    + intros t cells Hin. destruct (Hrows t cells Hin) as (a & ps & -> & HA & Hps).
      exists a, ps. split; [reflexivity|]. simpl.
      inversion Hps as [|T p Ts ps' Hp Hnil]; subst.
      inversion Hnil; subst. constructor; [|constructor].
      unfold predicted_at, row_from. simpl. rewrite Hset.
      exists a, [mean [p]]. apply in_map_iff.
      exists (t, [a; p]). split; [reflexivity | assumption].
    + eexists. split; [reflexivity|]. split; [|discriminate].
      unfold kept. simpl. auto.
  - subst s'. split.
    + intros t cells Hin. destruct (Hrows t cells Hin) as (a & ps & -> & _ & Hps).
      exists a, ps. split; [reflexivity|]. rewrite Ec.
      clear - Hps. unfold predicted_at.
      remember (c0 :: c1 :: r) as l eqn:El. clear El.
      revert ps Hps. induction l as [|c l IH]; intros ps Hps;
        inversion Hps; subst; constructor; auto.
    + exists (c0 :: c1 :: r). rewrite <- Ec, set_candidate_models_same.
      split; [reflexivity|]. split; [apply kept_refl | rewrite Ec; discriminate].
Qed.

End Ensemble.

Lemma mean_complete (qs : list Qc) :
  qs <> [] -> mean (map Fin qs) = Fin (arithmetic_mean qs).
Proof.
  intros H. unfold mean, arithmetic_mean. rewrite dropna_map_Fin.
  destruct qs as [|q qs]; [congruence|].
  cbn [map]. change (Fin q :: map Fin qs) with (map Fin (q :: qs)).
  rewrite total_map_Fin, length_map.
  apply fdiv_Fin. intros E. apply of_Z_eq_0 in E. simpl in E. lia.
Qed.

Lemma model_columns_distinct (f : string -> bool) :
  NoDup (map predictions_column (filter f model_order))
  /\ Forall model_column (map predictions_column (filter f model_order)).
Proof.
  unfold model_order. simpl.
  destruct (f "auto_arima"), (f "exponential_smoothing"), (f "tbats");
    simpl; split;
    repeat constructor; simpl; try discriminate; intuition discriminate.
Qed.

Section EnsembleOfFit.

Variable Model : Type.
Variable F : Forecasters Model.

Lemma holdout_tables_shape (l : list (Candidate Model)) :
  Forall (@holdout_table Model) l ->
  Forall2 table_shape
          (map predictions_column (map (@c_name Model) l))
          (map (@c_predictions Model) l).
Proof.
  induction 1 as [|c l Hc _ IH]; simpl; constructor; auto.
Qed.

(** In a [fit] of an object without earlier candidates that builds the
    ensemble candidate, every row of the ensemble's table holds the mean
    of the predicted values that the other candidates (one per requested
    model) have at the timestamp of the row; the actual values take no
    part.  The mean is pandas' [mean]: over complete values it is their
    sum divided by their number, and a missing prediction is left out of
    it. *)
Lemma ensemble_rows_are_means (df : DataFrame) (column : string)
      (exog : exog_arg) (s s' : AutoTS Model) :
  fit F df column exog s = (Return tt, s') ->
  candidate_models s = [] ->
  str_in "ensemble" (model_names s) = true ->
  exists e others,
    Permutation (others ++ [e]) (candidate_models s')
    /\ c_name e = "ensemble"
    /\ map (@c_name Model) others
       = filter (fun n => str_in n (model_names s)) model_order
    /\ others <> []
    /\ columns (c_predictions e) = ["actuals"; "en_test_predictions"]
    /\ forall t cells,
         In (t, cells) (rows (c_predictions e)) ->
         exists a ps,
           cells = [a; mean ps]
           /\ Forall2 (predicted_at t) others ps
           /\ forall qs, ps = map Fin qs ->
                         mean ps = Fin (arithmetic_mean qs).
Proof.
  intros H Hold Hens. apply fit_inv in H.
  destruct H as (_ & pre & w & rest & Hb & Hs & ->).
  apply sorted_perm in Hs. apply built_inv in Hb.
  assert (Hmn : model_names (prepared df column exog s) = model_names s)
    by (destruct exog; reflexivity).
  rewrite candidates_prepared, Hold, Hmn in Hb. cbn [app] in Hb.
  destruct Hb as (l & Ht & Hn & [[E _]|[_ (e & l' & He & K & Hne & _ & ->)]]);
    [congruence|].
  destruct (model_columns_distinct (fun n => str_in n (model_names s)))
    as [Hnd Hcols].
  rewrite <- Hn in Hnd, Hcols.
  pose proof (holdout_tables_shape Ht) as Hshape.
  destruct (@fit_ensemble_mean Model
              (set_candidate_models l (prepared df column exog s)) e
              (set_candidate_models l' (prepared df column exog s))
              (map predictions_column (map (@c_name Model) l))
              Hshape Hnd Hcols He)
    as (Hce & Hrows & l2 & _ & _ & _).
  simpl in Hrows.
  exists e, l'. split; [exact Hs|]. split; [assumption|].
  destruct K as (K1 & _ & _). split; [now rewrite K1|].
  assert (Hl' : l' <> []).
  { intros ->. apply fit_ensemble_inv in He.
    destruct He as (A & _ & _ & Hred & _).
    simpl in Hred. destruct l; [discriminate | discriminate]. }
  split; [assumption|]. split; [assumption|].
  intros t cells Hin. destruct (Hrows t cells Hin) as (a & ps & -> & Hps).
  exists a, ps. split; [reflexivity|]. split; [assumption|].
  intros qs ->. apply mean_complete. intros ->.
  apply Forall2_length in Hps. simpl in Hps.
  destruct l'; [congruence | discriminate].
Qed.

End EnsembleOfFit.

(** C7 fails on the code.  Six monthly observations (1, 3, 2, 5, 4, 7 from
    January to June 2020) are fitted with auto_arima, exponential
    smoothing and the ensemble, on a holdout of 4.  The
    exponential-smoothing candidate has no prediction at the last holdout
    timestamp (it asks its model for the positions
    [len(train) .. len(train) + holdout - 2]), so that the ensemble's value
    for June is the auto_arima prediction alone, while for March, April
    and May it is the mean of the two predictions. *)
Theorem ensemble_misses_a_candidate :
  fit Naive.forecasters Naive.six_months "y" ExogNone
      (Naive.fresh ["auto_arima"; "exponential_smoothing"; "ensemble"]
                   "mase" 4)
  = (Return tt, Naive.fitted_two_and_ensemble)
  /\ map (fun c => (c_name c, rows (c_predictions c)))
         (candidate_models Naive.fitted_two_and_ensemble)
     = [("auto_arima",
         [(month_start 2020 1, [Fin (of_Z 1); Fin (of_Z 1)]);
          (month_start 2020 2, [Fin (of_Z 3); Fin (of_Z 3)]);
          (month_start 2020 3, [Fin (of_Z 2); Fin (of_Z 2)]);
          (month_start 2020 4, [Fin (of_Z 5); Fin (of_Z 5)]);
          (month_start 2020 5, [Fin (of_Z 4); Fin (of_Z 4)]);
          (month_start 2020 6, [Fin (of_Z 7); Fin (of_Z 7)])]);
        ("exponential_smoothing",
         [(month_start 2020 3, [Fin (of_Z 2); Fin (of_Z 2)]);
          (month_start 2020 4, [Fin (of_Z 5); Fin (of_Z 5)]);
          (month_start 2020 5, [Fin (of_Z 4); Fin (of_Z 4)]);
          (month_start 2020 6, [Fin (of_Z 7); NaN])]);
        ("ensemble",
         [(month_start 2020 3,
           [Fin (of_Z 2); Fin (arithmetic_mean [of_Z 2; of_Z 2])]);
          (month_start 2020 4,
           [Fin (of_Z 5); Fin (arithmetic_mean [of_Z 5; of_Z 5])]);
          (month_start 2020 5,
           [Fin (of_Z 4); Fin (arithmetic_mean [of_Z 4; of_Z 4])]);
          (month_start 2020 6,
           [Fin (of_Z 7); Fin (arithmetic_mean [of_Z 7])])])].
Proof.
  split; vm_compute; reflexivity.
Qed.

(** The same with the three models: for June the ensemble is the mean of
    the auto_arima and the tbats prediction. *)
Lemma ensemble_of_three_misses_a_candidate :
  fit Naive.forecasters Naive.six_months "y" ExogNone
      (Naive.fresh Naive.all_models "mase" 4)
  = (Return tt, Naive.fitted_six)
  /\ map (fun c => (c_name c, rows (c_predictions c)))
         (candidate_models Naive.fitted_six)
     = [("auto_arima",
         [(month_start 2020 1, [Fin (of_Z 1); Fin (of_Z 1)]);
          (month_start 2020 2, [Fin (of_Z 3); Fin (of_Z 3)]);
          (month_start 2020 3, [Fin (of_Z 2); Fin (of_Z 2)]);
          (month_start 2020 4, [Fin (of_Z 5); Fin (of_Z 5)]);
          (month_start 2020 5, [Fin (of_Z 4); Fin (of_Z 4)]);
          (month_start 2020 6, [Fin (of_Z 7); Fin (of_Z 7)])]);
        ("exponential_smoothing",
         [(month_start 2020 3, [Fin (of_Z 2); Fin (of_Z 2)]);
          (month_start 2020 4, [Fin (of_Z 5); Fin (of_Z 5)]);
          (month_start 2020 5, [Fin (of_Z 4); Fin (of_Z 4)]);
          (month_start 2020 6, [Fin (of_Z 7); NaN])]);
        ("ensemble",
         [(month_start 2020 3,
           [Fin (of_Z 2);
            Fin (arithmetic_mean [of_Z 2; of_Z 2; of_Z 7])]);
          (month_start 2020 4,
           [Fin (of_Z 5);
            Fin (arithmetic_mean [of_Z 5; of_Z 5; of_Z 7])]);
          (month_start 2020 5,
           [Fin (of_Z 4);
            Fin (arithmetic_mean [of_Z 4; of_Z 4; of_Z 7])]);
          (month_start 2020 6,
           [Fin (of_Z 7);
            Fin (arithmetic_mean [of_Z 7; of_Z 7])])]);
        ("tbats",
         [(month_start 2020 3, [Fin (of_Z 2); Fin (of_Z 7)]);
          (month_start 2020 4, [Fin (of_Z 5); Fin (of_Z 7)]);
          (month_start 2020 5, [Fin (of_Z 4); Fin (of_Z 7)]);
          (month_start 2020 6, [Fin (of_Z 7); Fin (of_Z 7)])])].
Proof.
  split; vm_compute; reflexivity.
Qed.

(* ================================================================== *)
(** * Further properties of the code *)

(** ** The split of the input ([_set_input_data]) *)

Lemma iloc_split d stop :
  rows (iloc_to d stop) ++ rows (iloc_from d stop) = rows d.
Proof.
  unfold iloc_to, iloc_from. simpl. apply firstn_skipn.
Qed.

(** Whatever the holdout period (zero, negative or larger than the
    series), [_set_input_data] stores the frame and splits its rows in two
    consecutive parts.  For a holdout period [h] with 0 < h <= len(data)
    the testing part has the last [h] rows; for [h = 0] the training part
    is empty and the testing part is the whole frame. *)
Theorem set_input_data_split (Model : Type) (s : AutoTS Model)
        (d : DataFrame) (column : string) :
  fst (_set_input_data d column s) = Return tt
  /\ data (snd (_set_input_data d column s)) = Some d
  /\ series_column_name (snd (_set_input_data d column s)) = Some column
  /\ exists tr te,
      training_data (snd (_set_input_data d column s)) = Some tr
      /\ testing_data (snd (_set_input_data d column s)) = Some te
      /\ rows tr ++ rows te = rows d
      /\ (0 < holdout_period s <= len d ->
          len te = holdout_period s /\ len tr = len d - holdout_period s)
      /\ (holdout_period s = 0 -> rows tr = [] /\ rows te = rows d).
Proof.
  unfold _set_input_data, bindM, get, modify. simpl.
  repeat split.
  exists (iloc_to d (- holdout_period s)), (iloc_from d (- holdout_period s)).
  split; [reflexivity|]. split; [reflexivity|].
  split; [apply iloc_split|]. split.
  - intros H. split; [now apply index_iloc_from|].
    unfold len, iloc_to, slice_bound, len in *. simpl.
    replace (- holdout_period s <? 0) with true
      by (symmetry; apply Z.ltb_lt; lia).
    rewrite length_firstn. lia.
  - intros H. rewrite H. unfold iloc_to, iloc_from, slice_bound. simpl.
    replace (Z.min 0 (len d)) with 0 by (unfold len; lia).
    simpl. auto.
Qed.

(** ** Construction *)

Lemma lower_valid_model n :
  In n Validation.valid_models -> lower n = n.
Proof.
  unfold Validation.valid_models. simpl.
  intros [<-|[<-|[<-|[<-|[]]]]]; reflexivity.
Qed.

Lemma check_models_valid a l :
  Validation.check_models a = Return l ->
  (a = Validation.ModelsTuple l \/ a = Validation.ModelsList l)
  /\ l <> [] /\ Forall (fun n => In n Validation.valid_models) l.
Proof.
  unfold Validation.check_models.
  destruct a as [l0|l0|]; try discriminate;
    (destruct (length l0 =? 0)%nat eqn:E0; [discriminate|];
     destruct (0 <? length (filter _ l0))%nat eqn:Ei; [discriminate|];
     destruct (_ && _); [discriminate|];
     intros H; injection H as <-;
     split; [auto|]; split;
     [ intros ->; discriminate
     | apply Forall_forall; intros n Hn;
       destruct (str_in n Validation.valid_models) eqn:Ev;
       [ now apply str_in_In
       | exfalso;
         assert (Hu : unsupported_name l0)
           by (exists n; split; [assumption | now apply str_in_false]);
         apply invalid_models_spec in Hu; congruence ] ]).
Qed.

(** The check of the model names is made on the names as given, before
    [__init__] lowers them: a construction that succeeds keeps the names
    unchanged (lowering is the identity on them), and the object starts
    unfitted and without candidates.  A name in another case is refused,
    although its lower-case form is a supported model. *)
Theorem init_keeps_names (Model : Type) (a : Validation.models_arg)
        (metric : string) (sp : option Z) (h : Z) (v : bool)
        (s : AutoTS Model) :
  __init__ Model a metric sp h v = Return s ->
  (a = Validation.ModelsTuple (model_names s)
   \/ a = Validation.ModelsList (model_names s))
  /\ Forall (fun n => In n Validation.valid_models) (model_names s)
  /\ is_fitted s = false
  /\ candidate_models s = []
  /\ raises (__init__ Model (Validation.ModelsTuple ["TBATS"]) metric sp h v).
Proof.
  unfold __init__. intros H.
  destruct (Validation.check_models a) as [l|e] eqn:E; [|discriminate].
  simpl in H. injection H as <-. simpl.
  apply check_models_valid in E. destruct E as (Ha & _ & Hv).
  assert (Hl : map lower l = l).
  { clear Ha. induction Hv as [|n l Hn _ IH]; simpl; [reflexivity|].
    now rewrite IH, lower_valid_model. }
  rewrite Hl. repeat split; auto.
  now exists ValueError.
Qed.

Lemma init_keeps_names_witness :
  model_names (Naive.fresh Naive.all_models "mase" 4) = Naive.all_models
  /\ is_fitted (Naive.fresh Naive.all_models "mase" 4) = false.
Proof.
  destruct (@init_keeps_names Naive.Model
              (Validation.ModelsTuple Naive.all_models) "mase" None 4 false
              (Naive.fresh Naive.all_models "mase" 4) eq_refl)
    as (_ & _ & Hf & _).
  split; [reflexivity | exact Hf].
Defined.

(** ** Arguments of [predict] *)

(** On a fitted object, a start or end date that is not a datetime makes
    [predict] raise [TypeError] and leaves the object as it was; on an
    object that is not fitted the [AttributeError] of the first check comes
    first, whatever the arguments. *)
Theorem predict_type_error (Model : Type) (F : Forecasters Model)
        (s : AutoTS Model) (start_date end_date : date_arg)
        (exog : option DataFrame) :
  (start_date = NotDatetime \/ end_date = NotDatetime) ->
  predict F start_date end_date exog s
  = (Raise (if is_fitted s then TypeError else AttributeError), s).
Proof.
  intros H. unfold predict.
  apply bindM_raise.
  unfold predict_checks, bindM, get, lift. simpl.
  destruct (is_fitted s); simpl; [|reflexivity].
  destruct H as [-> | ->]; [reflexivity|].
  destruct start_date; reflexivity.
Qed.

Lemma predict_type_error_witness :
  predict Naive.forecasters NotDatetime (IsDatetime (month_start 2020 3))
          None Naive.fitted_six
  = (Raise TypeError, Naive.fitted_six).
Proof.
  exact (@predict_type_error Naive.Model Naive.forecasters Naive.fitted_six
           NotDatetime (IsDatetime (month_start 2020 3)) None
           (or_introl eq_refl)).
Defined.

(** ** A request that starts on the last observed date *)

Lemma dt_ltb_irrefl d : dt_ltb d d = false.
Proof. unfold dt_ltb. now rewrite dt_compare_refl. Qed.

(** The third branch of the resolver is not only taken one month past the
    data, as its comment says: a request that starts exactly on the last
    observed date is out of sample too, whatever its end date.  The ARIMA
    path then makes no in-sample prediction: it forecasts
    [months(end - last) + 1] periods beyond the data and labels them from
    the last observed date on. *)
Theorem start_on_last_date_is_out_of_sample (Model : Type)
        (F : Forecasters Model) (self : AutoTS Model) (d : DataFrame)
        (m : Model) (last end_date : datetime) (exog : option DataFrame) :
  data self = Some d -> index_last d = Return last ->
  fit_model self = Some m ->
  classify last end_date last = FullyOutOfSample
  /\ _predict_auto_arima F last end_date last exog self
     = (preds <- arima_predict F m (months_between end_date last + 1) exog ;;
        series_of preds (date_range F last end_date), self).
Proof.
  intros Hd Hl Hm.
  assert (H : classify last end_date last = FullyOutOfSample)
    by (unfold classify; now rewrite dt_ltb_irrefl).
  split; [exact H|].
  rewrite (@predict_auto_arima_dispatch Model F self d last m last end_date
             exog Hd Hl Hm).
  unfold arima_action. now rewrite H.
Qed.

Lemma start_on_last_date_is_out_of_sample_witness :
  fst (_predict_auto_arima Naive.forecasters (month_start 2020 6)
         (month_start 2020 7) (month_start 2020 6) None Naive.fitted_six)
  = Return [(month_start 2020 6, Fin (of_Z 7));
            (month_start 2020 7, Fin (of_Z 7))].
Proof.
  destruct (@start_on_last_date_is_out_of_sample Naive.Model
              Naive.forecasters Naive.fitted_six Naive.six_months
              Naive.six_series (month_start 2020 6) (month_start 2020 7)
              None)
    as [_ H].
  - vm_compute. reflexivity.
  - vm_compute. reflexivity.
  - vm_compute. reflexivity.
  - rewrite H. vm_compute. reflexivity.
Defined.

(** ** The ranked list of candidates *)


(** After a successful [fit] in which no candidate's error is NaN, the
    whole list of candidates is stored in ascending order of error, and it
    holds the same candidates as were built (none is lost or repeated by
    the ranking). *)
Theorem fit_ranks_candidates (Model : Type) (F : Forecasters Model)
        (df : DataFrame) (column : string) (exog : exog_arg)
        (s s' : AutoTS Model) :
  fit F df column exog s = (Return tt, s') ->
  no_NaN_score (candidate_models s') ->
  ascending (candidate_models s')
  /\ exists pre, built F (prepared df column exog s) pre
                 /\ Permutation pre (candidate_models s').
Proof.
  intros H Hn. apply fit_inv in H.
  destruct H as (_ & pre & w & rest & Hb & Hs & ->).
  change (candidate_models (selected w rest (prepared df column exog s)))
    with (w :: rest) in *.
  pose proof (sorted_perm _ Hs) as Hp.
  split; [|eauto].
  apply sorted_ascending with (l := pre); [|assumption].
  unfold no_NaN_score in *. eapply Permutation_Forall;
    [apply Permutation_sym; exact Hp | exact Hn].
Qed.

Lemma fit_ranks_candidates_witness :
  ascending (candidate_models Naive.fitted_six).
Proof.
  destruct (@fit_ranks_candidates Naive.Model Naive.forecasters
              Naive.six_months "y" ExogNone
              (Naive.fresh Naive.all_models "mase" 4) Naive.fitted_six
              fit_six_months) as [H _].
  - vm_compute. repeat constructor; discriminate.
  - exact H.
Defined.

(** ** An error metric other than [mase] *)

Section OtherMetric.

Variable Model : Type.
Variable F : Forecasters Model.
Implicit Types (s : AutoTS Model) (c : Candidate Model).

Lemma error_metric_other df p a s sc s' :
  String.eqb (error_metric s) "mase" = false ->
  _error_metric df p a s = (Return sc, s') -> sc = NoScore.
Proof.
  intros Hm H. unfold _error_metric in H. inv_step H.
  rewrite Hm in H. apply ret_inv in H. now destruct H.
Qed.

Lemma fit_auto_arima_other b s c s' :
  String.eqb (error_metric s) "mase" = false ->
  _fit_auto_arima F b s = (Return c, s') -> c_error c = NoScore.
Proof.
  intros Hm H. unfold _fit_auto_arima in H.
  do 3 inv_step H.
  apply bindM_inv in H. destruct H as (ex & s0 & Hex & H).
  assert (Es : s0 = s).
  { match type of Hex with
    | ?c ?x = _ =>
        assert (Hs : snd (c x) = x)
          by (destruct (using_exogenous s); pure_tac)
    end.
    rewrite Hex in Hs. exact Hs. }
  subst s0. destruct ex as [train_exog test_exog].
  inv_step H.
  apply bindM_inv in H. destruct H as (tp & s1 & Htp & H).
  assert (Es : s1 = s).
  { match type of Htp with
    | ?c ?x = _ =>
        assert (Hs : snd (c x) = x) by (destruct b; pure_tac)
    end.
    rewrite Htp in Hs. exact Hs. }
  subst s1.
  apply bindM_inv in H. destruct H as (sc & s2 & Hsc & H).
  apply ret_inv in H. destruct H as [-> _]. simpl.
  eapply error_metric_other; eauto.
Qed.

Lemma fit_exponential_smoothing_other b s c s' :
  String.eqb (error_metric s) "mase" = false ->
  _fit_exponential_smoothing F b s = (Return c, s') -> c_error c = NoScore.
Proof.
  intros Hm H. unfold _fit_exponential_smoothing in H.
  do 10 inv_step H.
  apply bindM_inv in H. destruct H as (sc & s2 & Hsc & H).
  apply ret_inv in H. destruct H as [-> _]. simpl.
  eapply error_metric_other; eauto.
Qed.

Lemma fit_tbats_other b b' s c s' :
  String.eqb (error_metric s) "mase" = false ->
  _fit_tbats F b b' s = (Return c, s') -> c_error c = NoScore.
Proof.
  intros Hm H. unfold _fit_tbats in H.
  inv_step H. cbv zeta in H. do 9 inv_step H.
  apply bindM_inv in H. destruct H as (sc & s2 & Hsc & H).
  apply ret_inv in H. destruct H as [-> _]. simpl.
  eapply error_metric_other; eauto.
Qed.

Lemma fit_ensemble_other s c s' :
  String.eqb (error_metric s) "mase" = false ->
  _fit_ensemble s = (Return c, s') -> c_error c = NoScore.
Proof.
  intros Hm H. unfold _fit_ensemble in H.
  do 3 inv_step H.
  apply bindM_inv in H. destruct H as (u & s1 & Hal & H).
  assert (Hm1 : String.eqb (error_metric s1) "mase" = false).
  { destruct (candidate_models s) as [|c0 [|c1 r]].
    - apply ret_inv in Hal. destruct Hal as [_ ->]. exact Hm.
    - apply modify_inv in Hal. subst s1. exact Hm.
    - apply ret_inv in Hal. destruct Hal as [_ ->]. exact Hm. }
  apply bindM_inv in H. destruct H as (sc & s2 & Hsc & H).
  inv_step H. apply ret_inv in H. destruct H as [-> _]. simpl.
  eapply error_metric_other; eauto.
Qed.

Lemma other_step name (f : M Model (Candidate Model)) s s' :
  (forall s0, snd (f s0) = s0) ->
  (forall c s1, f s = (Return c, s1) -> c_error c = NoScore) ->
  Forall (fun c => c_error c = NoScore) (candidate_models s) ->
  fit_if_requested name f s = (Return tt, s') ->
  Forall (fun c => c_error c = NoScore) (candidate_models s')
  /\ error_metric s' = error_metric s.
Proof.
  intros Hp Hf Hall H. apply fit_if_requested_inv in H; [|exact Hp].
  destruct H as [[_ ->]|[_ [c [Hc ->]]]]; [auto|].
  simpl. split; [|reflexivity].
  apply Forall_app. split; [assumption|].
  constructor; [|constructor]. eapply Hf; eauto.
Qed.

Lemma built_other s pre :
  String.eqb (error_metric s) "mase" = false ->
  candidate_models s = [] ->
  built F s pre ->
  Forall (fun c => c_error c = NoScore) pre.
Proof.
  intros Hm Hnil (s1 & s2 & s3 & s4 & H1 & H2 & H3 & H4 & E).
  apply other_step in H1;
    [ | apply pure_fit_auto_arima
      | intros c s0 Hc; eapply fit_auto_arima_other; [exact Hm | exact Hc]
      | rewrite Hnil; constructor ].
  destruct H1 as [A1 M1].
  assert (Hm1 : String.eqb (error_metric s1) "mase" = false)
    by (now rewrite M1).
  apply other_step in H2;
    [ | apply pure_fit_exponential_smoothing
      | intros c s0 Hc;
        eapply fit_exponential_smoothing_other; [exact Hm1 | exact Hc]
      | assumption ].
  destruct H2 as [A2 M2].
  assert (Hm2 : String.eqb (error_metric s2) "mase" = false)
    by (now rewrite M2).
  apply other_step in H3;
    [ | apply pure_fit_tbats
      | intros c s0 Hc; eapply fit_tbats_other; [exact Hm2 | exact Hc]
      | assumption ].
  destruct H3 as [A3 M3].
  assert (Hm3 : String.eqb (error_metric s3) "mase" = false)
    by (now rewrite M3).
  apply fit_if_requested_ensemble_inv in H4.
  assert (A4 : Forall (fun c => c_error c = NoScore) (candidate_models s4)).
  { destruct H4 as [[_ ->]|[_ (e & l & He & _ & _ & _ & K & _ & ->)]];
      [assumption|].
    simpl. apply Forall_app. split.
    - clear - K A3. revert l K.
      induction (candidate_models s3) as [|c0 l0 IH]; intros [|c1 l1] K;
        simpl in K; try discriminate; constructor;
        inversion A3; subst; injection K as K0 K; [congruence | auto].
    - constructor; [|constructor].
      eapply fit_ensemble_other; [exact Hm3 | exact He]. }
  rewrite E in A4. exact A4.
Qed.

(** The error metric is never checked: with a metric other than [mase],
    [_error_metric] gives every candidate the error [None].  A [fit] of a
    fresh object can then only succeed when a single name is requested
    (the ranking of two or more candidates compares [None] with [None]
    and raises), and a successful one leaves [None] as
    [best_model_error]. *)
Theorem fit_with_other_metric (df : DataFrame) (column : string)
        (exog : exog_arg) (s s' : AutoTS Model) :
  String.eqb (error_metric s) "mase" = false ->
  candidate_models s = [] ->
  fit F df column exog s = (Return tt, s') ->
  length (requested s) = 1%nat
  /\ best_model_error s' = Some NoScore
  /\ Forall (fun c => c_error c = NoScore) (candidate_models s').
Proof.
  intros Hm Hnil H. apply fit_inv in H.
  destruct H as (_ & pre & w & rest & Hb & Hs & ->).
  assert (Hm' : String.eqb (error_metric (prepared df column exog s)) "mase"
                = false) by (destruct exog; exact Hm).
  assert (Hnil' : candidate_models (prepared df column exog s) = [])
    by (now rewrite candidates_prepared).
  pose proof (built_other Hm' Hnil' Hb) as Hall.
  pose proof (sorted_without_scores Hall Hs) as Hlen.
  pose proof (sorted_perm _ Hs) as Hp.
  pose proof (built_names Hb) as Hn.
  rewrite Hnil', requested_prepared in Hn. simpl in Hn.
  apply (f_equal (@length string)) in Hn. rewrite length_map in Hn.
  pose proof (Permutation_length Hp) as Hl. simpl in Hl.
  assert (Hall' : Forall (fun c => c_error c = NoScore) (w :: rest))
    by (eapply Permutation_Forall; eauto).
  split; [lia|]. split; [|exact Hall'].
  simpl. inversion Hall'; subst. congruence.
Qed.

End OtherMetric.

Lemma fit_with_other_metric_witness :
  best_model_error Naive.fitted_mse = Some NoScore.
Proof.
  destruct (@fit_with_other_metric Naive.Model Naive.forecasters
              Naive.six_months "y" ExogNone (Naive.fresh ["tbats"] "mse" 4)
              Naive.fitted_mse)
    as (_ & H & _).
  - reflexivity.
  - reflexivity.
  - vm_compute. reflexivity.
  - exact H.
Defined.

(** ** A series column that the frame does not have *)

Section MissingColumn.

Variable Model : Type.
Variable F : Forecasters Model.
Implicit Types (s : AutoTS Model).

Lemma fit_from_prepared df column exog s :
  is_datetime_index df = true ->
  fit F df column exog s = fit_body F (prepared df column exog s).
Proof.
  intros Hdt.
  unfold fit, Validation.check_datetime_index. rewrite Hdt. simpl negb.
  cbv iota.
  erewrite bindM_return by reflexivity.
  erewrite bindM_return by reflexivity.
  destruct exog; reflexivity.
Qed.

Lemma not_requested name (f : M Model (Candidate Model)) s :
  str_in name (model_names s) = false ->
  fit_if_requested name f s = (Return tt, s).
Proof.
  intros H. unfold fit_if_requested, bindM, get, ret. simpl. now rewrite H.
Qed.

Lemma requested_raises name (f : M Model (Candidate Model)) s e :
  str_in name (model_names s) = true ->
  f s = (Raise e, s) ->
  fit_if_requested name f s = (Raise e, s).
Proof.
  intros H Hf. unfold fit_if_requested, bindM, get. simpl.
  now rewrite H, Hf.
Qed.

Lemma getitem_missing d column :
  find_col column (columns d) = None -> getitem d column = Raise KeyError.
Proof. intros H. unfold getitem. now rewrite H. Qed.

Lemma getitem_list_cases d names :
  (exists x, getitem_list d names = Return x)
  \/ getitem_list d names = Raise KeyError.
Proof.
  unfold getitem_list. destruct (find_cols names (columns d)); eauto.
Qed.

Lemma fit_auto_arima_missing s d te column :
  data s = Some d -> series_column_name s = Some column ->
  testing_data s = Some te ->
  (using_exogenous s = true -> exogenous s <> None) ->
  find_col column (columns d) = None ->
  _fit_auto_arima F true s = (Raise KeyError, s).
Proof.
  intros Hd Hc Ht Hex Hmiss.
  unfold _fit_auto_arima, bindM, get, the, ret, lift. simpl.
  rewrite Hd, Hc, Ht. simpl.
  unfold auto_arima_with_retry. rewrite (getitem_missing _ _ Hmiss). simpl.
  destruct (using_exogenous s) eqn:Eu.
  - destruct (exogenous s) as [names|] eqn:En;
      [|exfalso; now apply Hex].
    simpl.
    destruct (getitem_list_cases d names) as [[x E1]|E1]; rewrite E1; simpl;
      [|reflexivity].
    destruct (getitem_list_cases te names) as [[y E2]|E2]; rewrite E2; simpl;
      reflexivity.
  - reflexivity.
Qed.

Lemma fit_exponential_smoothing_missing s d column :
  data s = Some d -> series_column_name s = Some column ->
  find_col column (columns d) = None ->
  _fit_exponential_smoothing F true s = (Raise KeyError, s).
Proof.
  intros Hd Hc Hmiss.
  unfold _fit_exponential_smoothing, bindM, get, the, ret, lift. simpl.
  rewrite Hd, Hc. simpl. now rewrite (getitem_missing _ _ Hmiss).
Qed.

(** The BATS fit builds its estimator first: the missing column shows
    once the constructor has returned. *)
Lemma fit_tbats_missing s d column b :
  data s = Some d -> series_column_name s = Some column ->
  find_col column (columns d) = None ->
  succeeds (BATS F ([seasonal_period s] ++ [Some 2; Some 4]) b) ->
  _fit_tbats F true b s = (Raise KeyError, s).
Proof.
  intros Hd Hc Hmiss [est Hest].
  unfold _fit_tbats, bindM, get, the, ret, lift. simpl.
  simpl in Hest. rewrite Hest, Hd, Hc. simpl.
  now rewrite (getitem_missing _ _ Hmiss).
Qed.

(** When the frame has no column of the given series name, and at least
    one of the three models is requested, [fit] raises [KeyError] in the
    first requested model fit: no candidate is added and nothing is
    selected, but the input of the object is already replaced.  (The
    object has not been fitted with exogenous regressors before; and when
    tbats is the first model requested, the BATS constructor, which runs
    before the column is read, accepts the seasonal periods.) *)
Theorem fit_missing_series_column (df : DataFrame) (column : string)
        (exog : exog_arg) (s : AutoTS Model) :
  is_datetime_index df = true ->
  find_col column (columns df) = None ->
  using_exogenous s = false ->
  (exists n, In n model_order /\ str_in n (model_names s) = true) ->
  (str_in "auto_arima" (model_names s) = false ->
   str_in "exponential_smoothing" (model_names s) = false ->
   succeeds (BATS F ([seasonal_period s] ++ [Some 2; Some 4]) true)) ->
  fit F df column exog s = (Raise KeyError, prepared df column exog s).
Proof.
  intros Hdt Hmiss Hu (n & Hn & Hreq) Hbats.
  rewrite fit_from_prepared by assumption.
  set (p := prepared df column exog s).
  assert (Hd : data p = Some df) by (unfold p; destruct exog; reflexivity).
  assert (Hc : series_column_name p = Some column)
    by (unfold p; destruct exog; reflexivity).
  assert (Ht : testing_data p = Some (iloc_from df (- holdout_period s)))
    by (unfold p; destruct exog; reflexivity).
  assert (Hex : using_exogenous p = true -> exogenous p <> None).
  { unfold p. destruct exog; simpl; try discriminate.
    rewrite Hu. discriminate. }
  assert (Hmn : model_names p = model_names s)
    by (unfold p; destruct exog; reflexivity).
  unfold fit_body.
  destruct (str_in "auto_arima" (model_names s)) eqn:Ea.
  { apply bindM_raise. apply requested_raises; [now rewrite Hmn|].
    eapply fit_auto_arima_missing; eauto. }
  erewrite bindM_return by (apply not_requested; now rewrite Hmn).
  destruct (str_in "exponential_smoothing" (model_names s)) eqn:Ee.
  { apply bindM_raise. apply requested_raises; [now rewrite Hmn|].
    eapply fit_exponential_smoothing_missing; eauto. }
  erewrite bindM_return by (apply not_requested; now rewrite Hmn).
  destruct (str_in "tbats" (model_names s)) eqn:Et.
  { apply bindM_raise. apply requested_raises; [now rewrite Hmn|].
    eapply fit_tbats_missing; eauto.
    replace (seasonal_period p) with (seasonal_period s)
      by (unfold p; destruct exog; reflexivity).
    now apply Hbats. }
  exfalso. unfold model_order in Hn. simpl in Hn.
  destruct Hn as [<-|[<-|[<-|[]]]]; congruence.
Qed.

End MissingColumn.

Lemma fit_missing_series_column_witness :
  fst (fit Naive.forecasters Naive.six_months "z" ExogNone
           (Naive.fresh ["tbats"] "mase" 4))
  = Raise KeyError.
Proof.
  rewrite (@fit_missing_series_column Naive.Model Naive.forecasters
             Naive.six_months "z" ExogNone
             (Naive.fresh ["tbats"] "mase" 4)).
  - reflexivity.
  - reflexivity.
  - reflexivity.
  - reflexivity.
  - exists "tbats". split; [right; right; now left | reflexivity].
  - intros _ _. exists []. reflexivity.
Defined.

(** ** Exogenous regressors and the other models *)

Section ExogenousIgnored.

Variable Model : Type.
Variable F : Forecasters Model.
Implicit Types (s : AutoTS Model).

Ltac same_matches :=
  repeat match goal with
         | |- context [match ?r with Return _ => _ | Raise _ => _ end] =>
             destruct r; simpl
         end.

(** Only the ARIMA fit reads the exogenous columns: whatever is given for
    [exogenous] (nothing, a string, any list of names, even names the frame
    does not have), the exponential-smoothing fit and the BATS fit of
    [fit] make the same library calls and return the same candidate or
    raise the same exception. *)
Theorem exogenous_ignored (df : DataFrame) (column : string)
        (exog exog' : exog_arg) (s : AutoTS Model) :
  fst (_fit_exponential_smoothing F true (prepared df column exog s))
  = fst (_fit_exponential_smoothing F true (prepared df column exog' s))
  /\ fst (_fit_tbats F true true (prepared df column exog s))
     = fst (_fit_tbats F true true (prepared df column exog' s)).
Proof.
  split.
  - unfold _fit_exponential_smoothing, _error_metric, bindM, get, the, lift,
      ret.
    destruct exog, exog'; simpl; same_matches;
      try reflexivity;
      destruct (String.eqb (error_metric s) "mase"); simpl; same_matches;
      reflexivity.
  - unfold _fit_tbats, _error_metric, bindM, get, the, lift, ret.
    destruct exog, exog'; simpl; same_matches;
      try reflexivity;
      destruct (String.eqb (error_metric s) "mase"); simpl; same_matches;
      reflexivity.
Qed.

End ExogenousIgnored.

(** ** An ensemble without models *)

Section LonelyEnsemble.

Variable Model : Type.
Variable F : Forecasters Model.
Implicit Types (s : AutoTS Model).

(** [check_models] counts entries, not models: a sequence of three or more
    entries that are all [ensemble] passes it.  The [fit] of such an object
    (fresh, with none of the three models requested) raises [TypeError]:
    [_fit_ensemble] reduces over an empty list of candidates. *)
Theorem fit_ensemble_alone (df : DataFrame) (column : string)
        (exog : exog_arg) (s : AutoTS Model) :
  is_datetime_index df = true ->
  candidate_models s = [] ->
  str_in "ensemble" (model_names s) = true ->
  (forall n, In n model_order -> str_in n (model_names s) = false) ->
  fit F df column exog s = (Raise TypeError, prepared df column exog s).
Proof.
  intros Hdt Hnil Hens Hnone.
  rewrite fit_from_prepared by assumption.
  set (p := prepared df column exog s).
  assert (Hmn : model_names p = model_names s)
    by (unfold p; destruct exog; reflexivity).
  assert (Hc : candidate_models p = [])
    by (unfold p; now rewrite candidates_prepared).
  unfold fit_body.
  erewrite bindM_return
    by (apply not_requested; rewrite Hmn; apply Hnone; now left).
  erewrite bindM_return
    by (apply not_requested; rewrite Hmn; apply Hnone; right; now left).
  erewrite bindM_return
    by (apply not_requested; rewrite Hmn; apply Hnone; right; right; now left).
  apply bindM_raise. apply requested_raises; [now rewrite Hmn|].
  unfold _fit_ensemble, bindM, get, lift. simpl. now rewrite Hc.
Qed.

End LonelyEnsemble.

Lemma fit_ensemble_alone_witness :
  __init__ Naive.Model
    (Validation.ModelsTuple ["ensemble"; "ensemble"; "ensemble"])
    "mase" None 4 false
  = Return (Naive.fresh ["ensemble"; "ensemble"; "ensemble"] "mase" 4)
  /\ fst (fit Naive.forecasters Naive.six_months "y" ExogNone
              (Naive.fresh ["ensemble"; "ensemble"; "ensemble"] "mase" 4))
     = Raise TypeError.
Proof.
  split; [reflexivity|].
  rewrite (@fit_ensemble_alone Naive.Model Naive.forecasters
             Naive.six_months "y" ExogNone
             (Naive.fresh ["ensemble"; "ensemble"; "ensemble"] "mase" 4)).
  - reflexivity.
  - reflexivity.
  - reflexivity.
  - reflexivity.
  - intros n [<-|[<-|[<-|[]]]]; reflexivity.
Defined.

(** ** A [fit] that fails *)

Section FailedFit.

Variable Model : Type.
Variable F : Forecasters Model.
Implicit Types (s : AutoTS Model).

Lemma keeps_pure A (c : M Model A) :
  (forall s, snd (c s) = s) -> keeps_selection c.
Proof. intros H s. now rewrite H. Qed.

Lemma keeps_bind A B (c : M Model A) (k : A -> M Model B) :
  keeps_selection c -> (forall a, keeps_selection (k a)) ->
  keeps_selection (bindM c k).
Proof.
  intros Hc Hk s. unfold bindM. specialize (Hc s).
  destruct (c s) as [[a|e] s1]; simpl in *; [|assumption].
  now rewrite Hk.
Qed.

Lemma keeps_on_raise_bind A B (c : M Model A) (k : A -> M Model B) :
  keeps_selection c -> (forall a, keeps_selection_on_raise (k a)) ->
  keeps_selection_on_raise (bindM c k).
Proof.
  intros Hc Hk s e. unfold bindM. specialize (Hc s).
  destruct (c s) as [[a|e'] s1]; simpl in *; [|intros _; assumption].
  intros H. now rewrite (Hk a s1 e H).
Qed.

Lemma keeps_modify_candidates (f : AutoTS Model -> list (Candidate Model)) :
  keeps_selection (modify (fun s => set_candidate_models (f s) s)).
Proof. intros s. reflexivity. Qed.

Lemma keeps_fit_ensemble : keeps_selection (_fit_ensemble (Model:=Model)).
Proof.
  unfold _fit_ensemble.
  apply keeps_bind; [apply keeps_pure, pure_get|]. intros self.
  apply keeps_bind; [apply keeps_pure, pure_lift|]. intros A.
  apply keeps_bind; [apply keeps_pure, pure_lift|]. intros sel.
  apply keeps_bind.
  { destruct (candidate_models self) as [|c0 [|c1 r]];
      try (apply keeps_pure, pure_ret). intros s. reflexivity. }
  intros _.
  apply keeps_bind; [apply keeps_pure, pure_error_metric|]. intros err.
  apply keeps_bind; [apply keeps_pure, pure_lift|]. intros out.
  apply keeps_pure, pure_ret.
Qed.

Lemma keeps_fit_if_requested name (f : M Model (Candidate Model)) :
  keeps_selection f -> keeps_selection (fit_if_requested name f).
Proof.
  intros Hf. unfold fit_if_requested.
  apply keeps_bind; [apply keeps_pure, pure_get|]. intros self.
  destruct (str_in name (model_names self)); [|apply keeps_pure, pure_ret].
  apply keeps_bind; [assumption|]. intros c s. reflexivity.
Qed.

Lemma selection_on_raise :
  keeps_selection_on_raise
    (bindM (first_candidate (Model:=Model)) (fun c =>
     bindM (modify (set_best_model_error (c_error c))) (fun _ =>
     bindM (first_candidate (Model:=Model)) (fun c =>
     bindM (modify (set_fit_model (c_model c))) (fun _ =>
     bindM (first_candidate (Model:=Model)) (fun c =>
     bindM (modify (set_fit_model_type (c_name c))) (fun _ =>
     modify (set_is_fitted true)))))))).
Proof.
  intros s e. destruct s. cbv [bindM first_candidate get lift ret modify].
  simpl. destruct candidate_models0 as [|c rest]; simpl.
  - intros _. reflexivity.
  - discriminate.
Qed.

(** A [fit] that raises, at whatever point, has not touched the selected
    model: [is_fitted], [fit_model], [fit_model_type] and
    [best_model_error] are as before the call.  The input is replaced all
    the same: when the index check passes, the object holds the new frame
    from then on, so that after a failed second [fit] the object still
    answers for the first model, with the data of the second call. *)
Theorem failed_fit_keeps_selection (df : DataFrame) (column : string)
        (exog : exog_arg) (s : AutoTS Model) (e : exn) :
  fst (fit F df column exog s) = Raise e ->
  selection (snd (fit F df column exog s)) = selection s
  /\ (is_datetime_index df = true ->
      data (snd (fit F df column exog s)) = Some df).
Proof.
  intros H. split.
  - revert s e H.
    change (keeps_selection_on_raise (fit F df column exog)).
    unfold fit.
    apply keeps_on_raise_bind; [apply keeps_pure, pure_lift|]. intros _.
    apply keeps_on_raise_bind.
    { unfold _set_input_data. intros s. reflexivity. }
    intros _.
    apply keeps_on_raise_bind.
    { destruct exog; try (apply keeps_pure, pure_ret); intros s; reflexivity. }
    intros _.
    apply keeps_on_raise_bind;
      [apply keeps_fit_if_requested, keeps_pure, pure_fit_auto_arima|].
    intros _.
    apply keeps_on_raise_bind;
      [apply keeps_fit_if_requested, keeps_pure,
         pure_fit_exponential_smoothing|].
    intros _.
    apply keeps_on_raise_bind;
      [apply keeps_fit_if_requested, keeps_pure, pure_fit_tbats|].
    intros _.
    apply keeps_on_raise_bind;
      [apply keeps_fit_if_requested, keeps_fit_ensemble|].
    intros _.
    apply keeps_on_raise_bind; [apply keeps_pure, pure_get|]. intros self.
    apply keeps_on_raise_bind; [apply keeps_pure, pure_lift|]. intros l.
    apply keeps_on_raise_bind; [intros s; reflexivity|]. intros _.
    apply selection_on_raise.
  - intros Hdt. clear H.
    rewrite fit_from_prepared by assumption.
    assert (Hd : forall A (c : M Model A),
               (forall s0, exists l, snd (c s0) = set_candidate_models l s0) ->
               forall s0, data (snd (c s0)) = data s0).
    { intros A c Hc s0. destruct (Hc s0) as [l ->]. reflexivity. }
    set (p := prepared df column exog s).
    assert (Hp : data p = Some df) by (unfold p; destruct exog; reflexivity).
    rewrite <- Hp. clear Hp. generalize p. clear p. intros p.
    unfold fit_body.
    assert (Hb : forall A B (c : M Model A) (k : A -> M Model B),
               (forall s0, data (snd (c s0)) = data s0) ->
               (forall a s0, data (snd (k a s0)) = data s0) ->
               forall s0, data (snd (bindM c k s0)) = data s0).
    { intros A B c k Hc Hk s0. unfold bindM. specialize (Hc s0).
      destruct (c s0) as [[a|x] s1]; simpl in *; [|assumption].
      now rewrite Hk. }
    assert (Hpure : forall A (c : M Model A),
               (forall s0, snd (c s0) = s0) ->
               forall s0, data (snd (c s0)) = data s0)
      by (intros A c Hc s0; now rewrite Hc).
    assert (Hreq : forall name (f : M Model (Candidate Model)),
               (forall s0, data (snd (f s0)) = data s0) ->
               forall s0, data (snd (fit_if_requested name f s0)) = data s0).
    { intros name f Hf. unfold fit_if_requested.
      apply Hb; [apply Hpure, pure_get|]. intros self.
      destruct (str_in name (model_names self)); [|apply Hpure, pure_ret].
      apply Hb; [assumption|]. intros c s0. reflexivity. }
    revert p.
    apply Hb; [apply Hreq, Hpure, pure_fit_auto_arima|]. intros _.
    apply Hb; [apply Hreq, Hpure, pure_fit_exponential_smoothing|]. intros _.
    apply Hb; [apply Hreq, Hpure, pure_fit_tbats|]. intros _.
    apply Hb.
    { apply Hreq. unfold _fit_ensemble.
      apply Hb; [apply Hpure, pure_get|]. intros self.
      apply Hb; [apply Hpure, pure_lift|]. intros A.
      apply Hb; [apply Hpure, pure_lift|]. intros sel.
      apply Hb.
      { destruct (candidate_models self) as [|c0 [|c1 r]];
          try (apply Hpure, pure_ret). intros s0. reflexivity. }
      intros _.
      apply Hb; [apply Hpure, pure_error_metric|]. intros err.
      apply Hb; [apply Hpure, pure_lift|]. intros out.
      apply Hpure, pure_ret. }
    intros _.
    apply Hb; [apply Hpure, pure_get|]. intros self.
    apply Hb; [apply Hpure, pure_lift|]. intros l.
    apply Hb; [intros s0; reflexivity|]. intros _.
    apply Hb; [apply Hpure; intros s0; unfold first_candidate, bindM, get;
               simpl; destruct (candidate_models s0); reflexivity|].
    intros c.
    apply Hb; [intros s0; reflexivity|]. intros _.
    apply Hb; [apply Hpure; intros s0; unfold first_candidate, bindM, get;
               simpl; destruct (candidate_models s0); reflexivity|].
    intros c'.
    apply Hb; [intros s0; reflexivity|]. intros _.
    apply Hb; [apply Hpure; intros s0; unfold first_candidate, bindM, get;
               simpl; destruct (candidate_models s0); reflexivity|].
    intros c''.
    apply Hb; [intros s0; reflexivity|]. intros _.
    intros s0. reflexivity.
Qed.

End FailedFit.

Lemma failed_fit_keeps_selection_witness :
  selection (snd (fit Naive.forecasters Naive.six_months "z" ExogNone
                      Naive.fitted_six))
  = selection Naive.fitted_six.
Proof.
  destruct (@failed_fit_keeps_selection Naive.Model Naive.forecasters
              Naive.six_months "z" ExogNone Naive.fitted_six KeyError)
    as [H _].
  - vm_compute. reflexivity.
  - exact H.
Defined.

(** ** The index check of [fit] *)

Section IndexCheck.

Variable Model : Type.
Variable F : Forecasters Model.
Implicit Types (s : AutoTS Model).

Lemma input_pure A (c : M Model A) :
  (forall s, snd (c s) = s) -> keeps_input c.
Proof. intros H s. now rewrite H. Qed.

Lemma input_bind A B (c : M Model A) (k : A -> M Model B) :
  keeps_input c -> (forall a, keeps_input (k a)) ->
  keeps_input (bindM c k).
Proof.
  intros Hc Hk s. unfold bindM. specialize (Hc s).
  destruct (c s) as [[a|e] s1]; simpl in *; [|assumption].
  now rewrite Hk.
Qed.

Lemma input_first_candidate : keeps_input (first_candidate (Model:=Model)).
Proof.
  apply input_pure. intros s. unfold first_candidate, bindM, get. simpl.
  destruct (candidate_models s); reflexivity.
Qed.

Lemma input_fit_ensemble : keeps_input (_fit_ensemble (Model:=Model)).
Proof.
  unfold _fit_ensemble.
  apply input_bind; [apply input_pure, pure_get|]. intros self.
  apply input_bind; [apply input_pure, pure_lift|]. intros A.
  apply input_bind; [apply input_pure, pure_lift|]. intros sel.
  apply input_bind.
  { destruct (candidate_models self) as [|c0 [|c1 r]];
      try (apply input_pure, pure_ret). intros s. reflexivity. }
  intros _.
  apply input_bind; [apply input_pure, pure_error_metric|]. intros err.
  apply input_bind; [apply input_pure, pure_lift|]. intros out.
  apply input_pure, pure_ret.
Qed.

Lemma input_fit_if_requested name (f : M Model (Candidate Model)) :
  keeps_input f -> keeps_input (fit_if_requested name f).
Proof.
  intros Hf. unfold fit_if_requested.
  apply input_bind; [apply input_pure, pure_get|]. intros self.
  destruct (str_in name (model_names self)); [|apply input_pure, pure_ret].
  apply input_bind; [assumption|]. intros c s. reflexivity.
Qed.

(** Once the input is set, nothing in [fit] touches it. *)
Lemma input_fit_body : keeps_input (fit_body F).
Proof.
  unfold fit_body.
  apply input_bind;
    [apply input_fit_if_requested, input_pure, pure_fit_auto_arima|].
  intros _.
  apply input_bind;
    [apply input_fit_if_requested, input_pure,
       pure_fit_exponential_smoothing|].
  intros _.
  apply input_bind;
    [apply input_fit_if_requested, input_pure, pure_fit_tbats|].
  intros _.
  apply input_bind; [apply input_fit_if_requested, input_fit_ensemble|].
  intros _.
  apply input_bind; [apply input_pure, pure_get|]. intros self.
  apply input_bind; [apply input_pure, pure_lift|]. intros l.
  apply input_bind; [intros s; reflexivity|]. intros _.
  apply input_bind; [apply input_first_candidate|]. intros c.
  apply input_bind; [intros s; reflexivity|]. intros _.
  apply input_bind; [apply input_first_candidate|]. intros c'.
  apply input_bind; [intros s; reflexivity|]. intros _.
  apply input_bind; [apply input_first_candidate|]. intros c''.
  apply input_bind; [intros s; reflexivity|]. intros _.
  intros s. reflexivity.
Qed.

(** C5 (amended).  [fit] checks one thing about the index: that it is a
    datetime index.  Without one, [fit] raises [TypeError] at once: the
    object is left as it was, nothing is stored and no model is fitted.
    With one, whether or not its timestamps are strictly increasing, the
    check raises nothing and [fit] goes on: whatever the later steps do,
    the object holds the frame, its training and testing parts and the
    column name from then on. *)
Theorem fit_index_check (df : DataFrame) (column : string)
        (exog : exog_arg) (self : AutoTS Model) :
  (is_datetime_index df = false ->
   fit F df column exog self = (Raise TypeError, self))
  /\ (is_datetime_index df = true ->
      input (snd (fit F df column exog self))
      = (Some df,
         Some (iloc_to df (- holdout_period self)),
         Some (iloc_from df (- holdout_period self)),
         Some column)).
Proof.
  split; intros Hdt.
  - unfold fit, Validation.check_datetime_index, bindM, lift.
    rewrite Hdt. reflexivity.
  - rewrite fit_from_prepared by assumption.
    rewrite input_fit_body. destruct exog; reflexivity.
Qed.

End IndexCheck.

Lemma fit_index_check_witness :
  fit Naive.forecasters Naive.no_datetime_index "y" ExogNone
      (Naive.fresh ["exponential_smoothing"] "mase" 4)
  = (Raise TypeError, Naive.fresh ["exponential_smoothing"] "mase" 4)
  /\ data (snd (fit Naive.forecasters Naive.six_months_unordered "y"
                    ExogNone
                    (Naive.fresh ["exponential_smoothing"] "mase" 4)))
     = Some Naive.six_months_unordered.
Proof.
  split.
  - apply (@fit_index_check Naive.Model Naive.forecasters
             Naive.no_datetime_index "y" ExogNone
             (Naive.fresh ["exponential_smoothing"] "mase" 4)).
    reflexivity.
  - destruct (@fit_index_check Naive.Model Naive.forecasters
                Naive.six_months_unordered "y" ExogNone
                (Naive.fresh ["exponential_smoothing"] "mase" 4))
      as [_ H].
    specialize (H eq_refl).
    exact (f_equal (fun x => fst (fst (fst x))) H).
Defined.

(** C5 as stated fails: a datetime index that is not chronological raises
    no type error, the fit goes through. *)
Lemma fit_accepts_unordered_index :
  ~ chronological_datetime_index Naive.six_months_unordered
  /\ fst (fit Naive.forecasters Naive.six_months_unordered "y" ExogNone
              (Naive.fresh ["exponential_smoothing"] "mase" 4))
     = Return tt.
Proof.
  split.
  - intros [_ H]. inversion H as [|a l _ Hall]; subst.
    inversion Hall as [|b l' Hlt _]; subst.
    vm_compute in Hlt. discriminate.
  - vm_compute. reflexivity.
Qed.

(** ** More on [mase] *)

Lemma of_Z_nonneg z : 0 <= z -> (0 <= of_Z z)%Qc.
Proof.
  intros H. unfold Qcle, of_Z. change (this 0%Qc) with 0%Q.
  cbn [this Q2Qc]. rewrite Qred_correct.
  unfold Qle, inject_Z. cbn [Qnum Qden]. lia.
Qed.

Lemma Qcdiv_nonneg (x y : Qc) : (0 <= x)%Qc -> (0 <= y)%Qc -> (0 <= x / y)%Qc.
Proof.
  unfold Qcle. change (this 0%Qc) with 0%Q. intros Hx Hy.
  unfold Qcdiv, Qcmult, Qcinv. cbn [this Q2Qc].
  rewrite !Qred_correct. apply Qmult_le_0_compat; [assumption|].
  now apply Qinv_le_0_compat.
Qed.

Lemma Qcsum_nonneg (l : list Qc) :
  Forall (fun x => (0 <= x)%Qc) l -> (0 <= Qcsum l)%Qc.
Proof.
  induction 1 as [|x l Hx _ IH]; simpl.
  - apply Qcle_refl.
  - replace 0%Qc with (0 + 0)%Qc by ring.
    now apply Qcplus_le_compat.
Qed.

Lemma Qcsum_abs_nonneg A (f : A -> Qc) (l : list A) :
  (0 <= Qcsum (map (fun x => Qcabs (f x)) l))%Qc.
Proof.
  apply Qcsum_nonneg. apply Forall_forall. intros x Hx.
  apply in_map_iff in Hx. destruct Hx as [y [<- _]]. apply Qcabs_nonneg.
Qed.

Lemma scaleFactor_nonneg (actual : list Qc) (k : nat) :
  (k < length actual)%nat -> (0 <= ErrorMetrics.scaleFactor actual k)%Qc.
Proof.
  intros H. unfold ErrorMetrics.scaleFactor. apply Qcdiv_nonneg.
  - exact (Qcsum_abs_nonneg
             (fun i => (ErrorMetrics.nthq actual i
                        - ErrorMetrics.nthq actual (i - k))%Qc) _).
  - apply of_Z_nonneg. lia.
Qed.

Lemma mase_spec_nonneg (actual predicted : list Qc) (k : nat) :
  (k < length actual)%nat ->
  (0 <= ErrorMetrics.mase_spec actual predicted k)%Qc.
Proof.
  intros H. unfold ErrorMetrics.mase_spec. apply Qcdiv_nonneg.
  - apply Qcsum_nonneg. apply Forall_forall. intros x Hx.
    apply in_map_iff in Hx. destruct Hx as [i [<- _]].
    unfold ErrorMetrics.scaledError. apply Qcdiv_nonneg.
    + apply Qcabs_nonneg.
    + now apply scaleFactor_nonneg.
  - apply of_Z_nonneg. lia.
Qed.

Lemma Qcsum_zero A (f : A -> Qc) (l : list A) :
  (forall x, f x = 0%Qc) -> Qcsum (map f l) = 0%Qc.
Proof.
  intros H. induction l as [|x l IH]; simpl; [reflexivity|].
  rewrite H, IH. ring.
Qed.

Lemma mase_spec_perfect (actual : list Qc) (k : nat) :
  ErrorMetrics.mase_spec actual actual k = 0%Qc.
Proof.
  unfold ErrorMetrics.mase_spec. rewrite Qcsum_zero.
  - unfold Qcdiv. ring.
  - intros i. unfold ErrorMetrics.scaledError.
    replace (ErrorMetrics.nthq actual i - ErrorMetrics.nthq actual i)%Qc
      with 0%Qc by ring.
    rewrite Qcabs_pos by apply Qcle_refl. unfold Qcdiv. ring.
Qed.

(** On a table with complete actual and predicted columns (0 <= step < N,
    scale factor not zero) [mase] returns a number that is never negative,
    and it is zero when every prediction equals the actual value. *)
Theorem mase_nonnegative (df : DataFrame) (p a : string) (k : Z)
        (sp sa : Series) (actual predicted : list Qc) :
  getitem df p = Return sp -> getitem df a = Return sa ->
  s_values sp = map Fin predicted -> s_values sa = map Fin actual ->
  p <> a ->
  ~ In p ErrorMetrics.working_columns ->
  ~ In a ErrorMetrics.working_columns ->
  0 <= k < Z.of_nat (length actual) ->
  ErrorMetrics.scaleFactor actual (Z.to_nat k) <> 0%Qc ->
  exists v, ErrorMetrics.mase df p a k = Return (Fin v)
            /\ (0 <= v)%Qc
            /\ (predicted = actual -> v = 0%Qc).
Proof.
  intros Hp Ha Hvp Hva Hne Hpw Haw Hk Hsf.
  exists (ErrorMetrics.mase_spec actual predicted (Z.to_nat k)).
  split; [|split].
  - rewrite (@mase_on_columns df p a k sp sa Hp Ha Hne Hpw Haw), Hvp, Hva.
    f_equal. rewrite <- (Z2Nat.id k) at 1 by lia.
    apply mase_columns_complete; auto; [|lia].
    destruct (@getitem_shape _ _ _ Hp) as [Hlp _].
    destruct (@getitem_shape _ _ _ Ha) as [Hla _].
    rewrite <- (length_map Fin predicted), <- (length_map Fin actual).
    rewrite <- Hvp, <- Hva, !length_s_values. lia.
  - apply mase_spec_nonneg. lia.
  - intros ->. apply mase_spec_perfect.
Qed.

Lemma mase_nonnegative_witness :
  exists v, ErrorMetrics.mase Naive.four_rows "preds" "actuals" 1
            = Return (Fin v)
            /\ (0 <= v)%Qc.
Proof.
  destruct (@mase_nonnegative Naive.four_rows "preds" "actuals" 1
           (combine (Naive.months_from (month_start 2020 1) 4)
                    [Fin (of_Z 2); Fin (of_Z 2); Fin (of_Z 2); Fin (of_Z 2)])
           (combine (Naive.months_from (month_start 2020 1) 4)
                    [Fin (of_Z 1); Fin (of_Z 3); Fin (of_Z 2); Fin (of_Z 5)])
           [of_Z 1; of_Z 3; of_Z 2; of_Z 5]
           [of_Z 2; of_Z 2; of_Z 2; of_Z 2])
    as (v & Hv & Hpos & _).
  - reflexivity.
  - reflexivity.
  - reflexivity.
  - reflexivity.
  - discriminate.
  - simpl. intuition discriminate.
  - simpl. intuition discriminate.
  - simpl. lia.
  - intros H. vm_compute in H. discriminate.
  - exists v. split; assumption.
Defined.

(** [mase] raises [KeyError] exactly when the table lacks the prediction
    column or the actuals column; on a table that has both it returns (the
    names differ from each other and from the working columns). *)
Theorem mase_missing_column (df : DataFrame) (p a : string) (k : Z) :
  p <> a ->
  ~ In p ErrorMetrics.working_columns ->
  ~ In a ErrorMetrics.working_columns ->
  (ErrorMetrics.mase df p a k = Raise KeyError
   <-> find_col p (columns df) = None \/ find_col a (columns df) = None)
  /\ (raises (ErrorMetrics.mase df p a k)
      -> ErrorMetrics.mase df p a k = Raise KeyError).
Proof.
  intros Hne Hpw Haw.
  destruct (find_col p (columns df)) as [i|] eqn:Ep.
  - destruct (find_col a (columns df)) as [j|] eqn:Ea.
    + assert (Hp : exists sp, getitem df p = Return sp)
        by (unfold getitem; rewrite Ep; eauto).
      assert (Ha : exists sa, getitem df a = Return sa)
        by (unfold getitem; rewrite Ea; eauto).
      destruct Hp as [sp Hp]. destruct Ha as [sa Ha].
      rewrite (@mase_on_columns df p a k sp sa Hp Ha Hne Hpw Haw).
      split; [split|].
      * discriminate.
      * intros [H|H]; discriminate.
      * intros [e H]. discriminate.
    + assert (E : ErrorMetrics.mase df p a k = Raise KeyError).
      { unfold ErrorMetrics.mase, getitem_list. simpl. now rewrite Ep, Ea. }
      rewrite E. split; [split; auto|auto].
  - assert (E : ErrorMetrics.mase df p a k = Raise KeyError).
    { unfold ErrorMetrics.mase, getitem_list. simpl. now rewrite Ep. }
    rewrite E. split; [split; auto|auto].
Qed.

Lemma mase_missing_column_witness :
  ErrorMetrics.mase Naive.four_rows "forecast" "actuals" 1 = Raise KeyError.
Proof.
  destruct (@mase_missing_column Naive.four_rows "forecast" "actuals" 1)
    as [[_ H] _].
  - discriminate.
  - simpl. intuition discriminate.
  - simpl. intuition discriminate.
  - apply H. left. reflexivity.
Defined.

(** ** Refitting and the exogenous setting *)

Section RefitExogenous.

Variable Model : Type.
Variable F : Forecasters Model.

(** A successful [fit] without [exogenous] leaves the exogenous setting of
    the object as an earlier [fit] made it: the names and the flag
    [using_exogenous] are those the object had. *)
Theorem refit_keeps_exogenous (df : DataFrame) (column : string)
        (s s' : AutoTS Model) :
  fit F df column ExogNone s = (Return tt, s') ->
  using_exogenous s' = using_exogenous s /\ exogenous s' = exogenous s.
Proof.
  intros H. apply fit_inv in H.
  destruct H as (_ & pre & w & rest & _ & _ & ->).
  split; reflexivity.
Qed.

End RefitExogenous.

Lemma refit_keeps_exogenous_witness :
  using_exogenous
    (snd (fit Naive.forecasters Naive.six_months "y" ExogNone
            Naive.fitted_with_x)) = true
  /\ exogenous
       (snd (fit Naive.forecasters Naive.six_months "y" ExogNone
               Naive.fitted_with_x)) = Some ["x"].
Proof.
  destruct (@refit_keeps_exogenous Naive.Model Naive.forecasters
              Naive.six_months "y" Naive.fitted_with_x
              (snd (fit Naive.forecasters Naive.six_months "y" ExogNone
                      Naive.fitted_with_x)))
    as [H1 H2].
  - vm_compute. reflexivity.
  - rewrite H1, H2. split; vm_compute; reflexivity.
Defined.

Lemma fit_adds_candidates_witness :
  length (candidate_models Naive.fitted_twice) = 2%nat.
Proof.
  rewrite (@fit_adds_candidates Naive.Model Naive.forecasters
             Naive.other_six "y" ExogNone Naive.fitted_once
             Naive.fitted_twice).
  - vm_compute. reflexivity.
  - vm_compute. reflexivity.
Defined.

(** ** What [predict] does to the object *)

Section PredictState.

Variable Model : Type.
Variable F : Forecasters Model.
Implicit Types (s : AutoTS Model).

Lemma pure_the_object A (o : option A) s : snd (the_object o s) = s.
Proof. destruct o; reflexivity. Qed.

Ltac pure_all :=
  repeat first
    [ apply pure_get | apply pure_lift | apply pure_ret
    | apply pure_the_object
    | apply pure_bind; [|intros ?]
    | match goal with
      | |- forall s, snd ((if ?b then _ else _) s) = s => destruct b
      | |- forall s, snd ((match ?x with _ => _ end) s) = s => destruct x
      end ].

Lemma pure_predict_checks a b exog s :
  snd (predict_checks a b exog s) = s.
Proof. unfold predict_checks. revert s. pure_all. Qed.

Lemma pure_predict_auto_arima a b l exog s :
  snd (_predict_auto_arima F a b l exog s) = s.
Proof. unfold _predict_auto_arima. revert s. pure_all. Qed.

Lemma pure_predict_exponential_smoothing a b s :
  snd (_predict_exponential_smoothing F a b s) = s.
Proof. unfold _predict_exponential_smoothing. revert s. pure_all. Qed.

Lemma pure_predict_tbats a b l s :
  snd (_predict_tbats F a b l s) = s.
Proof. unfold _predict_tbats. revert s. pure_all. Qed.

Lemma with_selected_same s :
  with_selected (fit_model s) (fit_model_type s) s = s.
Proof. destruct s. reflexivity. Qed.

Lemma touches_pure A (c : M Model A) :
  (forall s, snd (c s) = s) -> touches_selected_only c.
Proof.
  intros H s. exists (fit_model s), (fit_model_type s).
  now rewrite H, with_selected_same.
Qed.

Lemma touches_bind A B (c : M Model A) (k : A -> M Model B) :
  touches_selected_only c -> (forall a, touches_selected_only (k a)) ->
  touches_selected_only (bindM c k).
Proof.
  intros Hc Hk s. unfold bindM. destruct (Hc s) as (m & t & E).
  destruct (c s) as [[a|e] s1]; simpl in E; subst s1.
  - destruct (Hk a (with_selected m t s)) as (m' & t' & E').
    exists m', t'. rewrite E'. reflexivity.
  - exists m, t. reflexivity.
Qed.

Lemma touches_if A (b : bool) (c d : M Model A) :
  touches_selected_only c -> touches_selected_only d ->
  touches_selected_only (if b then c else d).
Proof. destruct b; auto. Qed.

Lemma touches_set_fit_model m :
  touches_selected_only (modify (set_fit_model (Model:=Model) m)).
Proof. intros s. exists m, (fit_model_type s). reflexivity. Qed.

Lemma touches_set_fit_model_type t :
  touches_selected_only (modify (set_fit_model_type (Model:=Model) t)).
Proof. intros s. exists (fit_model s), (Some t). reflexivity. Qed.

Lemma select_model_fold name (l : list (Candidate Model)) s :
  exists m,
    fold_left (fun s c => if String.eqb (c_name c) name
                          then set_fit_model (c_model c) s else s) l s
    = with_selected m (fit_model_type s) s.
Proof.
  revert s. induction l as [|c l IH]; intros s; simpl.
  - exists (fit_model s). now rewrite with_selected_same.
  - destruct (String.eqb (c_name c) name).
    + destruct (IH (set_fit_model (c_model c) s)) as [m E].
      exists m. rewrite E. reflexivity.
    + apply IH.
Qed.

Lemma touches_select_model name :
  touches_selected_only (select_model (Model:=Model) name).
Proof.
  intros s. unfold select_model, modify. simpl.
  destruct (select_model_fold name (candidate_models s) s) as [m E].
  exists m, (fit_model_type s). exact E.
Qed.

Lemma touches_predict_ensemble a b l exog :
  touches_selected_only (_predict_ensemble F a b l exog).
Proof.
  unfold _predict_ensemble.
  apply touches_bind; [apply touches_pure, pure_get|]. intros self.
  apply touches_bind.
  { apply touches_if; [|apply touches_pure, pure_ret].
    apply touches_bind; [apply touches_select_model|]. intros _.
    apply touches_pure. apply pure_bind; [|intros; apply pure_ret].
    apply pure_predict_auto_arima. }
  intros p1. apply touches_bind.
  { apply touches_if; [|apply touches_pure, pure_ret].
    apply touches_bind; [apply touches_select_model|]. intros _.
    apply touches_pure. apply pure_bind; [|intros; apply pure_ret].
    apply pure_predict_exponential_smoothing. }
  intros p2. apply touches_bind.
  { apply touches_if; [|apply touches_pure, pure_ret].
    apply touches_bind; [apply touches_select_model|]. intros _.
    apply touches_pure. apply pure_bind; [|intros; apply pure_ret].
    apply pure_predict_tbats. }
  intros p3.
  apply touches_bind; [apply touches_pure, pure_lift|]. intros ap.
  apply touches_bind.
  { apply touches_pure. intros s.
    destruct (p1 ++ p2 ++ p3) as [|x [|y r]]; reflexivity. }
  intros _.
  apply touches_bind; [apply touches_set_fit_model|]. intros _.
  apply touches_bind; [apply touches_set_fit_model_type|]. intros _.
  apply touches_pure. apply pure_bind; [apply pure_lift|].
  intros; apply pure_lift.
Qed.

Lemma touches_predict a b exog :
  touches_selected_only (predict F a b exog).
Proof.
  unfold predict.
  apply touches_bind;
    [apply touches_pure; intros; apply pure_predict_checks|].
  intros [[sd ed] ld].
  apply touches_bind; [apply touches_pure, pure_get|]. intros self.
  cbv zeta.
  repeat apply touches_if.
  - apply touches_bind; [|intros; apply touches_pure, pure_ret].
    apply touches_pure. intros; apply pure_predict_auto_arima.
  - apply touches_bind; [|intros; apply touches_pure, pure_ret].
    apply touches_pure. intros; apply pure_predict_exponential_smoothing.
  - apply touches_bind; [|intros; apply touches_pure, pure_ret].
    apply touches_pure. intros; apply pure_predict_tbats.
  - apply touches_bind; [|intros; apply touches_pure, pure_ret].
    apply touches_predict_ensemble.
  - apply touches_pure, pure_ret.
Qed.

Lemma predict_pure a b exog s :
  fit_model_type s <> Some "ensemble" ->
  snd (predict F a b exog s) = s.
Proof.
  intros Hne. unfold predict, bindM at 1.
  assert (Hs := pure_predict_checks a b exog s).
  destruct (predict_checks a b exog s) as [[[[sd ed] ld]|e] s1];
    simpl in Hs; subst s1; [|reflexivity].
  unfold bindM at 1, get. cbv zeta beta.
  destruct (fit_model_type s) as [t|] eqn:Et; [|reflexivity].
  destruct (String.eqb t "auto_arima").
  { apply pure_bind; [|intros; apply pure_ret].
    intros; apply pure_predict_auto_arima. }
  destruct (String.eqb t "exponential_smoothing").
  { apply pure_bind; [|intros; apply pure_ret].
    intros; apply pure_predict_exponential_smoothing. }
  destruct (String.eqb t "tbats").
  { apply pure_bind; [|intros; apply pure_ret].
    intros; apply pure_predict_tbats. }
  destruct (String.eqb t "ensemble") eqn:Ee; [|reflexivity].
  apply String.eqb_eq in Ee. congruence.
Qed.

(** [predict] never changes the object beyond the selected model and its
    type, whatever its outcome; when the selected model type is not
    [ensemble] it leaves the object exactly as it was. *)
Theorem predict_touches_selected_model_only (a b : date_arg)
        (exog : option DataFrame) (s : AutoTS Model) :
  (exists m t, snd (predict F a b exog s) = with_selected m t s)
  /\ (fit_model_type s <> Some "ensemble" ->
      snd (predict F a b exog s) = s).
Proof.
  split.
  - apply touches_predict.
  - apply predict_pure.
Qed.

End PredictState.

(** ** [validate_predict_dates] *)

Section ValidateDates.

Variable to_datetime : string -> result datetime.
Variable Model : Type.
Variable F : Forecasters Model.

(** On two datetimes [validate_predict_dates] raises exactly when the start
    is after the end, and then it is a [ValueError]; equal dates pass.  A
    fitted object's [predict] refuses the same pairs with the same error.  A
    value that is neither a string nor a datetime is a [TypeError]. *)
Theorem validate_predict_dates_order (a b : datetime) :
  (raises (Validation.validate_predict_dates to_datetime
             (Validation.DateObj a) (Validation.DateObj b))
   <-> dt_gtb a b = true)
  /\ (raises (Validation.validate_predict_dates to_datetime
                (Validation.DateObj a) (Validation.DateObj b))
      -> Validation.validate_predict_dates to_datetime
           (Validation.DateObj a) (Validation.DateObj b)
         = Raise ValueError)
  /\ Validation.validate_predict_dates to_datetime
       (Validation.DateObj a) (Validation.DateObj a) = Return tt
  /\ (forall (s : AutoTS Model) exog,
         is_fitted s = true ->
         raises (Validation.validate_predict_dates to_datetime
                   (Validation.DateObj a) (Validation.DateObj b)) ->
         predict F (IsDatetime a) (IsDatetime b) exog s
         = (Raise ValueError, s))
  /\ (forall v, Validation.validate_predict_dates to_datetime
                  Validation.DateOther v = Raise TypeError)
  /\ (forall v, Validation.validate_predict_dates to_datetime
                  (Validation.DateObj a) v <> Raise TypeError
                -> v <> Validation.DateOther).
Proof.
  unfold Validation.validate_predict_dates. cbn [bind].
  assert (R : raises (if dt_gtb a b then Raise ValueError else Return tt)
              <-> dt_gtb a b = true).
  { destruct (dt_gtb a b); split; intros H; try reflexivity.
    - exists ValueError. reflexivity.
    - destruct H as [e H]. discriminate.
    - discriminate. }
  split; [exact R|]. split.
  { intros H. apply R in H. now rewrite H. }
  split.
  { unfold dt_gtb. now rewrite dt_ltb_irrefl. }
  split.
  { intros s exog Hf H. apply R in H.
    unfold predict, bindM at 1, predict_checks, bindM at 1, get.
    rewrite Hf. cbn [negb]. rewrite H. reflexivity. }
  split; [reflexivity|].
  intros v H ->. apply H. reflexivity.
Qed.

End ValidateDates.

(** ** The selected model type *)

Section SelectedType.

Variable Model : Type.
Variable F : Forecasters Model.

(** After a successful [fit] the object is fitted and its model type is
    the name of one of its candidates: a name found on the object before
    the call or a requested one.  On an object without candidates it is one
    of the configured model names. *)
Theorem fit_selects_a_candidate (df : DataFrame) (column : string)
        (exog : exog_arg) (s s' : AutoTS Model) :
  fit F df column exog s = (Return tt, s') ->
  is_fitted s' = true
  /\ exists n,
       fit_model_type s' = Some n
       /\ In n (map (@c_name Model) (candidate_models s') )
       /\ In n (map (@c_name Model) (candidate_models s) ++ requested s)
       /\ (candidate_models s = [] -> In n (model_names s)).
Proof.
  intros H. apply fit_inv in H.
  destruct H as (_ & pre & w & rest & Hb & Hs & ->).
  split; [reflexivity|]. exists (c_name w).
  split; [reflexivity|]. split; [left; reflexivity|].
  assert (Hin : In (c_name w)
                   (map (@c_name Model) (candidate_models s)
                    ++ requested s)).
  { apply sorted_perm in Hs.
    rewrite <- (candidates_prepared df column exog s).
    rewrite <- (requested_prepared df column exog s).
    rewrite <- (built_names Hb). apply in_map.
    apply (Permutation_in _ (Permutation_sym Hs)). left; reflexivity. }
  split; [exact Hin|].
  intros E. rewrite E in Hin. simpl in Hin.
  unfold requested in Hin. apply filter_In in Hin.
  destruct Hin as [_ Hin]. now apply str_in_In.
Qed.

End SelectedType.

Lemma fit_selects_a_candidate_witness :
  fit_model_type Naive.fitted_six <> None.
Proof.
  destruct (@fit_selects_a_candidate Naive.Model Naive.forecasters
              Naive.six_months "y" ExogNone
              (Naive.fresh Naive.all_models "mase" 4) Naive.fitted_six)
    as (_ & n & Hn & _).
  - vm_compute. reflexivity.
  - rewrite Hn. discriminate.
Defined.
